(** * AudioEngine: a shallow embedding of src/components/AudioEngine.js

    The development follows the source file top to bottom:
    - [JS]: the number values the engine computes with, and the few
      [Math] operations it calls;
    - [Mapper]: [clamp] and [scale] (the UTILITIES section of the file),
      in exact arithmetic; [Rounded] and [Double]: [scale] with the
      rounding and the overflow of binary64;
    - [WebAudio]: the part of the host audio graph the engine drives
      (nodes, parameters with their automation timeline, connections);
      [Host]: its calls with the checks the host makes on their
      arguments;
    - [Reverb], [Drone], [Pulse], [Texture], [Pluck]: the five factory
      functions;
    - [Engine]: the component, its two effects and the interval timers.

    Numbers are exact, except in [Rounded] and [Double]: a JavaScript
    number is modelled as a rational, or one of NaN, +Infinity, -Infinity.
    A statement on [Mapper.scale] or on the arithmetic of [JS] is a
    statement in exact arithmetic; what rounding changes is stated on
    [Rounded] and checked on [Double]. *)

From Stdlib Require Import ZArith QArith Qminmax Qround Qabs Lqa Lia List Bool String Arith PeanoNat.
From Stdlib Require Import Floats.PrimFloat.
Import ListNotations.

Open Scope Q_scope.

(* ------------------------------------------------------------------ *)
(** ** JavaScript numbers *)

Inductive jsnum : Type :=
| NaN
| PInf
| NInf
| Fin (q : Q).

Module JS.

Definition num : Type := jsnum.

(** Same number value (rationals up to [==]). *)
Definition eqv (a b : num) : Prop :=
  match a, b with
  | NaN, NaN => True
  | PInf, PInf => True
  | NInf, NInf => True
  | Fin x, Fin y => x == y
  | _, _ => False
  end.

Definition eqvb (a b : num) : bool :=
  match a, b with
  | NaN, NaN => true
  | PInf, PInf => true
  | NInf, NInf => true
  | Fin x, Fin y => Qeq_bool x y
  | _, _ => false
  end.

Definition is_nan (a : num) : bool :=
  match a with NaN => true | _ => false end.

Definition Qltb (x y : Q) : bool := negb (Qle_bool y x).

Definition neg (a : num) : num :=
  match a with
  | NaN => NaN
  | PInf => NInf
  | NInf => PInf
  | Fin q => Fin (- q)
  end.

(** [a + b] *)
Definition add (a b : num) : num :=
  match a, b with
  | NaN, _ | _, NaN => NaN
  | PInf, NInf | NInf, PInf => NaN
  | PInf, _ | _, PInf => PInf
  | NInf, _ | _, NInf => NInf
  | Fin x, Fin y => Fin (x + y)
  end.

(** [a - b] *)
Definition sub (a b : num) : num := add a (neg b).

(** The infinity with the sign of [s * q], NaN when [q] is zero. *)
Definition inf_times (positive : bool) (q : Q) : num :=
  if Qeq_bool q 0 then NaN
  else if xorb positive (Qltb 0 q) then NInf else PInf.

(** [a * b] *)
Definition mul (a b : num) : num :=
  match a, b with
  | NaN, _ | _, NaN => NaN
  | PInf, PInf | NInf, NInf => PInf
  | PInf, NInf | NInf, PInf => NInf
  | PInf, Fin q | Fin q, PInf => inf_times true q
  | NInf, Fin q | Fin q, NInf => inf_times false q
  | Fin x, Fin y => Fin (x * y)
  end.

(** [a / b]; a zero divisor counts as +0. *)
Definition div (a b : num) : num :=
  match a, b with
  | NaN, _ | _, NaN => NaN
  | (PInf | NInf), (PInf | NInf) => NaN
  | PInf, Fin q => if Qltb q 0 then NInf else PInf
  | NInf, Fin q => if Qltb q 0 then PInf else NInf
  | Fin _, (PInf | NInf) => Fin 0
  | Fin x, Fin y =>
      if Qeq_bool y 0 then
        (if Qeq_bool x 0 then NaN else if Qltb 0 x then PInf else NInf)
      else Fin (x / y)
  end.

(** [Math.max(a, b)] *)
Definition max (a b : num) : num :=
  match a, b with
  | NaN, _ | _, NaN => NaN
  | PInf, _ | _, PInf => PInf
  | NInf, x | x, NInf => x
  | Fin x, Fin y => if Qle_bool x y then Fin y else Fin x
  end.

(** [Math.min(a, b)] *)
Definition min (a b : num) : num :=
  match a, b with
  | NaN, _ | _, NaN => NaN
  | NInf, _ | _, NInf => NInf
  | PInf, x | x, PInf => x
  | Fin x, Fin y => if Qle_bool x y then Fin x else Fin y
  end.

(** [a < b] *)
Definition lt (a b : num) : bool :=
  match a, b with
  | NaN, _ | _, NaN => false
  | PInf, _ => false
  | _, PInf => true
  | _, NInf => false
  | NInf, _ => true
  | Fin x, Fin y => Qltb x y
  end.

(** ToBoolean on a number: false for 0 and NaN. *)
Definition truthy (a : num) : bool :=
  match a with
  | NaN => false
  | Fin q => negb (Qeq_bool q 0)
  | _ => true
  end.

(** [a || b] on numbers. *)
Definition or_else (a b : num) : num := if truthy a then a else b.

(** [Math.floor(a)] *)
Definition floor (a : num) : num :=
  match a with
  | Fin q => Fin (inject_Z (Qfloor q))
  | _ => a
  end.

(** [xs[k]] for an array of numbers, used as a number: an index that
    names no element gives [undefined], which arithmetic reads as NaN. *)
Definition item (xs : list num) (k : num) : num :=
  match k with
  | Fin q =>
      if Qeq_bool q (inject_Z (Qfloor q)) && Qle_bool 0 q
      then nth (Z.to_nat (Qfloor q)) xs NaN
      else NaN
  | _ => NaN
  end.

End JS.

Coercion Fin : Q >-> jsnum.

(* ------------------------------------------------------------------ *)
(** ** UTILITIES: clamp and scale *)

Module Mapper.

(** [function clamp(v, min, max) { return Math.max(min, Math.min(max, v)); }] *)
Definition clamp (v min max : JS.num) : JS.num :=
  JS.max min (JS.min max v).

(** [function scale(v, inMin, inMax, outMin, outMax)] *)
Definition scale (v inMin inMax outMin outMax : JS.num) : JS.num :=
  let t := JS.div (JS.sub (clamp v inMin inMax) inMin)
                  (JS.or_else (JS.sub inMax inMin) (Fin 1)) in
  JS.add outMin (JS.mul t (JS.sub outMax outMin)).

(** The two halves of the quotient [t] in [scale], named so that they can
    be talked about: the divisor [(inMax - inMin || 1)] and [t] itself. *)
Definition divisor (inMin inMax : JS.num) : JS.num :=
  JS.or_else (JS.sub inMax inMin) (Fin 1).

Definition factor (v inMin inMax : JS.num) : JS.num :=
  JS.div (JS.sub (clamp v inMin inMax) inMin) (divisor inMin inMax).

End Mapper.

(* ------------------------------------------------------------------ *)
(** ** UTILITIES again, in rounded arithmetic

    The program computes with binary64 numbers: every [+], [-], [*] and
    [/] returns the representable number nearest to the exact result, or
    an infinity when that is beyond the largest finite number.
    [Math.max], [Math.min] and comparisons are exact.

    [Rounded] is [scale] with this rounding after each operation, for any
    rounding function [fl] (the nearest representable number, the
    exponent unbounded) and any largest finite number [big]; the sign of
    a zero is not kept.  With [fl] the identity and nothing beyond [big]
    it is [Mapper.scale].  [Double] is [scale] on the binary64 numbers of
    the kernel themselves, to run it. *)

Module Rounded.

Section Format.

Variable fl : Q -> Q.
Variable big : Q.

(** The result of an operation whose exact value is [a]. *)
Definition round (a : JS.num) : JS.num :=
  match a with
  | Fin q =>
      if Qle_bool (Qabs (fl q)) big then Fin (fl q)
      else if Qle_bool 0 (fl q) then PInf else NInf
  | _ => a
  end.

Definition add (a b : JS.num) : JS.num := round (JS.add a b).
Definition sub (a b : JS.num) : JS.num := round (JS.sub a b).
Definition mul (a b : JS.num) : JS.num := round (JS.mul a b).
Definition div (a b : JS.num) : JS.num := round (JS.div a b).

(** [function scale(v, inMin, inMax, outMin, outMax)] *)
Definition scale (v inMin inMax outMin outMax : JS.num) : JS.num :=
  let t := div (sub (Mapper.clamp v inMin inMax) inMin)
               (JS.or_else (sub inMax inMin) (Fin 1)) in
  add outMin (mul t (sub outMax outMin)).

End Format.

End Rounded.

Module Double.

Local Open Scope float_scope.

(** [Math.max(a, b)] and [Math.min(a, b)]: NaN when an argument is NaN, and
    [+0] counts as larger than [-0]. *)
Definition max (a b : float) : float :=
  if orb (is_nan a) (is_nan b) then nan
  else if ltb a b then b
  else if ltb b a then a
  else if get_sign a then b else a.

Definition min (a b : float) : float :=
  if orb (is_nan a) (is_nan b) then nan
  else if ltb b a then b
  else if ltb a b then a
  else if get_sign a then a else b.

(** [a || b] on numbers: [b] when [a] is a zero or NaN. *)
Definition or_else (a b : float) : float :=
  if orb (is_nan a) (is_zero a) then b else a.

(** [function clamp(v, min, max) { return Math.max(min, Math.min(max, v)); }] *)
Definition clamp (v min' max' : float) : float := max min' (min max' v).

(** [function scale(v, inMin, inMax, outMin, outMax)] *)
Definition scale (v inMin inMax outMin outMax : float) : float :=
  let t := (clamp v inMin inMax - inMin) / or_else (inMax - inMin) 1 in
  outMin + t * (outMax - outMin).

End Double.

(* ------------------------------------------------------------------ *)
(** ** Effects: state and exceptions

    JavaScript code mutates objects and may throw.  A piece of code run
    against a state [S] returns a value or throws; either way the state
    carries what was done until then. *)

Module Eff.

Inductive exn : Type :=
| InvalidStateError
| TypeError
| RangeError.

Inductive result (St A : Type) : Type :=
| Ok (a : A) (s : St)
| Throw (e : exn) (s : St).
Arguments Ok {St A} a s.
Arguments Throw {St A} e s.

Definition M (St A : Type) : Type := St -> result St A.

Definition ret {St A} (a : A) : M St A := fun s => Ok a s.

Definition bind {St A B} (m : M St A) (k : A -> M St B) : M St B :=
  fun s => match m s with
           | Ok a s' => k a s'
           | Throw e s' => Throw e s'
           end.

Definition throw {St A} (e : exn) : M St A := fun s => Throw e s.

(** [try { body } catch {}] *)
Definition try_catch {St} (body : M St unit) : M St unit :=
  fun s => match body s with
           | Ok _ s' => Ok tt s'
           | Throw _ s' => Ok tt s'
           end.

Definition get {St} : M St St := fun s => Ok s s.

Definition update {St} (f : St -> St) : M St unit := fun s => Ok tt (f s).

(** Run code that works on a part [T] of the state [St]. *)
Definition zoom {St T A} (proj : St -> T) (inj : T -> St -> St) (m : M T A)
    : M St A :=
  fun s => match m (proj s) with
           | Ok a t => Ok a (inj t s)
           | Throw e t => Throw e (inj t s)
           end.

Definition state_of {St A} (r : result St A) : St :=
  match r with Ok _ s => s | Throw _ s => s end.

Definition returns {St A} (r : result St A) : bool :=
  match r with Ok _ _ => true | Throw _ _ => false end.

(** [xs.map(f)] and [xs.forEach((x, i) => f)] with effects. *)
Fixpoint mapM {St A B} (f : A -> M St B) (xs : list A) : M St (list B) :=
  match xs with
  | [] => ret []
  | x :: t => bind (f x) (fun y => bind (mapM f t) (fun ys => ret (y :: ys)))
  end.

Fixpoint forEach_from {St A} (i : nat) (f : A -> nat -> M St unit)
    (xs : list A) : M St unit :=
  match xs with
  | [] => ret tt
  | x :: t => bind (f x i) (fun _ => forEach_from (S i) f t)
  end.

Definition forEach {St A} (f : A -> nat -> M St unit) (xs : list A)
    : M St unit :=
  forEach_from 0%nat f xs.

(** [xs[i]] where the result is used as an object. *)
Definition index {St A} (xs : list A) (i : nat) : M St A :=
  match nth_error xs i with
  | Some x => ret x
  | None => throw TypeError
  end.

End Eff.

Declare Scope eff_scope.
Delimit Scope eff_scope with eff.
Notation "x <- m ;; k" := (Eff.bind m (fun x => k))
  (at level 61, m at next level, right associativity) : eff_scope.
Notation "m ;;; k" := (Eff.bind m (fun _ => k))
  (at level 61, right associativity) : eff_scope.
Local Open Scope eff_scope.

(* ------------------------------------------------------------------ *)
(** ** The host audio graph

    What the engine sees of the Web Audio API: nodes with parameters,
    the automation timeline of each parameter, connections, and the
    start/stop state of source nodes.  Nodes live in the context and are
    named by their position (the order of creation), so that two
    references to one node are two copies of one index. *)

Module WebAudio.

(** One entry of a parameter's automation timeline, as scheduled. *)
Inductive automation : Type :=
| SetValueAtTime (value time : JS.num)
| LinearRampToValueAtTime (value endTime : JS.num)
| ExponentialRampToValueAtTime (value endTime : JS.num)
| SetTargetAtTime (target startTime timeConstant : JS.num).

Definition event_time (e : automation) : JS.num :=
  match e with
  | SetValueAtTime _ t => t
  | LinearRampToValueAtTime _ t => t
  | ExponentialRampToValueAtTime _ t => t
  | SetTargetAtTime _ t _ => t
  end.

Record AudioParam : Type := mkParam {
  value : JS.num;
  maxValue : JS.num;
  timeline : list automation
}.

Inductive param_name : Type :=
| Gain_ | Frequency | Detune | DelayTime | Quality.

Inductive node_kind : Type :=
| Destination
| GainNode
| DelayNode
| BiquadFilterNode
| OscillatorNode
| AudioBufferSourceNode
| WaveShaperNode
| DynamicsCompressorNode.

Record node : Type := mkNode {
  kind : node_kind;
  type : string;                (* [osc.type], [filter.type] *)
  p_gain : AudioParam;
  p_frequency : AudioParam;
  p_detune : AudioParam;
  p_delayTime : AudioParam;
  p_Q : AudioParam;
  started : option JS.num;      (* argument of [start], once called *)
  stopped : option JS.num       (* argument of the last [stop] *)
}.

(** Destination of a connection: a node input, or one of its parameters. *)
Inductive port : Type :=
| In (n : nat)
| Param (n : nat) (p : param_name).

Record AudioContext : Type := mkContext {
  nodes : list node;
  wires : list (nat * port);    (* [a.connect(b)], in call order *)
  currentTime : JS.num;         (* seconds *)
  sampleRate : Q;
  closed : bool
}.

Import Eff.

Definition M (A : Type) : Type := Eff.M AudioContext A.

Definition get_param (p : param_name) (n : node) : AudioParam :=
  match p with
  | Gain_ => p_gain n
  | Frequency => p_frequency n
  | Detune => p_detune n
  | DelayTime => p_delayTime n
  | Quality => p_Q n
  end.

Definition map_param (p : param_name) (f : AudioParam -> AudioParam)
    (n : node) : node :=
  match p with
  | Gain_ =>
      mkNode (kind n) (type n) (f (p_gain n)) (p_frequency n) (p_detune n)
             (p_delayTime n) (p_Q n) (started n) (stopped n)
  | Frequency =>
      mkNode (kind n) (type n) (p_gain n) (f (p_frequency n)) (p_detune n)
             (p_delayTime n) (p_Q n) (started n) (stopped n)
  | Detune =>
      mkNode (kind n) (type n) (p_gain n) (p_frequency n) (f (p_detune n))
             (p_delayTime n) (p_Q n) (started n) (stopped n)
  | DelayTime =>
      mkNode (kind n) (type n) (p_gain n) (p_frequency n) (p_detune n)
             (f (p_delayTime n)) (p_Q n) (started n) (stopped n)
  | Quality =>
      mkNode (kind n) (type n) (p_gain n) (p_frequency n) (p_detune n)
             (p_delayTime n) (f (p_Q n)) (started n) (stopped n)
  end.

Definition with_nodes (l : list node) (c : AudioContext) : AudioContext :=
  mkContext l (wires c) (currentTime c) (sampleRate c) (closed c).

Definition with_wires (w : list (nat * port)) (c : AudioContext)
    : AudioContext :=
  mkContext (nodes c) w (currentTime c) (sampleRate c) (closed c).

Fixpoint list_set {A} (i : nat) (x : A) (l : list A) : list A :=
  match l, i with
  | [], _ => []
  | _ :: t, O => x :: t
  | h :: t, S j => h :: list_set j x t
  end.

(** Read a node; a reference that names no node is a [TypeError]. *)
Definition node_at (i : nat) : M node :=
  fun c => match nth_error (nodes c) i with
           | Some n => Ok n c
           | None => Throw TypeError c
           end.

Definition put_node (i : nat) (n : node) : M unit :=
  fun c => Ok tt (with_nodes (list_set i n (nodes c)) c).

Definition modify (i : nat) (f : node -> node) : M unit :=
  bind (node_at i) (fun n => put_node i (f n)).

(** A parameter fresh from its factory. *)
Definition param (v : JS.num) : AudioParam := mkParam v PInf [].

Definition blank (k : node_kind) : node :=
  mkNode k EmptyString (param 0) (param 0) (param 0) (param 0) (param 0)
         None None.

Definition create (n : node) : M nat :=
  fun c => Ok (List.length (nodes c)) (with_nodes (nodes c ++ [n]) c).

(** The factory methods of the context, with the defaults of the API. *)
Definition createGain : M nat :=
  create (map_param Gain_ (fun _ => param 1) (blank GainNode)).

Definition createDelay (maxDelayTime : JS.num) : M nat :=
  create (map_param DelayTime (fun _ => mkParam 0 maxDelayTime [])
                    (blank DelayNode)).

Definition createBiquadFilter : M nat :=
  create (mkNode BiquadFilterNode "lowpass" (param 0) (param 350) (param 0)
                 (param 0) (param 1) None None).

Definition createOscillator : M nat :=
  create (mkNode OscillatorNode "sine" (param 0) (param 440) (param 0)
                 (param 0) (param 0) None None).

Definition createBufferSource : M nat := create (blank AudioBufferSourceNode).

Definition createWaveShaper : M nat := create (blank WaveShaperNode).

(** The compressor's five settings are not part of the graph model. *)
Definition createDynamicsCompressor : M nat :=
  create (blank DynamicsCompressorNode).

(** [node.param.value = v] *)
Definition set_value (i : nat) (p : param_name) (v : JS.num) : M unit :=
  modify i (map_param p (fun a => mkParam v (maxValue a) (timeline a))).

(** [node.param] *)
Definition read_param (i : nat) (p : param_name) : M AudioParam :=
  bind (node_at i) (fun n => ret (get_param p n)).

(** [node.type = s] *)
Definition set_type (i : nat) (s : string) : M unit :=
  modify i (fun n => mkNode (kind n) s (p_gain n) (p_frequency n)
                            (p_detune n) (p_delayTime n) (p_Q n)
                            (started n) (stopped n)).

(** [a.connect(b)] *)
Definition connect (a : nat) (b : port) : M unit :=
  fun c => Ok tt (with_wires (wires c ++ [(a, b)]) c).

(** Append one automation event to a parameter's timeline. *)
Definition schedule (i : nat) (p : param_name) (e : automation) : M unit :=
  modify i (map_param p
    (fun a => mkParam (value a) (maxValue a) (timeline a ++ [e]))).

(** [param.cancelScheduledValues(t)]: drops the events whose time is [t]
    or later, keeps the earlier ones.  (The API also ends a set-target
    automation still running at [t]; the engine never puts one on a
    parameter it cancels.) *)
Definition cancelScheduledValues (i : nat) (p : param_name) (t : JS.num)
    : M unit :=
  modify i (map_param p
    (fun a => mkParam (value a) (maxValue a)
                (filter (fun e => JS.lt (event_time e) t) (timeline a)))).

(** [source.start(when)]: a source can be started once. *)
Definition start (i : nat) (when : JS.num) : M unit :=
  bind (node_at i) (fun n =>
    match started n with
    | Some _ => throw InvalidStateError
    | None =>
        put_node i (mkNode (kind n) (type n) (p_gain n) (p_frequency n)
                           (p_detune n) (p_delayTime n) (p_Q n)
                           (Some when) (stopped n))
    end).

(** [source.stop(when)]: only a started source can be stopped. *)
Definition stop (i : nat) (when : JS.num) : M unit :=
  bind (node_at i) (fun n =>
    match started n with
    | None => throw InvalidStateError
    | Some _ =>
        put_node i (mkNode (kind n) (type n) (p_gain n) (p_frequency n)
                           (p_detune n) (p_delayTime n) (p_Q n)
                           (started n) (Some when))
    end).

(** [ctx.currentTime] *)
Definition now : M JS.num := fun c => Ok (currentTime c) c.

(** [new AudioContext()]: the destination is node 0. *)
Definition new_context (rate : Q) : AudioContext :=
  mkContext [blank Destination] [] 0 rate false.

Definition destination : nat := 0%nat.

(** [ctx.close()] *)
Definition close : M unit :=
  fun c => Ok tt (mkContext (nodes c) (wires c) (currentTime c)
                            (sampleRate c) true).

End WebAudio.

(* ------------------------------------------------------------------ *)
(** ** The host's argument checks

    The methods of the audio API check their arguments before they act.
    An argument declared [double] (a time) must be finite, and one
    declared [float] (a parameter value, a target, a time constant) must
    be finite after its conversion to binary32, or the call is a
    [TypeError]; a time or a time constant must not be negative, and the
    target of an exponential ramp must not be zero as a binary32 number,
    or the call is a [RangeError].  [WebAudio] above leaves the checks
    out; [Host] is [WebAudio] with the checks. *)

Module Host.
Import Eff WebAudio.

Definition finite (a : JS.num) : bool :=
  match a with Fin _ => true | _ => false end.

(** The numbers from [float_limit] on are infinite as binary32 numbers:
    [2^128 - 2^103], half a step beyond the largest one. *)
Definition float_limit : Q := 340282356779733661637539395458142568448.

(** The numbers up to [float_zero] are zero as binary32 numbers:
    [2^-150], half the smallest positive one. *)
Definition float_zero : Q := 1 # 1427247692705959881058285969449495136382746624.

Definition fits_float (a : JS.num) : bool :=
  match a with Fin q => JS.Qltb (Qabs q) float_limit | _ => false end.

Definition float_nonzero (a : JS.num) : bool :=
  match a with Fin q => JS.Qltb float_zero (Qabs q) | _ => true end.

(** An argument declared [double]. *)
Definition number (a : JS.num) : M unit :=
  if finite a then ret tt else throw TypeError.

(** An argument declared [float]. *)
Definition float (a : JS.num) : M unit :=
  if fits_float a then ret tt else throw TypeError.

Definition not_negative (a : JS.num) : M unit :=
  if JS.lt a 0 then throw RangeError else ret tt.

Definition not_zero (a : JS.num) : M unit :=
  if float_nonzero a then ret tt else throw RangeError.

(** [node.param.value = v] *)
Definition set_value (i : nat) (p : param_name) (v : JS.num) : M unit :=
  float v ;;; WebAudio.set_value i p v.

(** [param.setValueAtTime], [linearRampToValueAtTime],
    [exponentialRampToValueAtTime], [setTargetAtTime] *)
Definition schedule (i : nat) (p : param_name) (e : automation) : M unit :=
  match e with
  | SetValueAtTime v t =>
      float v ;;; number t ;;; not_negative t
  | LinearRampToValueAtTime v t =>
      float v ;;; number t ;;; not_negative t
  | ExponentialRampToValueAtTime v t =>
      float v ;;; number t ;;; not_zero v ;;; not_negative t
  | SetTargetAtTime v t c =>
      float v ;;; number t ;;; float c ;;; not_negative t ;;;
      not_negative c
  end ;;;
  WebAudio.schedule i p e.

(** [param.cancelScheduledValues(t)] *)
Definition cancelScheduledValues (i : nat) (p : param_name) (t : JS.num)
    : M unit :=
  number t ;;; not_negative t ;;; WebAudio.cancelScheduledValues i p t.

(** [source.start(when)]: the state of the source is checked before the
    range of [when]. *)
Definition start (i : nat) (when : JS.num) : M unit :=
  number when ;;;
  n <- node_at i ;;
  match started n with
  | Some _ => throw InvalidStateError
  | None => not_negative when ;;; WebAudio.start i when
  end.

(** [source.stop(when)] *)
Definition stop (i : nat) (when : JS.num) : M unit :=
  number when ;;;
  n <- node_at i ;;
  match started n with
  | None => throw InvalidStateError
  | Some _ => not_negative when ;;; WebAudio.stop i when
  end.

End Host.

(* ------------------------------------------------------------------ *)
(** ** REVERB: createSimpleReverb *)

Module Reverb.
Import Eff WebAudio.

Record t : Type := mk { input : nat; output : nat }.

(** The array literal [[0.011, 0.017, 0.019, 0.029]]. *)
Definition taps : list JS.num := [Fin 0.011; Fin 0.017; Fin 0.019; Fin 0.029].

(** [[0.011,0.017,0.019,0.029][i]] used as a number. *)
Definition tap (i : nat) : JS.num := nth i taps NaN.

Definition createSimpleReverb : M t :=
  input <- createGain ;;
  output <- createGain ;;
  delays <- mapM (fun _ => createDelay 0.25) taps ;;
  forEach (fun d i =>
             di <- index delays i ;;
             dt <- read_param di DelayTime ;;
             set_value d DelayTime
                       (if JS.truthy (maxValue dt)
                        then JS.min 0.25 (tap i) else tap i))
          delays ;;;
  feedbacks <- mapM (fun _ => createGain) delays ;;
  forEach (fun g _ => set_value g Gain_ 0.35) feedbacks ;;;
  damp <- createBiquadFilter ;;
  set_type damp "lowpass" ;;;
  set_value damp Frequency 4500 ;;;
  (d0 <- index delays 0 ;; connect input (In d0)) ;;;
  (d1 <- index delays 1 ;; connect input (In d1)) ;;;
  (d2 <- index delays 2 ;; connect input (In d2)) ;;;
  (d3 <- index delays 3 ;; connect input (In d3)) ;;;
  forEach (fun d i =>
             connect d (In damp) ;;;
             (f <- index feedbacks i ;; connect d (In f)) ;;;
             (f <- index feedbacks i ;; connect f (In d)))
          delays ;;;
  connect damp (In output) ;;;
  ret (mk input output).

End Reverb.

(* ------------------------------------------------------------------ *)
(** ** DRONE: createDrone *)

Module Drone.
Import Eff WebAudio.

(** The closure of [createDrone]: its nodes and the [running] flag. *)
Record t : Type := mk {
  osc1 : nat; osc2 : nat; osc3 : nat;
  lpf : nat; lfo : nat; lfoGain : nat; gain : nat;
  running : bool
}.

Definition set_running (b : bool) (d : t) : t :=
  mk (osc1 d) (osc2 d) (osc3 d) (lpf d) (lfo d) (lfoGain d) (gain d) b.

Section WithPow.
(** [Math.pow] *)
Variable pow : JS.num -> JS.num -> JS.num.

(** [function createDrone(ctx, reverbIn, dry)]: three parameters. *)
Definition createDrone (reverbIn dry : nat) : M t :=
  let root : JS.num := 55 in
  let minorSecond := JS.mul root (pow 2 (JS.div 1 12)) in
  let fifth := JS.mul root (pow 2 (JS.div 7 12)) in
  osc1 <- createOscillator ;;
  set_type osc1 "sawtooth" ;;; set_value osc1 Frequency root ;;;
  osc2 <- createOscillator ;;
  set_type osc2 "triangle" ;;; set_value osc2 Frequency minorSecond ;;;
  osc3 <- createOscillator ;;
  set_type osc3 "sawtooth" ;;; set_value osc3 Frequency fifth ;;;
  set_value osc1 Detune (-7) ;;;
  set_value osc2 Detune 3 ;;;
  set_value osc3 Detune 7 ;;;
  lpf <- createBiquadFilter ;;
  set_type lpf "lowpass" ;;; set_value lpf Frequency 400 ;;;
  lfo <- createOscillator ;;
  set_type lfo "sine" ;;; set_value lfo Frequency 0.07 ;;;
  lfoGain <- createGain ;;
  set_value lfoGain Gain_ 220 ;;;
  connect lfo (In lfoGain) ;;; connect lfoGain (Param lpf Frequency) ;;;
  gain <- createGain ;;
  set_value gain Gain_ 0.14 ;;;
  connect osc1 (In lpf) ;;; connect osc2 (In lpf) ;;; connect osc3 (In lpf) ;;;
  connect lpf (In gain) ;;;
  connect gain (In dry) ;;;
  connect gain (In reverbIn) ;;;
  ret (mk osc1 osc2 osc3 lpf lfo lfoGain gain false).

End WithPow.

(** The methods of the returned object work on the closure and on the
    context the closure captured. *)
Definition St : Type := (t * AudioContext)%type.

Definition on_ctx {A} (m : M A) : Eff.M St A :=
  zoom snd (fun c s => (fst s, c)) m.

Definition assign_running (b : bool) : Eff.M St unit :=
  update (fun s => (set_running b (fst s), snd s)).

(** [function start() { if (running) return; running = true;
     osc1.start(); osc2.start(); osc3.start(); lfo.start(); }] *)
Definition start : Eff.M St unit :=
  s <- get ;;
  let d := fst s in
  if running d then ret tt
  else
    assign_running true ;;;
    on_ctx (WebAudio.start (osc1 d) 0) ;;;
    on_ctx (WebAudio.start (osc2 d) 0) ;;;
    on_ctx (WebAudio.start (osc3 d) 0) ;;;
    on_ctx (WebAudio.start (lfo d) 0).

(** [function stop() { if (!running) return; running = false;
     try { osc1.stop(); osc2.stop(); osc3.stop(); lfo.stop(); } catch {} }] *)
Definition stop : Eff.M St unit :=
  s <- get ;;
  let d := fst s in
  if negb (running d) then ret tt
  else
    assign_running false ;;;
    try_catch (on_ctx (WebAudio.stop (osc1 d) 0) ;;;
               on_ctx (WebAudio.stop (osc2 d) 0) ;;;
               on_ctx (WebAudio.stop (osc3 d) 0) ;;;
               on_ctx (WebAudio.stop (lfo d) 0)).

(** [function setTension(tension)] *)
Definition setTension (tension : JS.num) : Eff.M St unit :=
  s <- get ;;
  let d := fst s in
  let cutoff := Mapper.scale tension 0 100 260 1800 in
  on_ctx (t0 <- now ;;
          schedule (lpf d) Frequency (SetTargetAtTime cutoff t0 0.5)) ;;;
  on_ctx (t1 <- now ;;
          schedule (gain d) Gain_
            (SetTargetAtTime (Mapper.scale tension 0 100 0.1 0.2) t1 0.5)).

End Drone.

(* ------------------------------------------------------------------ *)
(** ** PULSE: createPulse *)

Module Pulse.
Import Eff WebAudio.

Record t : Type := mk { osc : nat; gain : nat; shaper : nat }.

(** [function createPulse(ctx, reverbIn, dry)].  The samples of the
    shaper curve are not part of the graph model. *)
Definition createPulse (reverbIn dry : nat) : M t :=
  osc <- createOscillator ;;
  set_type osc "sine" ;;; set_value osc Frequency 50 ;;;
  gain <- createGain ;;
  set_value gain Gain_ 0 ;;;
  shaper <- createWaveShaper ;;
  connect osc (In shaper) ;;;
  connect shaper (In gain) ;;;
  connect gain (In dry) ;;;
  connect gain (In reverbIn) ;;;
  WebAudio.start osc 0 ;;;
  ret (mk osc gain shaper).

(** [function trigger(time)] *)
Definition trigger (p : t) (time : JS.num) : M unit :=
  t0 <- now ;;
  let now := JS.or_else time t0 in
  cancelScheduledValues (osc p) Frequency now ;;;
  schedule (osc p) Frequency (SetValueAtTime 60 now) ;;;
  schedule (osc p) Frequency
           (ExponentialRampToValueAtTime 40 (JS.add now 0.09)) ;;;
  cancelScheduledValues (gain p) Gain_ now ;;;
  schedule (gain p) Gain_ (SetValueAtTime 0 now) ;;;
  schedule (gain p) Gain_ (LinearRampToValueAtTime 0.6 (JS.add now 0.01)) ;;;
  schedule (gain p) Gain_
           (ExponentialRampToValueAtTime 0.0001 (JS.add now 0.6)).

End Pulse.

(* ------------------------------------------------------------------ *)
(** ** TEXTURE: createTexture *)

Module Texture.
Import Eff WebAudio.

(** The closure keeps the buses it was given.  The noise buffer is
    filled once, at construction; its samples are not part of the graph
    model, only its length in frames. *)
Record t : Type := mk { reverbIn : nat; dry : nat; frames : Q }.

Definition createTexture (reverbIn dry : nat) : M t :=
  c <- get ;;
  ret (mk reverbIn dry (sampleRate c * 2)).

(** [function trigger(time, tension)]; [random] is the value the one call
    of [Math.random()] returns. *)
Definition trigger (x : t) (random : JS.num) (time tension : JS.num)
    : M unit :=
  t0 <- now ;;
  let now := JS.or_else time t0 in
  src <- createBufferSource ;;
  bp <- createBiquadFilter ;;
  set_type bp "bandpass" ;;;
  let center :=
    JS.mul (Mapper.scale tension 0 100 400 3200)
           (JS.add 1 (JS.mul (JS.sub random 0.5) 0.3)) in
  set_value bp Frequency center ;;;
  set_value bp Quality (Mapper.scale tension 0 100 2 8) ;;;
  env <- createGain ;;
  set_value env Gain_ 0 ;;;
  connect src (In bp) ;;; connect bp (In env) ;;;
  connect env (In (reverbIn x)) ;;; connect env (In (dry x)) ;;;
  schedule env Gain_ (SetValueAtTime 0 now) ;;;
  schedule env Gain_
    (LinearRampToValueAtTime (Mapper.scale tension 0 100 0.12 0.35)
                             (JS.add now 0.02)) ;;;
  schedule env Gain_
    (ExponentialRampToValueAtTime 0.0001
       (JS.add now (Mapper.scale tension 0 100 1.6 0.6))) ;;;
  WebAudio.start src now ;;;
  WebAudio.stop src (JS.add now 2.0).

End Texture.

(* ------------------------------------------------------------------ *)
(** ** PLUCK: createPluck *)

Module Pluck.
Import Eff WebAudio.

Record t : Type := mk { reverbIn : nat; dry : nat }.

Definition createPluck (reverbIn dry : nat) : M t :=
  ret (mk reverbIn dry).

(** [[1, 2, 6, 10]] *)
Definition intervals : list JS.num := [Fin 1; Fin 2; Fin 6; Fin 10].

Section WithPow.
Variable pow : JS.num -> JS.num -> JS.num.

(** [function trigger(time, tension)]; [r1], [r2], [r3] are the values
    of the three calls of [Math.random()], in order. *)
Definition trigger (x : t) (r1 r2 r3 : JS.num) (time tension : JS.num)
    : M unit :=
  t0 <- now ;;
  let now := JS.or_else time t0 in
  osc <- createOscillator ;;
  set_type osc (if JS.lt r1 0.5 then "square" else "triangle") ;;;
  let base := JS.mul 440 (pow 2 (JS.floor (JS.mul r2 3))) in
  let intervalSemis := JS.item intervals (JS.floor (JS.mul r3 4)) in
  let freq := JS.mul base (pow 2 (JS.div intervalSemis 12)) in
  set_value osc Frequency freq ;;;
  env <- createGain ;;
  set_value env Gain_ 0 ;;;
  hp <- createBiquadFilter ;;
  set_type hp "highpass" ;;; set_value hp Frequency 600 ;;;
  connect osc (In hp) ;;; connect hp (In env) ;;;
  connect env (In (reverbIn x)) ;;; connect env (In (dry x)) ;;;
  schedule env Gain_ (SetValueAtTime 0 now) ;;;
  schedule env Gain_
    (LinearRampToValueAtTime (Mapper.scale tension 0 100 0.06 0.18)
                             (JS.add now 0.005)) ;;;
  schedule env Gain_
    (ExponentialRampToValueAtTime 0.0001
       (JS.add now (Mapper.scale tension 0 100 1.2 0.45))) ;;;
  WebAudio.start osc now ;;;
  WebAudio.stop osc (JS.add now 2.0).

End WithPow.

End Pluck.

(* ------------------------------------------------------------------ *)
(** ** The trigger functions and [setTension], for any host

    The same functions once more, with the five calls that take a number
    as parameters: with the calls of [WebAudio] they are the definitions
    above, with the calls of [Host] they are the functions as they run
    on a host that checks its arguments. *)

Module Api.
Import Eff WebAudio.

Section Calls.

Variable set_value : nat -> param_name -> JS.num -> M unit.
Variable schedule : nat -> param_name -> automation -> M unit.
Variable cancelScheduledValues : nat -> param_name -> JS.num -> M unit.
Variable start : nat -> JS.num -> M unit.
Variable stop : nat -> JS.num -> M unit.

(** [trigger(time)] of [createPulse] *)
Definition pulse_trigger (p : Pulse.t) (time : JS.num) : M unit :=
  t0 <- now ;;
  let now := JS.or_else time t0 in
  cancelScheduledValues (Pulse.osc p) Frequency now ;;;
  schedule (Pulse.osc p) Frequency (SetValueAtTime 60 now) ;;;
  schedule (Pulse.osc p) Frequency
           (ExponentialRampToValueAtTime 40 (JS.add now 0.09)) ;;;
  cancelScheduledValues (Pulse.gain p) Gain_ now ;;;
  schedule (Pulse.gain p) Gain_ (SetValueAtTime 0 now) ;;;
  schedule (Pulse.gain p) Gain_
           (LinearRampToValueAtTime 0.6 (JS.add now 0.01)) ;;;
  schedule (Pulse.gain p) Gain_
           (ExponentialRampToValueAtTime 0.0001 (JS.add now 0.6)).

(** [trigger(time, tension)] of [createTexture] *)
Definition texture_trigger (x : Texture.t) (random : JS.num)
    (time tension : JS.num) : M unit :=
  t0 <- now ;;
  let now := JS.or_else time t0 in
  src <- createBufferSource ;;
  bp <- createBiquadFilter ;;
  set_type bp "bandpass" ;;;
  let center :=
    JS.mul (Mapper.scale tension 0 100 400 3200)
           (JS.add 1 (JS.mul (JS.sub random 0.5) 0.3)) in
  set_value bp Frequency center ;;;
  set_value bp Quality (Mapper.scale tension 0 100 2 8) ;;;
  env <- createGain ;;
  set_value env Gain_ 0 ;;;
  connect src (In bp) ;;; connect bp (In env) ;;;
  connect env (In (Texture.reverbIn x)) ;;;
  connect env (In (Texture.dry x)) ;;;
  schedule env Gain_ (SetValueAtTime 0 now) ;;;
  schedule env Gain_
    (LinearRampToValueAtTime (Mapper.scale tension 0 100 0.12 0.35)
                             (JS.add now 0.02)) ;;;
  schedule env Gain_
    (ExponentialRampToValueAtTime 0.0001
       (JS.add now (Mapper.scale tension 0 100 1.6 0.6))) ;;;
  start src now ;;;
  stop src (JS.add now 2.0).

(** [trigger(time, tension)] of [createPluck] *)
Definition pluck_trigger (pow : JS.num -> JS.num -> JS.num) (x : Pluck.t)
    (r1 r2 r3 : JS.num) (time tension : JS.num) : M unit :=
  t0 <- now ;;
  let now := JS.or_else time t0 in
  osc <- createOscillator ;;
  set_type osc (if JS.lt r1 0.5 then "square" else "triangle") ;;;
  let base := JS.mul 440 (pow 2 (JS.floor (JS.mul r2 3))) in
  let intervalSemis :=
    JS.item Pluck.intervals (JS.floor (JS.mul r3 4)) in
  let freq := JS.mul base (pow 2 (JS.div intervalSemis 12)) in
  set_value osc Frequency freq ;;;
  env <- createGain ;;
  set_value env Gain_ 0 ;;;
  hp <- createBiquadFilter ;;
  set_type hp "highpass" ;;; set_value hp Frequency 600 ;;;
  connect osc (In hp) ;;; connect hp (In env) ;;;
  connect env (In (Pluck.reverbIn x)) ;;;
  connect env (In (Pluck.dry x)) ;;;
  schedule env Gain_ (SetValueAtTime 0 now) ;;;
  schedule env Gain_
    (LinearRampToValueAtTime (Mapper.scale tension 0 100 0.06 0.18)
                             (JS.add now 0.005)) ;;;
  schedule env Gain_
    (ExponentialRampToValueAtTime 0.0001
       (JS.add now (Mapper.scale tension 0 100 1.2 0.45))) ;;;
  start osc now ;;;
  stop osc (JS.add now 2.0).

(** [setTension(tension)] of [createDrone] *)
Definition setTension (tension : JS.num) : Eff.M Drone.St unit :=
  s <- get ;;
  let d := fst s in
  let cutoff := Mapper.scale tension 0 100 260 1800 in
  Drone.on_ctx (t0 <- now ;;
                schedule (Drone.lpf d) Frequency
                         (SetTargetAtTime cutoff t0 0.5)) ;;;
  Drone.on_ctx (t1 <- now ;;
                schedule (Drone.gain d) Gain_
                  (SetTargetAtTime (Mapper.scale tension 0 100 0.1 0.2)
                                   t1 0.5)).

End Calls.

End Api.

(** The functions on a host that checks its arguments. *)
Module Checked.
Import Eff WebAudio.

Definition pulse_trigger : Pulse.t -> JS.num -> M unit :=
  Api.pulse_trigger Host.schedule Host.cancelScheduledValues.

Definition texture_trigger
    : Texture.t -> JS.num -> JS.num -> JS.num -> M unit :=
  Api.texture_trigger Host.set_value Host.schedule Host.start Host.stop.

Definition pluck_trigger (pow : JS.num -> JS.num -> JS.num)
    : Pluck.t -> JS.num -> JS.num -> JS.num -> JS.num -> JS.num -> M unit :=
  Api.pluck_trigger Host.set_value Host.schedule Host.start Host.stop pow.

Definition setTension : JS.num -> Eff.M Drone.St unit :=
  Api.setTension Host.schedule.

End Checked.

(* ------------------------------------------------------------------ *)
(** ** makeSaturationCurve *)

Module Saturation.




Section WithPI.
(** [Math.PI] *)
Variable PI : JS.num.



End WithPI.

End Saturation.

(* ------------------------------------------------------------------ *)
(** ** The component: AudioEngine

    The component is a state machine driven by its host: React renders it
    with new props and runs its two effects, and the timer host fires the
    interval callbacks.  The state collects what the closures of the
    component share: the three refs, the objects the first effect
    created, the timer table, and a trace of the observable calls. *)

Module Engine.
Import Eff WebAudio.

Record Props : Type := mkProps {
  isRunning : bool;
  tension : JS.num;
  pulse : JS.num;
  reverb : JS.num;
  volume : JS.num
}.

(** The three arrow functions handed to [setInterval].  Each closes over
    the [tension] of the render that created it. *)
Inductive callback : Type :=
| PulseTick             (* [() => pulseNode.trigger(ctx.currentTime)] *)
| NoiseTick (tension : JS.num)
                        (* [() => texture.trigger(ctx.currentTime, tension)] *)
| PluckTick (tension : JS.num).
                        (* [() => { if (Math.random() < ...) pluck.trigger(...) }] *)

(** One entry of the host's table of active intervals (times in ms). *)
Record timer : Type := mkTimer {
  handle : nat;
  action : callback;
  delay : JS.num;               (* as passed to [setInterval] *)
  due : Q                       (* next time it fires *)
}.

Inductive layer : Type := PulseLayer | TextureLayer | PluckLayer.

Inductive event : Type :=
| SetInterval (h : nat) (cb : callback) (delay : JS.num)
| ClearInterval (h : nat)
| Trigger (l : layer) (at_ms : Q)
| ContextClose.

(** The objects one run of the first effect creates; its closures (the
    teardown function, the interval callbacks) and [nodesRef.current]
    all refer to these same objects.  The state keeps those of the
    latest run. *)
Record session : Type := mkSession {
  ctx : AudioContext;
  born : Q;                     (* clock time the context was created *)
  masterGain : nat;
  reverbWet : nat;
  dryGain : nat;
  drone : Drone.t;
  pulseNode : Pulse.t;
  texture : Texture.t;
  pluck : Pluck.t
}.

Record world : Type := mkWorld {
  clock : Q;                    (* ms *)
  rate : Q;                     (* sample rate new contexts get *)
  entropy : nat -> Q;           (* the values [Math.random()] will return *)
  drawn : nat;                  (* how many were taken *)
  timers : list timer;
  next_handle : nat;
  live : option session;
  ctxRef : bool;                (* [ctxRef.current]: null, or [ctx] of [live] *)
  nodesRef : bool;              (* [nodesRef.current]: null, or the nodes of [live] *)
  timersRef : list nat;         (* [timersRef.current] *)
  cleanup : bool;               (* React holds the teardown function *)
  deps : option Props;          (* props of the previous render *)
  trace : list event
}.

Definition init (e : nat -> Q) (r : Q) : world :=
  mkWorld 0 r e 0 [] 1 None false false [] false None [].

Definition set_clock (x : Q) (w : world) : world :=
  mkWorld x (rate w) (entropy w) (drawn w) (timers w) (next_handle w)
          (live w) (ctxRef w) (nodesRef w) (timersRef w) (cleanup w)
          (deps w) (trace w).
Definition set_drawn (x : nat) (w : world) : world :=
  mkWorld (clock w) (rate w) (entropy w) x (timers w) (next_handle w)
          (live w) (ctxRef w) (nodesRef w) (timersRef w) (cleanup w)
          (deps w) (trace w).
Definition set_timers (x : list timer) (w : world) : world :=
  mkWorld (clock w) (rate w) (entropy w) (drawn w) x (next_handle w)
          (live w) (ctxRef w) (nodesRef w) (timersRef w) (cleanup w)
          (deps w) (trace w).
Definition set_next_handle (x : nat) (w : world) : world :=
  mkWorld (clock w) (rate w) (entropy w) (drawn w) (timers w) x
          (live w) (ctxRef w) (nodesRef w) (timersRef w) (cleanup w)
          (deps w) (trace w).
Definition set_live (x : option session) (w : world) : world :=
  mkWorld (clock w) (rate w) (entropy w) (drawn w) (timers w) (next_handle w)
          x (ctxRef w) (nodesRef w) (timersRef w) (cleanup w)
          (deps w) (trace w).
Definition set_ctxRef (x : bool) (w : world) : world :=
  mkWorld (clock w) (rate w) (entropy w) (drawn w) (timers w) (next_handle w)
          (live w) x (nodesRef w) (timersRef w) (cleanup w)
          (deps w) (trace w).
Definition set_nodesRef (x : bool) (w : world) : world :=
  mkWorld (clock w) (rate w) (entropy w) (drawn w) (timers w) (next_handle w)
          (live w) (ctxRef w) x (timersRef w) (cleanup w)
          (deps w) (trace w).
Definition set_timersRef (x : list nat) (w : world) : world :=
  mkWorld (clock w) (rate w) (entropy w) (drawn w) (timers w) (next_handle w)
          (live w) (ctxRef w) (nodesRef w) x (cleanup w)
          (deps w) (trace w).
Definition set_cleanup (x : bool) (w : world) : world :=
  mkWorld (clock w) (rate w) (entropy w) (drawn w) (timers w) (next_handle w)
          (live w) (ctxRef w) (nodesRef w) (timersRef w) x
          (deps w) (trace w).
Definition set_deps (x : option Props) (w : world) : world :=
  mkWorld (clock w) (rate w) (entropy w) (drawn w) (timers w) (next_handle w)
          (live w) (ctxRef w) (nodesRef w) (timersRef w) (cleanup w)
          x (trace w).
Definition log (e : event) (w : world) : world :=
  mkWorld (clock w) (rate w) (entropy w) (drawn w) (timers w) (next_handle w)
          (live w) (ctxRef w) (nodesRef w) (timersRef w) (cleanup w)
          (deps w) (trace w ++ [e]).

Definition set_ctx (c : AudioContext) (s : session) : session :=
  mkSession c (born s) (masterGain s) (reverbWet s) (dryGain s) (drone s)
            (pulseNode s) (texture s) (pluck s).
Definition set_drone (d : Drone.t) (s : session) : session :=
  mkSession (ctx s) (born s) (masterGain s) (reverbWet s) (dryGain s) d
            (pulseNode s) (texture s) (pluck s).

(** *** The timer host *)

(** The period the host gives an interval: the delay asked for, or 0
    when that is not a positive number.  (The host's rounding of the
    delay to whole milliseconds is outside the model.) *)
Definition period (d : JS.num) : Q :=
  match d with
  | Fin q => if Qle_bool q 0 then 0 else q
  | _ => 0
  end.

(** [setInterval(cb, delay)] *)
Definition setInterval (cb : callback) (d : JS.num) : Eff.M world nat :=
  fun w =>
    let h := next_handle w in
    Ok h (log (SetInterval h cb d)
           (set_next_handle (S h)
             (set_timers (timers w ++ [mkTimer h cb d (clock w + period d)])
                         w))).

(** [clearInterval(h)] *)
Definition clearInterval (h : nat) : Eff.M world unit :=
  fun w =>
    Ok tt (log (ClearInterval h)
            (set_timers
               (filter (fun t => negb (Nat.eqb (handle t) h)) (timers w)) w)).

(** [Math.random()] *)
Definition random : Eff.M world JS.num :=
  fun w => Ok (Fin (entropy w (drawn w))) (set_drawn (S (drawn w)) w).

(** *** Reaching the captured objects *)

(** Code of a closure that uses the objects of the session.  Without a
    session there is no such closure; the case is a [TypeError]. *)
Definition on_session {A} (m : Eff.M session A) : Eff.M world A :=
  fun w =>
    match live w with
    | Some s =>
        match m s with
        | Ok a s' => Ok a (set_live (Some s') w)
        | Throw e s' => Throw e (set_live (Some s') w)
        end
    | None => Throw TypeError w
    end.

Definition on_ctx {A} (m : WebAudio.M A) : Eff.M session A :=
  zoom ctx set_ctx m.

Definition on_drone {A} (m : Eff.M Drone.St A) : Eff.M session A :=
  zoom (fun s => (drone s, ctx s))
       (fun dc s => set_drone (fst dc) (set_ctx (snd dc) s)) m.

(** *** The first effect: [useEffect(() => { ... }, [isRunning])] *)

Section WithPow.
(** [Math.pow] *)
Variable pow : JS.num -> JS.num -> JS.num.

(** [function dbToGain(db) { return Math.pow(10, db / 20); }] *)
Definition dbToGain (db : JS.num) : JS.num := pow 10 (JS.div db 20).

(** While the effect runs, [ctx] is a local variable next to the state
    of the component. *)
Definition Frame : Type := (world * AudioContext)%type.

Definition host {A} (m : Eff.M world A) : Eff.M Frame A :=
  zoom fst (fun w f => (w, snd f)) m.

Definition audio {A} (m : WebAudio.M A) : Eff.M Frame A :=
  zoom snd (fun c f => (fst f, c)) m.

(** A call of a method of the drone object [d]; gives the closure back. *)
Definition call_drone (d : Drone.t) (m : Eff.M Drone.St unit)
    : Eff.M Frame Drone.t :=
  fun f => match m (d, snd f) with
           | Ok _ dc => Ok (fst dc) (fst f, snd dc)
           | Throw e dc => Throw e (fst f, snd dc)
           end.

(** The body of the effect after [if (!isRunning) return;] and
    [new AudioCtx()], up to [drone.start()]. *)
Definition start_session (p : Props) : Eff.M Frame session :=
  masterGain <- audio createGain ;;
  audio (set_value masterGain Gain_
           (dbToGain (Mapper.scale (volume p) 0 100 (-36) (-3)))) ;;;
  compressor <- audio createDynamicsCompressor ;;
  reverbBus <- audio Reverb.createSimpleReverb ;;
  reverbWet <- audio createGain ;;
  audio (set_value reverbWet Gain_ (Mapper.scale (reverb p) 0 100 0.05 0.5)) ;;;
  dryGain <- audio createGain ;;
  audio (set_value dryGain Gain_ 1.0) ;;;
  audio (connect (Reverb.output reverbBus) (In reverbWet)) ;;;
  audio (connect reverbWet (In compressor)) ;;;
  audio (connect dryGain (In compressor)) ;;;
  audio (connect compressor (In masterGain)) ;;;
  audio (connect masterGain (In destination)) ;;;
  (* [createDrone(ctx, reverbBus.input, dryGain, { tension })]: the
     function has three parameters, the fourth argument is dropped *)
  drone <- audio (Drone.createDrone pow (Reverb.input reverbBus) dryGain) ;;
  pulseNode <- audio (Pulse.createPulse (Reverb.input reverbBus) dryGain) ;;
  texture <- audio (Texture.createTexture (Reverb.input reverbBus) dryGain) ;;
  let pulseMs := Mapper.scale (pulse p) 0 100 1600 420 in
  let noiseEveryMs := Mapper.scale (tension p) 0 100 4200 1300 in
  pulseTimer <- host (setInterval PulseTick pulseMs) ;;
  noiseTimer <- host (setInterval (NoiseTick (tension p)) noiseEveryMs) ;;
  pluck <- audio (Pluck.createPluck (Reverb.input reverbBus) dryGain) ;;
  pluckTimer <- host (setInterval (PluckTick (tension p)) 2000) ;;
  host (update (set_ctxRef true)) ;;;
  host (update (set_nodesRef true)) ;;;
  host (update (set_timersRef [pulseTimer; noiseTimer; pluckTimer])) ;;;
  drone <- call_drone drone Drone.start ;;
  f <- get ;;
  ret (mkSession (snd f) (clock (fst f)) masterGain reverbWet dryGain
                 drone pulseNode texture pluck).

Definition effect1 (p : Props) : Eff.M world unit :=
  fun w =>
    if negb (isRunning p) then Ok tt w
    else
      match start_session p (w, new_context (rate w)) with
      | Ok s f => Ok tt (set_cleanup true (set_live (Some s) (fst f)))
      | Throw e f => Throw e (fst f)
      end.

(** The function the effect returns:
    [timersRef.current.forEach((t) => clearInterval(t));
     timersRef.current = [];
     try { drone.stop(); } catch {}
     try { ctx.close(); } catch {}
     ctxRef.current = null; nodesRef.current = null;] *)
Definition teardown : Eff.M world unit :=
  w <- get ;;
  forEach (fun t _ => clearInterval t) (timersRef w) ;;;
  update (set_timersRef []) ;;;
  try_catch (on_session (on_drone Drone.stop)) ;;;
  try_catch (on_session (on_ctx close) ;;; update (log ContextClose)) ;;;
  update (set_ctxRef false) ;;;
  update (set_nodesRef false).

(** *** The second effect:
    [useEffect(() => { ... }, [tension, reverb, volume])] *)
Definition effect2 (p : Props) : Eff.M world unit :=
  w <- get ;;
  if negb (nodesRef w) then ret tt
  else if negb (ctxRef w) then throw TypeError
  else
    on_session (
      s <- get ;;
      on_ctx (t <- now ;;
              schedule (masterGain s) Gain_
                (SetTargetAtTime
                   (dbToGain (Mapper.scale (volume p) 0 100 (-36) (-3)))
                   t 0.05)) ;;;
      on_ctx (t <- now ;;
              schedule (reverbWet s) Gain_
                (SetTargetAtTime (Mapper.scale (reverb p) 0 100 0.05 0.5)
                                 t 0.1)) ;;;
      (* [if (drone && drone.setTension)]: both are objects, hence true *)
      on_drone (Drone.setTension (tension p))).

(** *** Rendering: React compares the dependencies with those of the
    previous render, runs the teardown of an effect whose dependencies
    changed, then the effects, in order. *)
Definition changed1 (old : option Props) (p : Props) : bool :=
  match old with
  | None => true
  | Some q => negb (Bool.eqb (isRunning q) (isRunning p))
  end.

Definition changed2 (old : option Props) (p : Props) : bool :=
  match old with
  | None => true
  | Some q => negb (JS.eqvb (tension q) (tension p)
                    && JS.eqvb (reverb q) (reverb p)
                    && JS.eqvb (volume q) (volume p))
  end.

Definition render (p : Props) : Eff.M world unit :=
  w <- get ;;
  update (set_deps (Some p)) ;;;
  (if changed1 (deps w) p && cleanup w
   then teardown ;;; update (set_cleanup false) else ret tt) ;;;
  (if changed1 (deps w) p then effect1 p else ret tt) ;;;
  (if changed2 (deps w) p then effect2 p else ret tt).

(** *** Interval callbacks *)

Definition fire (cb : callback) : Eff.M world unit :=
  w <- get ;;
  match cb with
  | PulseTick =>
      update (log (Trigger PulseLayer (clock w))) ;;;
      on_session (s <- get ;;
                  on_ctx (t <- now ;; Pulse.trigger (pulseNode s) t))
  | NoiseTick tension =>
      update (log (Trigger TextureLayer (clock w))) ;;;
      r <- random ;;
      on_session (s <- get ;;
                  on_ctx (t <- now ;;
                          Texture.trigger (texture s) r t tension))
  | PluckTick tension =>
      r0 <- random ;;
      if JS.lt r0 (Mapper.scale tension 0 100 0.15 0.55) then
        update (log (Trigger PluckLayer (clock w))) ;;;
        r1 <- random ;; r2 <- random ;; r3 <- random ;;
        on_session (s <- get ;;
                    on_ctx (t <- now ;;
                            Pluck.trigger pow (pluck s) r1 r2 r3 t tension))
      else ret tt
  end.

(** The interval that fires next: the least [due], the first of them
    in the table on a tie. *)
Fixpoint earliest (ts : list timer) : option timer :=
  match ts with
  | [] => None
  | t :: rest =>
      match earliest rest with
      | None => Some t
      | Some u => if Qle_bool (due t) (due u) then Some t else Some u
      end
  end.

Definition reschedule (h : nat) (w : world) : world :=
  set_timers
    (map (fun t => if Nat.eqb (handle t) h
                   then mkTimer h (action t) (delay t)
                                (due t + period (delay t))
                   else t)
         (timers w)) w.

(** [ctx.currentTime] follows the clock while the context is open. *)
Definition sync (w : world) : world :=
  match live w with
  | Some s =>
      if closed (ctx s) then w
      else set_live
             (Some (set_ctx (mkContext (nodes (ctx s)) (wires (ctx s))
                                       (Fin ((clock w - born s) / 1000))
                                       (sampleRate (ctx s)) false) s)) w
  | None => w
  end.

Definition later (a b : Q) : Q := if Qle_bool a b then b else a.

(** One firing, if an interval is due by [T].  An exception that escapes
    a callback is reported by the host and the interval goes on. *)
Definition tick (T : Q) (w : world) : option world :=
  match earliest (timers w) with
  | Some t =>
      if Qle_bool (due t) T then
        let w1 := sync (set_clock (later (clock w) (due t)) w) in
        Some (reschedule (handle t) (state_of (fire (action t) w1)))
      else None
  | None => None
  end.

(** Let time pass until [T], with at most [fuel] firings. *)
Fixpoint run (fuel : nat) (T : Q) (w : world) : world :=
  match fuel with
  | O => w
  | S n =>
      match tick T w with
      | Some w' => run n T w'
      | None => sync (set_clock (later (clock w) T) w)
      end
  end.

(** *** What the host can do to the component *)

Inductive input : Type :=
| Render (p : Props)
| Elapse (fuel : nat) (T : Q).

Definition step (i : input) (w : world) : option world :=
  match i with
  | Render p =>
      match render p w with
      | Ok _ w' => Some w'
      | Throw _ _ => None
      end
  | Elapse n T => Some (run n T w)
  end.

Fixpoint steps (l : list input) (w : world) : option world :=
  match l with
  | [] => Some w
  | i :: rest =>
      match step i w with
      | Some w' => steps rest w'
      | None => None
      end
  end.

(** The trigger calls recorded in a trace. *)
Definition is_trigger (e : event) : bool :=
  match e with Trigger _ _ => true | _ => false end.

Definition triggers (w : world) : list event := filter is_trigger (trace w).

End WithPow.

(** The states the component can be in: mounted in some host, then
    driven by any inputs. *)
Definition reachable (pow : JS.num -> JS.num -> JS.num) (w : world) : Prop :=
  exists e r p l, steps pow (Render p :: l) (init e r) = Some w.

End Engine.

(* ------------------------------------------------------------------ *)
(** ** Vocabulary of the statements

    Nothing below is part of the program: these are the notions the
    theorems are stated with. *)

Import Eff WebAudio Engine.

(** *** Numbers *)

(** [clamp] and [scale] on finite numbers, where they are plain
    rational arithmetic. *)
Definition clampQ (v lo hi : Q) : Q :=
  let m := if Qle_bool hi v then hi else v in
  if Qle_bool lo m then m else lo.

Definition divisorQ (a b : Q) : Q :=
  if Qeq_bool (b + - a) 0 then 1 else b + - a.

Definition factorQ (v a b : Q) : Q := (clampQ v a b + - a) / divisorQ a b.

Definition scaleQ (v a b lo hi : Q) : Q :=
  lo + (clampQ v a b + - a) / divisorQ a b * (hi + - lo).

(** The value of [0, 100] nearest to [v]; NaN has none. *)
Definition nearest (v : jsnum) : option Q :=
  match v with
  | NaN => None
  | PInf => Some 100
  | NInf => Some 0
  | Fin q => Some (if Qle_bool 100 q then 100 else if Qle_bool 0 q then q else 0)
  end.

(** *** Graphs *)

(** A context grown by some nodes and wires. *)
Definition grown (c : AudioContext) (ns : list node) (ws : list (nat * port))
    : AudioContext :=
  mkContext (nodes c ++ ns) (wires c ++ ws) (currentTime c) (sampleRate c)
            (closed c).

Definition mark_started (when : JS.num) (n : node) : node :=
  mkNode (kind n) (type n) (p_gain n) (p_frequency n) (p_detune n)
         (p_delayTime n) (p_Q n) (Some when) (stopped n).

Definition mark_stopped (when : JS.num) (n : node) : node :=
  mkNode (kind n) (type n) (p_gain n) (p_frequency n) (p_detune n)
         (p_delayTime n) (p_Q n) (started n) (Some when).

(** A gain node set to [g]; a delay line of [t] seconds with a capacity
    of 0.25 s; a low-pass filter with cutoff [f]. *)
Definition gain_of (g : Q) : node :=
  mkNode GainNode "" (param g) (param 0) (param 0) (param 0) (param 0)
         None None.

Definition delay_line (t : Q) : node :=
  mkNode DelayNode "" (param 0) (param 0) (param 0) (mkParam t 0.25 [])
         (param 0) None None.

Definition lowpass (f : Q) : node :=
  mkNode BiquadFilterNode "lowpass" (param 0) (param f) (param 0) (param 0)
         (param 1) None None.

(** The eleven nodes of the reverb, in creation order: input, output,
    four delay lines, their four feedback gains, the damping filter. *)
Definition reverb_nodes : list node :=
  [gain_of 1; gain_of 1;
   delay_line 0.011; delay_line 0.017; delay_line 0.019; delay_line 0.029;
   gain_of 0.35; gain_of 0.35; gain_of 0.35; gain_of 0.35;
   lowpass 4500].

(** Its wiring when the input is node [n]: output [n + 1], delay line
    [i] is [n + 2 + i], its feedback gain [n + 6 + i], the filter
    [n + 10]. *)
Definition reverb_wires (n : nat) : list (nat * port) :=
  [(n, In (n + 2)); (n, In (n + 3)); (n, In (n + 4)); (n, In (n + 5));
   (n + 2, In (n + 10)); (n + 2, In (n + 6)); (n + 6, In (n + 2));
   (n + 3, In (n + 10)); (n + 3, In (n + 7)); (n + 7, In (n + 3));
   (n + 4, In (n + 10)); (n + 4, In (n + 8)); (n + 8, In (n + 4));
   (n + 5, In (n + 10)); (n + 5, In (n + 9)); (n + 9, In (n + 5));
   (n + 10, In (n + 1))]%nat.

Definition is_delay (x : node) : bool :=
  match kind x with DelayNode => true | _ => false end.

(** A source started at [t] and stopped two seconds later. *)
Definition one_shot (k : node_kind) (t : JS.num) : node :=
  mkNode k "" (param 0) (param 0) (param 0) (param 0) (param 0)
         (Some t) (Some (JS.add t 2.0)).

(** What one trigger does to a timeline: the events at or after [t] go,
    the new ones are appended. *)
Definition retrigger (t : JS.num) (new : list automation) (a : AudioParam)
    : AudioParam :=
  mkParam (value a) (maxValue a)
          (filter (fun e => JS.lt (event_time e) t) (timeline a) ++ new).

(** *** Code that keeps a property of the state *)

Definition preserves {St : Type} (P : St -> Prop) {A} (m : Eff.M St A)
    : Prop :=
  forall s, P s -> P (state_of (m s)).

(** *** The component *)

(** [w'] differs from [w] at most in the captured objects, the random
    stream, the clock and the trace. *)
Record keeps (w w' : world) : Prop := mkKeeps {
  keeps_timers : timers w' = timers w;
  keeps_next_handle : next_handle w' = next_handle w;
  keeps_timersRef : timersRef w' = timersRef w;
  keeps_cleanup : cleanup w' = cleanup w;
  keeps_deps : deps w' = deps w;
  keeps_nodesRef : nodesRef w' = nodesRef w;
  keeps_ctxRef : ctxRef w' = ctxRef w;
  keeps_live : live w <> None -> live w' <> None
}.

Definition Keeps {A} (m : Eff.M world A) : Prop :=
  forall w0, preserves (keeps w0) m.

Definition layer_of (cb : callback) : layer :=
  match cb with
  | PulseTick => PulseLayer
  | NoiseTick _ => TextureLayer
  | PluckTick _ => PluckLayer
  end.

(** The state while a session is running: the table holds the three
    intervals, in the order pulse, texture, pluck, and [timersRef.current]
    lists their handles. *)
Record running_shape (w : world) : Prop := mkRunning {
  rs_layers : map (fun t => layer_of (action t)) (timers w)
              = [PulseLayer; TextureLayer; PluckLayer];
  rs_ref : timersRef w = map handle (timers w);
  rs_nodes : nodesRef w = true;
  rs_ctx : ctxRef w = true;
  rs_live : live w <> None
}.

(** What holds in every state the component reaches. *)
Definition Inv (w : world) : Prop :=
  match deps w with
  | Some q => isRunning q = cleanup w
  | None => cleanup w = false
  end
  /\ if cleanup w then running_shape w
     else timers w = [] /\ nodesRef w = false.

(** The state after [clearInterval] was called on each handle. *)
Fixpoint cleared (hs : list nat) (w : world) : world :=
  match hs with
  | [] => w
  | h :: rest => cleared rest (state_of (clearInterval h w))
  end.

(** The session after [drone.stop()] and [ctx.close()]. *)
Definition wound_down (s : session) : session :=
  state_of (on_ctx close (state_of (on_drone Drone.stop s))).

(** The state after the teardown function ran. *)
Definition torn_down (w : world) : world :=
  match live w with
  | Some s =>
      set_nodesRef false (set_ctxRef false (log ContextClose
        (set_live (Some (wound_down s))
           (set_timersRef [] (cleared (timersRef w) w)))))
  | None => w
  end.

(** The state after the three [setInterval] calls and the three
    assignments to the refs. *)
Definition with_intervals (p : Props) (w : world) : world :=
  let w1 := state_of (setInterval PulseTick
                        (Mapper.scale (pulse p) 0 100 1600 420) w) in
  let w2 := state_of (setInterval (NoiseTick (tension p))
                        (Mapper.scale (tension p) 0 100 4200 1300) w1) in
  let w3 := state_of (setInterval (PluckTick (tension p)) 2000 w2) in
  set_timersRef [next_handle w; next_handle w1; next_handle w2]
    (set_nodesRef true (set_ctxRef true w3)).

(** The two parameters of the drone that follow the tension: the gain of
    its output node and the frequency of its filter. *)
Definition drone_levels (s : session) : option (AudioParam * AudioParam) :=
  match nth_error (nodes (ctx s)) (Drone.gain (drone s)),
        nth_error (nodes (ctx s)) (Drone.lpf (drone s)) with
  | Some g, Some f => Some (p_gain g, p_frequency f)
  | _, _ => None
  end.

Definition stopped_world (p : Props) (w : world) : world :=
  set_cleanup false (torn_down (set_deps (Some p) w)).

Definition started_world (p : Props) (s : session) (w : world) : world :=
  set_cleanup true (set_live (Some s) (with_intervals p (set_deps (Some p) w))).

(** The part of a render after the first effect. *)
Definition after_effects (pow : JS.num -> JS.num -> JS.num) (p : Props)
    (old : option Props) : Eff.M world unit :=
  if changed2 old p then effect2 pow p else ret tt.

(** Inputs that do not start a session; inputs that do not stop one. *)
Definition stays_stopped (i : input) : Prop :=
  match i with
  | Render q => isRunning q = false
  | Elapse _ _ => True
  end.

Definition stays_running (i : input) : Prop :=
  match i with
  | Render q => isRunning q = true
  | Elapse _ _ => True
  end.

(** What the timer table says about each interval, apart from the time
    it fires next. *)
Definition schedule_of (w : world) : list (nat * callback * JS.num) :=
  map (fun t => (handle t, action t, delay t)) (timers w).

(** The clock times of the trigger calls into layer [l], and the gaps
    between consecutive ones. *)
Definition same_layer (a b : layer) : bool :=
  match a, b with
  | PulseLayer, PulseLayer => true
  | TextureLayer, TextureLayer => true
  | PluckLayer, PluckLayer => true
  | _, _ => false
  end.

Fixpoint firings (l : layer) (tr : list event) : list Q :=
  match tr with
  | [] => []
  | Trigger k t :: rest =>
      if same_layer k l then t :: firings l rest else firings l rest
  | _ :: rest => firings l rest
  end.

Fixpoint gaps (ts : list Q) : list Q :=
  match ts with
  | a :: (b :: _) as rest => Qred (b - a) :: gaps rest
  | _ => []
  end.

(** *** Concrete hosts and inputs, for the examples *)

(** A stand-in for [Math.pow]: exact for the exponents 0 and 1. *)
Definition pow01 (a b : JS.num) : JS.num :=
  match b with
  | Fin q => if Qeq_bool q 0 then Fin 1 else if Qeq_bool q 1 then a else NaN
  | _ => NaN
  end.

(** The props of the page: tension 70, pulse 60, reverb 65, volume 75. *)
Definition page (running : bool) : Props :=
  mkProps running 70 60 65 75.

Definition with_pulse (x : JS.num) (p : Props) : Props :=
  mkProps (isRunning p) (tension p) x (reverb p) (volume p).

Definition demo_host : world := init (fun _ => 0.3) 44100.

Definition after (l : list input) : world :=
  match steps pow01 l demo_host with
  | Some w => w
  | None => demo_host
  end.

(** Two gain nodes for the buses and a pulse layer; the same, followed
    by two triggers. *)
Definition pulse_setup : M Pulse.t :=
  rev <- createGain ;; dry <- createGain ;; Pulse.createPulse rev dry.

Definition pulse_demo (t1 t2 : JS.num) : M Pulse.t :=
  p <- pulse_setup ;;
  Pulse.trigger p t1 ;;;
  Pulse.trigger p t2 ;;;
  ret p.

Definition demo_pulse_ctx : AudioContext :=
  state_of (pulse_setup (new_context 44100)).

Definition demo_pulse : Pulse.t :=
  match pulse_setup (new_context 44100) with
  | Ok p _ => p
  | Throw _ _ => Pulse.mk 0 0 0
  end.

Definition frequency_timeline (p : Pulse.t) (c : AudioContext)
    : list automation :=
  match nth_error (nodes c) (Pulse.osc p) with
  | Some o => timeline (p_frequency o)
  | None => []
  end.

(** A drone made in a new context, before and after [start()]. *)
Definition demo_drone_made : Drone.St :=
  match (rev <- createGain ;; dry <- createGain ;;
         Drone.createDrone pow01 rev dry) (new_context 44100) with
  | Ok d c => (d, c)
  | Throw _ c => (Drone.mk 0 0 0 0 0 0 0 false, c)
  end.

Definition demo_drone_started : Drone.St :=
  state_of (Drone.start demo_drone_made).

(** *** The shaper curve *)



(** *** One-shot voices *)

(** The centre frequency a texture trigger gives its band-pass filter. *)
Definition texture_center (tension random : JS.num) : JS.num :=
  JS.mul (Mapper.scale tension 0 100 400 3200)
         (JS.add 1 (JS.mul (JS.sub random 0.5) 0.3)).

(** The three nodes a texture trigger creates: the source, the band-pass
    filter and the envelope gain with its three scheduled events. *)
Definition texture_voice (t tension random : JS.num) : list node :=
  [one_shot AudioBufferSourceNode t;
   mkNode BiquadFilterNode "bandpass" (param 0)
          (param (texture_center tension random)) (param 0) (param 0)
          (param (Mapper.scale tension 0 100 2 8)) None None;
   mkNode GainNode ""
          (mkParam 0 PInf
             [SetValueAtTime 0 t;
              LinearRampToValueAtTime (Mapper.scale tension 0 100 0.12 0.35)
                                      (JS.add t 0.02);
              ExponentialRampToValueAtTime 0.0001
                (JS.add t (Mapper.scale tension 0 100 1.6 0.6))])
          (param 0) (param 0) (param 0) (param 0) None None].

(** The frequency a pluck trigger gives its oscillator, from the second
    and third random draw. *)
Definition pluck_frequency (pow : JS.num -> JS.num -> JS.num)
    (r2 r3 : JS.num) : JS.num :=
  JS.mul (JS.mul 440 (pow 2 (JS.floor (JS.mul r2 3))))
         (pow 2 (JS.div (JS.item Pluck.intervals (JS.floor (JS.mul r3 4)))
                        12)).

(** The three nodes a pluck trigger creates: oscillator, envelope gain,
    high-pass filter. *)
Definition pluck_voice (pow : JS.num -> JS.num -> JS.num)
    (t tension r1 r2 r3 : JS.num) : list node :=
  [mkNode OscillatorNode (if JS.lt r1 0.5 then "square" else "triangle")
          (param 0) (param (pluck_frequency pow r2 r3)) (param 0) (param 0)
          (param 0) (Some t) (Some (JS.add t 2.0));
   mkNode GainNode ""
          (mkParam 0 PInf
             [SetValueAtTime 0 t;
              LinearRampToValueAtTime (Mapper.scale tension 0 100 0.06 0.18)
                                      (JS.add t 0.005);
              ExponentialRampToValueAtTime 0.0001
                (JS.add t (Mapper.scale tension 0 100 1.2 0.45))])
          (param 0) (param 0) (param 0) (param 0) None None;
   mkNode BiquadFilterNode "highpass" (param 0) (param 600) (param 0)
          (param 0) (param 1) None None].

(** *** The drone's graph *)

(** An oscillator as [createDrone] sets it up. *)
Definition oscillator (type : string) (frequency detune : JS.num)
    (started stopped : option JS.num) : node :=
  mkNode OscillatorNode type (param 0) (param frequency) (param detune)
         (param 0) (param 0) started stopped.

(** The seven nodes of the drone, in creation order: the three
    oscillators, the filter, the LFO, its depth gain, the output gain.
    [on] and [off] are the start and stop state of the four sources. *)
Definition drone_nodes (pow : JS.num -> JS.num -> JS.num)
    (on off : option JS.num) : list node :=
  [oscillator "sawtooth" 55 (-7) on off;
   oscillator "triangle" (JS.mul 55 (pow 2 (JS.div 1 12))) 3 on off;
   oscillator "sawtooth" (JS.mul 55 (pow 2 (JS.div 7 12))) 7 on off;
   lowpass 400;
   oscillator "sine" 0.07 0 on off;
   gain_of 220;
   gain_of 0.14].

(** Its wiring when the first oscillator is node [n]. *)
Definition drone_wires (n reverbIn dry : nat) : list (nat * port) :=
  [(n + 4, In (n + 5)); (n + 5, Param (n + 3) Frequency);
   (n, In (n + 3)); (n + 1, In (n + 3)); (n + 2, In (n + 3));
   (n + 3, In (n + 6));
   (n + 6, In dry); (n + 6, In reverbIn)]%nat.

Definition drone_at (n : nat) (running : bool) : Drone.t :=
  Drone.mk n (n + 1) (n + 2) (n + 3) (n + 4) (n + 5) (n + 6) running.

(** *** The pulse layer's graph *)

Definition pulse_nodes : list node :=
  [oscillator "sine" 50 0 (Some (Fin 0)) None;
   gain_of 0;
   blank WaveShaperNode].

Definition pulse_wires (n reverbIn dry : nat) : list (nat * port) :=
  [(n, In (n + 2)); (n + 2, In (n + 1));
   (n + 1, In dry); (n + 1, In reverbIn)]%nat.

(** *** Hosts with other random draws *)

(** The page started in a host whose [Math.random()] always returns [x]. *)
Definition started_drawing (x : Q) : world :=
  match steps pow01 [Render (page false); Render (page true)]
              (init (fun _ => x) 44100) with
  | Some w => w
  | None => init (fun _ => x) 44100
  end.

(** *** The graph of a session *)

(** A gain node whose gain was set to [g]. *)
Definition gain_node (g : JS.num) : node :=
  mkNode GainNode "" (param g) (param 0) (param 0) (param 0) (param 0)
         None None.

(** The 26 nodes of a context after the first effect ran, in creation
    order: destination (0), master gain (1), compressor (2), the reverb
    (3 to 13: input 3, output 4), the wet gain (14), the dry gain (15),
    the drone (16 to 22), the pulse layer (23 to 25). *)
Definition session_nodes (pow : JS.num -> JS.num -> JS.num) (p : Props)
    : list node :=
  [blank Destination;
   gain_node (dbToGain pow (Mapper.scale (volume p) 0 100 (-36) (-3)));
   blank DynamicsCompressorNode]
  ++ reverb_nodes
  ++ [gain_node (Mapper.scale (reverb p) 0 100 0.05 0.5); gain_node 1.0]
  ++ drone_nodes pow (Some (Fin 0)) None
  ++ pulse_nodes.

Definition session_wires : list (nat * port) :=
  reverb_wires 3
  ++ [(4, In 14); (14, In 2); (15, In 2); (2, In 1); (1, In destination)]%nat
  ++ drone_wires 16 3 15
  ++ pulse_wires 23 3 15.

Definition session_ctx (pow : JS.num -> JS.num -> JS.num) (p : Props)
    (rate : Q) : AudioContext :=
  mkContext (session_nodes pow p) session_wires 0 rate false.

(** The session the first effect creates in state [w]. *)
Definition fresh_session (pow : JS.num -> JS.num -> JS.num) (p : Props)
    (w : world) : session :=
  mkSession (session_ctx pow p (rate w)) (clock w) 1 14 15
            (drone_at 16 true) (Pulse.mk 23 24 25)
            (Texture.mk 3 15 (rate w * 2)) (Pluck.mk 3 15).

(** The nodes connected to the input of node [target], in the order of
    the [connect] calls. *)
Definition feeders (target : nat) (c : AudioContext) : list nat :=
  map fst (filter (fun x => match snd x with
                            | In n => Nat.eqb n target
                            | Param _ _ => false
                            end) (wires c)).

(** *** Automation targets *)

(** A parameter with one more event on its timeline; its value stays. *)
Definition with_event (e : automation) (a : AudioParam) : AudioParam :=
  mkParam (value a) (maxValue a) (timeline a ++ [e]).

(** Parameter [p] of node [i], if there is such a node. *)
Definition param_of (i : nat) (p : param_name) (c : AudioContext)
    : option AudioParam :=
  option_map (get_param p) (nth_error (nodes c) i).

Definition at_least (k : nat) (c : AudioContext) : Prop :=
  (k <= List.length (nodes c))%nat.

(** Node [i] is a source that was started. *)
Definition started_at (i : nat) (c : AudioContext) : Prop :=
  exists x, nth_error (nodes c) i = Some x /\ started x <> None.

(** A context that still has the 26 nodes of its session, the four
    sources of the drone started. *)
Definition solid (c : AudioContext) : Prop :=
  at_least 26 c
  /\ Forall (fun i => started_at i c) [16; 17; 18; 20]%nat.

(** The objects of a session as the first effect numbers them, in a
    context that still has them. *)
Record wired (s : session) : Prop := mkWired {
  wired_master : masterGain s = 1%nat;
  wired_wet : reverbWet s = 14%nat;
  wired_dry : dryGain s = 15%nat;
  wired_drone : drone s = drone_at 16 true;
  wired_pulse : pulseNode s = Pulse.mk 23 24 25;
  wired_texture : Texture.reverbIn (texture s) = 3%nat
                  /\ Texture.dry (texture s) = 15%nat;
  wired_pluck : pluck s = Pluck.mk 3 15;
  wired_solid : solid (ctx s)
}.

(** A state with a session whose objects are in place. *)
Definition in_session (w : world) : Prop :=
  exists s, live w = Some s /\ wired s.

(** While React holds the teardown function, the session is there. *)
Definition running_session (w : world) : Prop :=
  cleanup w = true -> in_session w.

(** One more event on parameter [p] of node [i]. *)
Definition target (i : nat) (p : param_name) (e : automation)
    (l : list node) : list node :=
  match nth_error l i with
  | Some x => list_set i (map_param p (with_event e) x) l
  | None => l
  end.

(** The session after the second effect ran with props [q]: four
    set-target events, all starting at the context's current time. *)
Definition retargeted (pow : JS.num -> JS.num -> JS.num) (q : Props)
    (s : session) : session :=
  let t := currentTime (ctx s) in
  set_ctx
    (with_nodes
       (target (Drone.gain (drone s)) Gain_
          (SetTargetAtTime (Mapper.scale (tension q) 0 100 0.1 0.2) t 0.5)
       (target (Drone.lpf (drone s)) Frequency
          (SetTargetAtTime (Mapper.scale (tension q) 0 100 260 1800) t 0.5)
       (target (reverbWet s) Gain_
          (SetTargetAtTime (Mapper.scale (reverb q) 0 100 0.05 0.5) t 0.1)
       (target (masterGain s) Gain_
          (SetTargetAtTime
             (dbToGain pow (Mapper.scale (volume q) 0 100 (-36) (-3))) t 0.05)
          (nodes (ctx s))))))
       (ctx s))
    s.

(** Node [i] stopped at time 0, as [source.stop()] leaves it. *)
Definition halt (i : nat) (l : list node) : list node :=
  match nth_error l i with
  | Some x => list_set i (mark_stopped 0 x) l
  | None => l
  end.

(** *** Rounded arithmetic *)

(** What the theorems need of a number format: rounding keeps the
    order, gives a representable number, and 0, 1 and the largest
    finite number (with its negative) are representable.  Binary64 with
    rounding to nearest is such a format; so is exact arithmetic. *)
Record rounding (fl : Q -> Q) (big : Q) : Prop := mkRounding {
  fl_mono : forall x y, x <= y -> fl x <= fl y;
  fl_idem : forall x, fl (fl x) == fl x;
  fl_zero : fl 0 == 0;
  fl_one : fl 1 == 1;
  fl_big : fl big == big;
  fl_small : fl (- big) == - big;
  big_one : 1 <= big
}.

(** A number of the format. *)
Definition representable (fl : Q -> Q) (big : Q) (x : Q) : Prop :=
  fl x == x /\ Qabs x <= big.

(** [scale] on finite numbers with rounding, as long as nothing
    overflows: the interpolation factor, and the result. *)
Definition factorR (fl : Q -> Q) (v a b : Q) : Q :=
  fl (fl (clampQ v a b + - a)
      / (if Qeq_bool (fl (b + - a)) 0 then 1 else fl (b + - a))).

Definition scaleR (fl : Q -> Q) (v a b lo hi : Q) : Q :=
  fl (lo + fl (factorR fl v a b * fl (hi + - lo))).

(** The value of [scale] at the upper end of the input range. *)
Definition top (fl : Q -> Q) (lo hi : Q) : Q := fl (lo + fl (hi + - lo)).

(** A small format for the examples: the multiples of 1/16 up to 1000,
    rounding to the nearest (halves upwards). *)
Definition sixteenth (x : Q) : Q := inject_Z (Qfloor (x * 16 + (1 # 2))) / 16.

(** *** The mapping at the sliders, in binary64 *)

(** The output bounds of the calls of [scale] in the file, in source
    order; the input range is [0, 100] in each. *)
#[warnings="-inexact-float"]
Definition call_sites : list (float * float) :=
  [(-36, -3); (0.05, 0.5); (1600, 420); (4200, 1300); (0.15, 0.55);
   (260, 1800); (0.1, 0.2); (400, 3200); (2, 8); (0.12, 0.35); (1.6, 0.6);
   (0.06, 0.18); (1.2, 0.45)]%float.

Fixpoint count_up (n : nat) (x : float) : list float :=
  match n with
  | O => []
  | S k => x :: count_up k (x + 1)%float
  end.

(** The positions of a slider of the page: 0, 1, ..., 100. *)
Definition positions : list float := count_up 101 0%float.

Definition ordered (up : bool) (a b : float) : bool :=
  if up then PrimFloat.leb a b else PrimFloat.leb b a.

Fixpoint chain (up : bool) (l : list float) : bool :=
  match l with
  | a :: (b :: _) as rest => ordered up a b && chain up rest
  | _ => true
  end.

(** At one call site: over the positions the values are ordered in the
    direction of the bounds, start at [outLo] and lie between [outLo] and
    the value at 100. *)
Definition site_ok (s : float * float) : bool :=
  let (lo, hi) := s in
  let up := PrimFloat.leb lo hi in
  let values := map (fun v => Double.scale v 0 100 lo hi) positions in
  chain up values
  && PrimFloat.eqb (hd nan values) lo
  && forallb (fun r => ordered up lo r
                       && ordered up r (Double.scale 100 0 100 lo hi))
             values.

(** The call sites whose value at 100 is not [outHi]. *)
Definition sites_missing_top : list (float * float) :=
  filter (fun s => negb (PrimFloat.eqb (Double.scale 100 0 100 (fst s) (snd s))
                                        (snd s)))
         call_sites.

(** *** Arguments the host accepts *)

(** A time the host accepts: a finite number that is not negative. *)
Definition nonneg (a : JS.num) : bool :=
  match a with Fin q => Qle_bool 0 q | _ => false end.

(** A value the host accepts: finite as a binary32 number. *)
Definition in_float_range (q : Q) : Prop :=
  - Host.float_limit < q < Host.float_limit.

(** The automation events the host schedules without raising. *)
Definition accepted (e : automation) : bool :=
  match e with
  | SetValueAtTime v t => Host.fits_float v && nonneg t
  | LinearRampToValueAtTime v t => Host.fits_float v && nonneg t
  | ExponentialRampToValueAtTime v t =>
      Host.fits_float v && Host.float_nonzero v && nonneg t
  | SetTargetAtTime v t c =>
      Host.fits_float v && nonneg t && (Host.fits_float c && nonneg c)
  end.

(** A stand-in for [Math.pow] with finite values: the chord of the power
    through the exponents 0 and 1. *)
Definition pow_chord (a b : JS.num) : JS.num :=
  match a, b with
  | Fin x, Fin y => Fin (1 + (x - 1) * y)
  | _, _ => NaN
  end.

(* ================================================================== *)
(** * Properties *)

Local Open Scope Q_scope.

(* ------------------------------------------------------------------ *)
(** ** clamp and scale *)

Lemma Qle_bool_false (x y : Q) : Qle_bool x y = false -> y < x.
Proof.
  intros H. apply Qnot_le_lt. intros L.
  apply Qle_bool_iff in L. congruence.
Qed.

Lemma Qeq_bool_false (x y : Q) : Qeq_bool x y = false -> ~ x == y.
Proof. intros H E. apply Qeq_bool_iff in E. congruence. Qed.

Lemma divisorQ_nonzero (a b : Q) : ~ divisorQ a b == 0.
Proof.
  unfold divisorQ. destruct (Qeq_bool (b + - a) 0) eqn:E.
  - intros H. discriminate.
  - now apply Qeq_bool_false.
Qed.

Lemma clamp_Fin (v lo hi : Q) :
  Mapper.clamp (Fin v) (Fin lo) (Fin hi) = Fin (clampQ v lo hi).
Proof.
  unfold Mapper.clamp, clampQ. cbn.
  destruct (Qle_bool hi v); cbn; destruct (Qle_bool lo _); reflexivity.
Qed.

Lemma divisor_Fin (a b : Q) : Mapper.divisor (Fin a) (Fin b) = Fin (divisorQ a b).
Proof.
  unfold Mapper.divisor, divisorQ, JS.or_else. cbn.
  destruct (Qeq_bool (b + - a) 0); reflexivity.
Qed.

Lemma scale_Fin (v a b lo hi : Q) :
  Mapper.scale (Fin v) (Fin a) (Fin b) (Fin lo) (Fin hi) = Fin (scaleQ v a b lo hi).
Proof.
  unfold Mapper.scale. fold (Mapper.divisor (Fin a) (Fin b)).
  rewrite clamp_Fin, divisor_Fin. unfold scaleQ. cbn.
  destruct (Qeq_bool (divisorQ a b) 0) eqn:E.
  - apply Qeq_bool_iff in E. now apply divisorQ_nonzero in E.
  - reflexivity.
Qed.

Lemma clampQ_cases (v lo hi : Q) :
  (lo <= hi /\ lo <= clampQ v lo hi <= hi /\
     (v <= lo -> clampQ v lo hi == lo) /\ (hi <= v -> clampQ v lo hi == hi) /\
     (lo <= v <= hi -> clampQ v lo hi == v))
  \/ (hi < lo /\ clampQ v lo hi = lo).
Proof.
  unfold clampQ.
  destruct (Qle_bool hi v) eqn:E1; cbn zeta.
  - apply Qle_bool_iff in E1.
    destruct (Qle_bool lo hi) eqn:E2.
    + apply Qle_bool_iff in E2. left. repeat split; try lra.
    + apply Qle_bool_false in E2. right. split; [lra | reflexivity].
  - apply Qle_bool_false in E1.
    destruct (Qle_bool lo v) eqn:E2.
    + apply Qle_bool_iff in E2. left. repeat split; try lra.
    + apply Qle_bool_false in E2.
      destruct (Qlt_le_dec hi lo) as [L | L].
      * right. split; [exact L | reflexivity].
      * left. repeat split; lra.
Qed.

Lemma factorQ_range (v a b : Q) : 0 <= factorQ v a b <= 1.
Proof.
  unfold factorQ, divisorQ.
  destruct (clampQ_cases v a b) as [(Hab & Hc & _) | (Hab & Hc)].
  - destruct (Qeq_bool (b + - a) 0) eqn:E.
    + apply Qeq_bool_iff in E.
      assert (H0 : clampQ v a b + - a == 0) by lra.
      rewrite H0. unfold Qdiv. split; lra.
    + apply Qeq_bool_false in E.
      assert (Hpos : 0 < b + - a) by lra.
      split.
      * apply Qle_shift_div_l; [exact Hpos | lra].
      * apply Qle_shift_div_r; [exact Hpos | lra].
  - rewrite Hc.
    assert (H0 : a + - a == 0) by lra.
    rewrite H0. unfold Qdiv. split; lra.
Qed.

Ltac qcases :=
  repeat match goal with
  | |- context [Qle_bool ?x ?y] =>
      is_var x; is_var y;
      let E := fresh "E" in
      destruct (Qle_bool x y) eqn:E;
      [apply Qle_bool_iff in E | apply Qle_bool_false in E]
  end.

Lemma clampQ_mono (v1 v2 a b : Q) : v1 <= v2 -> clampQ v1 a b <= clampQ v2 a b.
Proof.
  intros H. unfold clampQ. qcases; lra.
Qed.

Lemma factorQ_mono (v1 v2 a b : Q) : v1 <= v2 -> factorQ v1 a b <= factorQ v2 a b.
Proof.
  intros H. unfold factorQ.
  pose proof (clampQ_mono v1 v2 a b H) as Hc.
  destruct (clampQ_cases v1 a b) as [(Hab & _) | (Hab & E1)].
  - unfold divisorQ. destruct (Qeq_bool (b + - a) 0) eqn:E.
    + unfold Qdiv. setoid_replace (/ 1) with 1 by reflexivity. lra.
    + apply Qeq_bool_false in E.
      assert (Hpos : 0 < / (b + - a)) by (apply Qinv_lt_0_compat; lra).
      unfold Qdiv. nra.
  - destruct (clampQ_cases v2 a b) as [(Hab' & _) | (_ & E2)]; [lra |].
    rewrite E1, E2. lra.
Qed.

Lemma scaleQ_between (v a b lo hi : Q) :
  (lo <= hi -> lo <= scaleQ v a b lo hi <= hi) /\
  (hi <= lo -> hi <= scaleQ v a b lo hi <= lo).
Proof.
  unfold scaleQ. fold (factorQ v a b).
  pose proof (factorQ_range v a b) as [H0 H1].
  split; intros H; split; nra.
Qed.

Lemma scaleQ_mono (v1 v2 a b lo hi : Q) :
  v1 <= v2 ->
  (lo <= hi -> scaleQ v1 a b lo hi <= scaleQ v2 a b lo hi) /\
  (hi < lo -> scaleQ v2 a b lo hi <= scaleQ v1 a b lo hi).
Proof.
  intros H. unfold scaleQ. fold (factorQ v1 a b) (factorQ v2 a b).
  pose proof (factorQ_mono v1 v2 a b H).
  split; intros; nra.
Qed.

Lemma scale_NaN (a b lo hi : jsnum) : Mapper.scale NaN a b lo hi = NaN.
Proof.
  unfold Mapper.scale, Mapper.clamp.
  destruct a, b, lo, hi; cbn; try reflexivity.
Qed.

(** C8 as stated fails at NaN: no value of [0, 100] has the mapped value
    of NaN. *)
Lemma scale_NaN_unguarded :
  ~ (forall v : jsnum,
       exists q : Q, 0 <= q <= 100 /\
         Mapper.scale v (Fin 0) (Fin 100) (Fin 1600) (Fin 420)
         = Mapper.scale (Fin q) (Fin 0) (Fin 100) (Fin 1600) (Fin 420)).
Proof.
  intros H. destruct (H NaN) as (q & _ & E).
  rewrite scale_NaN, scale_Fin in E. discriminate.
Qed.

Lemma clamp_nearest (v : jsnum) (q : Q) :
  nearest v = Some q ->
  Mapper.clamp v (Fin 0) (Fin 100) = Fin q /\
  Mapper.clamp (Fin q) (Fin 0) (Fin 100) = Fin q /\ 0 <= q <= 100.
Proof.
  destruct v as [ | | | x]; cbn; intros E; inversion E; subst; clear E.
  - repeat split; try reflexivity; lra.
  - repeat split; try reflexivity; lra.
  - unfold Mapper.clamp, JS.max, JS.min.
    destruct (Qle_bool 100 x) eqn:E1.
    + repeat split; try reflexivity; lra.
    + destruct (Qle_bool 0 x) eqn:E2.
      * rewrite E1, E2.
        apply Qle_bool_iff in E2. apply Qle_bool_false in E1.
        repeat split; try reflexivity; lra.
      * repeat split; try reflexivity; lra.
Qed.

(** C8, amended.  Every parameter value other than NaN, out of range or
    infinite, is clamped: its mapped value is the one of the nearest value
    in [0, 100], whatever the output bounds.  NaN is not guarded: its
    mapped value is NaN.  [scale] is a function with no error result, so
    nothing is raised on the way. *)
Theorem scale_clamps_every_number (v outLo outHi : jsnum) :
  match nearest v with
  | Some q =>
      0 <= q <= 100 /\
      Mapper.scale v (Fin 0) (Fin 100) outLo outHi
      = Mapper.scale (Fin q) (Fin 0) (Fin 100) outLo outHi
  | None =>
      v = NaN /\ Mapper.scale v (Fin 0) (Fin 100) outLo outHi = NaN
  end.
Proof.
  destruct (nearest v) as [q | ] eqn:E.
  - destruct (clamp_nearest v q E) as (E1 & E2 & R).
    split; [exact R |]. unfold Mapper.scale. now rewrite E1, E2.
  - destruct v; try discriminate. split; [reflexivity | apply scale_NaN].
Qed.

(** C9 as stated fails: with [inMin = inMax] the result is NaN, not
    [outLo], for the input NaN, for infinite input bounds, for an infinite
    output bound and, in binary64, for output bounds whose difference
    overflows. *)
#[warnings="-inexact-float"]
Lemma scale_degenerate_NaN :
  Mapper.scale NaN (Fin 5) (Fin 5) (Fin 1) (Fin 2) = NaN
  /\ ~ JS.eqv (Mapper.scale NaN (Fin 5) (Fin 5) (Fin 1) (Fin 2)) (Fin 1)
  /\ Mapper.scale (Fin 7) PInf PInf (Fin 1) (Fin 2) = NaN
  /\ Mapper.scale (Fin 7) (Fin 5) (Fin 5) (Fin 1) PInf = NaN
  /\ PrimFloat.is_nan (Double.scale 7 5 5 (-1e308) 1e308) = true.
Proof.
  split; [reflexivity |]. split; [intros H; exact H |].
  repeat split; vm_compute; reflexivity.
Qed.

Lemma clamp_degenerate (v : jsnum) (a : Q) :
  v <> NaN -> Mapper.clamp v (Fin a) (Fin a) = Fin a.
Proof.
  intros H. destruct v as [ | | | x]; [congruence | | | ]; unfold Mapper.clamp; cbn.
  - now rewrite (proj2 (Qle_bool_iff a a) (Qle_refl a)).
  - reflexivity.
  - destruct (Qle_bool a x) eqn:E; cbn.
    + now rewrite (proj2 (Qle_bool_iff a a) (Qle_refl a)).
    + destruct (Qle_bool a x) eqn:E'; [discriminate | reflexivity].
Qed.

(* ------------------------------------------------------------------ *)
(** ** Running code against a grown context *)

Lemma grown_nil (c : AudioContext) : c = grown c [] [].
Proof. destruct c; unfold grown; cbn. now rewrite !app_nil_r. Qed.

Lemma create_grown (c : AudioContext) ns ws (n : node) :
  create n (grown c ns ws)
  = Ok (List.length (nodes c) + List.length ns)%nat (grown c (ns ++ [n]) ws).
Proof.
  unfold create, grown, with_nodes; cbn.
  now rewrite length_app, <- app_assoc.
Qed.

Lemma connect_grown (c : AudioContext) ns ws a b :
  connect a b (grown c ns ws) = Ok tt (grown c ns (ws ++ [(a, b)])).
Proof.
  unfold connect, grown, with_wires; cbn. now rewrite <- app_assoc.
Qed.

Lemma list_set_app_r {A} (l ns : list A) (k : nat) (x : A) :
  list_set (List.length l + k) x (l ++ ns) = l ++ list_set k x ns.
Proof.
  induction l as [ | h t IH]; cbn; [reflexivity | now rewrite IH].
Qed.

Lemma nth_error_app_r {A} (l ns : list A) (k : nat) :
  nth_error (l ++ ns) (List.length l + k) = nth_error ns k.
Proof.
  induction l as [ | h t IH]; cbn; [reflexivity | exact IH].
Qed.

Lemma node_at_grown (c : AudioContext) ns ws (k : nat) (x : node) :
  nth_error ns k = Some x ->
  node_at (List.length (nodes c) + k) (grown c ns ws) = Ok x (grown c ns ws).
Proof.
  intros H. unfold node_at, grown; cbn. now rewrite nth_error_app_r, H.
Qed.

Lemma modify_grown (c : AudioContext) ns ws (k : nat) (f : node -> node) (x : node) :
  nth_error ns k = Some x ->
  modify (List.length (nodes c) + k) f (grown c ns ws)
  = Ok tt (grown c (list_set k (f x) ns) ws).
Proof.
  intros H. unfold modify, bind. rewrite (node_at_grown _ _ _ _ _ H).
  unfold put_node, grown, with_nodes; cbn. now rewrite list_set_app_r.
Qed.

Lemma set_value_grown c ns ws k p v x :
  nth_error ns k = Some x ->
  set_value (List.length (nodes c) + k) p v (grown c ns ws)
  = Ok tt (grown c
             (list_set k
                (map_param p (fun a => mkParam v (maxValue a) (timeline a)) x)
                ns)
             ws).
Proof. intros H. unfold set_value. now rewrite (modify_grown _ _ _ _ _ _ H). Qed.

Lemma set_type_grown c ns ws k s x :
  nth_error ns k = Some x ->
  set_type (List.length (nodes c) + k) s (grown c ns ws)
  = Ok tt (grown c (list_set k (mkNode (kind x) s (p_gain x) (p_frequency x)
                            (p_detune x) (p_delayTime x) (p_Q x)
                            (started x) (stopped x)) ns) ws).
Proof. intros H. unfold set_type. now rewrite (modify_grown _ _ _ _ _ _ H). Qed.

Lemma read_param_grown c ns ws k p x :
  nth_error ns k = Some x ->
  read_param (List.length (nodes c) + k) p (grown c ns ws)
  = Ok (get_param p x) (grown c ns ws).
Proof. intros H. unfold read_param, bind. now rewrite (node_at_grown _ _ _ _ _ H). Qed.

Lemma schedule_grown c ns ws k p e x :
  nth_error ns k = Some x ->
  schedule (List.length (nodes c) + k) p e (grown c ns ws)
  = Ok tt (grown c
             (list_set k
                (map_param p
                   (fun a => mkParam (value a) (maxValue a) (timeline a ++ [e]))
                   x)
                ns)
             ws).
Proof. intros H. unfold schedule. now rewrite (modify_grown _ _ _ _ _ _ H). Qed.

Lemma start_grown c ns ws k when x :
  nth_error ns k = Some x -> started x = None ->
  WebAudio.start (List.length (nodes c) + k) when (grown c ns ws)
  = Ok tt (grown c (list_set k (mark_started when x) ns) ws).
Proof.
  intros H S. unfold WebAudio.start, bind.
  rewrite (node_at_grown _ _ _ _ _ H), S.
  unfold put_node, grown, with_nodes, mark_started; cbn.
  now rewrite list_set_app_r.
Qed.

Lemma stop_grown c ns ws k when x t0 :
  nth_error ns k = Some x -> started x = Some t0 ->
  WebAudio.stop (List.length (nodes c) + k) when (grown c ns ws)
  = Ok tt (grown c (list_set k (mark_stopped when x) ns) ws).
Proof.
  intros H S. unfold WebAudio.stop, bind.
  rewrite (node_at_grown _ _ _ _ _ H), S.
  unfold put_node, grown, with_nodes, mark_stopped; cbn.
  now rewrite list_set_app_r, S.
Qed.

Lemma now_grown c ns ws : now (grown c ns ws) = Ok (currentTime c) (grown c ns ws).
Proof. reflexivity. Qed.

Ltac exec_step :=
  first
    [ rewrite create_grown
    | rewrite connect_grown
    | rewrite now_grown
    | erewrite set_value_grown by reflexivity
    | erewrite set_type_grown by reflexivity
    | erewrite read_param_grown by reflexivity
    | erewrite schedule_grown by reflexivity
    | erewrite start_grown by reflexivity
    | erewrite stop_grown by reflexivity ].

Ltac exec :=
  repeat (cbv beta iota zeta
              delta [bind ret index Reverb.taps mapM forEach forEach_from
                     nth_error];
          exec_step;
          cbn [List.length app list_set nth_error]).

Lemma createSimpleReverb_grown (c : AudioContext) :
  let n := List.length (nodes c) in
  Reverb.createSimpleReverb (grown c [] [])
  = Ok (Reverb.mk n (n + 1)) (grown c reverb_nodes (reverb_wires n)).
Proof.
  intros n.
  unfold Reverb.createSimpleReverb, createGain, createDelay, createBiquadFilter.
  exec.
  subst n. rewrite !Nat.add_0_r. reflexivity.
Qed.

Lemma createSimpleReverb_spec (c : AudioContext) :
  let n := List.length (nodes c) in
  Reverb.createSimpleReverb c
  = Ok (Reverb.mk n (n + 1)) (grown c reverb_nodes (reverb_wires n)).
Proof.
  pose proof (createSimpleReverb_grown c) as H. now rewrite <- grown_nil in H.
Qed.



(** *** Updating a node in place *)

Lemma nth_error_list_set_same {A} (i : nat) (x y : A) (l : list A) :
  nth_error l i = Some y -> nth_error (list_set i x l) i = Some x.
Proof.
  revert i. induction l as [ | h t IH]; intros [ | i]; cbn; try discriminate; auto.
Qed.

Lemma nth_error_list_set_other {A} (i j : nat) (x : A) (l : list A) :
  i <> j -> nth_error (list_set i x l) j = nth_error l j.
Proof.
  revert i j. induction l as [ | h t IH]; intros [ | i] [ | j] H; cbn; auto.
  congruence.
Qed.

Lemma list_set_twice {A} (i : nat) (x y : A) (l : list A) :
  list_set i x (list_set i y l) = list_set i x l.
Proof.
  revert i. induction l as [ | h t IH]; intros [ | i]; cbn; auto.
  now rewrite IH.
Qed.

Lemma modify_at (c : AudioContext) (i : nat) (f : node -> node) (x : node) :
  nth_error (nodes c) i = Some x ->
  modify i f c = Ok tt (with_nodes (list_set i (f x) (nodes c)) c).
Proof.
  intros H. unfold modify, bind, node_at. now rewrite H.
Qed.

(** Two updates of one node in a row are one update. *)
Lemma modify_again (c : AudioContext) (l : list node) (i : nat)
    (f : node -> node) (x y : node) :
  nth_error l i = Some y ->
  modify i f (with_nodes (list_set i x l) c)
  = Ok tt (with_nodes (list_set i (f x) l) c).
Proof.
  intros H.
  rewrite (modify_at _ i f x) by (cbn; now apply nth_error_list_set_same with y).
  cbn. unfold with_nodes; cbn. now rewrite list_set_twice.
Qed.

Lemma pulse_trigger_spec (c : AudioContext) (p : Pulse.t) (time : jsnum) (o g : node) :
  nth_error (nodes c) (Pulse.osc p) = Some o ->
  nth_error (nodes c) (Pulse.gain p) = Some g ->
  Pulse.osc p <> Pulse.gain p ->
  let t := JS.or_else time (currentTime c) in
  Pulse.trigger p time c
  = Ok tt
      (with_nodes
         (list_set (Pulse.gain p)
            (map_param Gain_
               (retrigger t [SetValueAtTime 0 t;
                             LinearRampToValueAtTime 0.6 (JS.add t 0.01);
                             ExponentialRampToValueAtTime 0.0001 (JS.add t 0.6)]) g)
            (list_set (Pulse.osc p)
               (map_param Frequency
                  (retrigger t [SetValueAtTime 60 t;
                                ExponentialRampToValueAtTime 40 (JS.add t 0.09)]) o)
               (nodes c)))
         c).
Proof.
  intros Ho Hg Hne t.
  unfold Pulse.trigger, cancelScheduledValues, schedule.
  unfold bind at 1. unfold now at 1. fold t.
  unfold bind at 1. rewrite (modify_at _ _ _ _ Ho).
  unfold bind at 1. rewrite (modify_again _ _ _ _ _ _ Ho).
  unfold bind at 1. rewrite (modify_again _ _ _ _ _ _ Ho).
  unfold bind at 1.
  rewrite (modify_at _ (Pulse.gain p) _ g)
    by (cbn; now rewrite nth_error_list_set_other).
  cbn [nodes with_nodes].
  set (O := map_param Frequency _ (map_param Frequency _ (map_param Frequency _ o))).
  assert (Hg' : nth_error (list_set (Pulse.osc p) O (nodes c)) (Pulse.gain p)
                = Some g)
    by now rewrite nth_error_list_set_other.
  unfold bind at 1. rewrite (modify_again _ _ _ _ _ _ Hg').
  unfold bind at 1. rewrite (modify_again _ _ _ _ _ _ Hg').
  rewrite (modify_again _ _ _ _ _ _ Hg').
  subst O. unfold retrigger.
  destruct o, g; cbn. now rewrite <- !app_assoc.
Qed.

(* ------------------------------------------------------------------ *)
(** ** Properties kept by code *)

Section Preserves.
Context {St : Type} (P : St -> Prop).

Lemma preserves_ret {A} (a : A) : preserves P (ret a).
Proof. intros s H. exact H. Qed.

Lemma preserves_throw {A} (e : exn) : preserves P (@throw St A e).
Proof. intros s H. exact H. Qed.

Lemma preserves_get : preserves P (@get St).
Proof. intros s H. exact H. Qed.

Lemma preserves_bind {A B} (m : Eff.M St A) (k : A -> Eff.M St B) :
  preserves P m -> (forall a, preserves P (k a)) -> preserves P (bind m k).
Proof.
  intros Hm Hk s H. unfold bind. specialize (Hm s H).
  destruct (m s) as [a s1 | e s1]; cbn in *; [now apply Hk | exact Hm].
Qed.

Lemma preserves_try_catch (m : Eff.M St unit) :
  preserves P m -> preserves P (try_catch m).
Proof.
  intros Hm s H. unfold try_catch. specialize (Hm s H).
  destruct (m s); exact Hm.
Qed.

Lemma preserves_if {A} (b : bool) (m1 m2 : Eff.M St A) :
  preserves P m1 -> preserves P m2 -> preserves P (if b then m1 else m2).
Proof. now destruct b. Qed.


End Preserves.

Lemma try_catch_returns {St} (m : Eff.M St unit) (s : St) :
  try_catch m s = Ok tt (state_of (m s)).
Proof. unfold try_catch. now destruct (m s). Qed.

(** *** The drone *)

Lemma drone_on_ctx_flag {A} (b : bool) (m : WebAudio.M A) :
  preserves (fun st : Drone.St => Drone.running (fst st) = b) (Drone.on_ctx m).
Proof.
  intros [d c] H. unfold Drone.on_ctx, zoom. cbn in *.
  destruct (m c); exact H.
Qed.

Lemma drone_stop_returns (st : Drone.St) :
  exists st', Drone.stop st = Ok tt st' /\ Drone.running (fst st') = false.
Proof.
  destruct st as [d c]. unfold Drone.stop, bind at 1, get. cbn [fst].
  destruct (Drone.running d) eqn:R; cbn [negb].
  - unfold bind at 1. unfold Drone.assign_running, update.
    rewrite try_catch_returns. eexists. split; [reflexivity |].
    pose (P := fun st : Drone.St => Drone.running (fst st) = false).
    match goal with |- Drone.running (fst (state_of (?m ?s))) = false =>
      assert (Hp : preserves P m)
        by (repeat (apply preserves_bind; [| intros _]);
            apply drone_on_ctx_flag);
      apply (Hp s)
    end.
    reflexivity.
  - exists (d, c). split; [reflexivity | exact R].
Qed.

(** C7.  [start()] on a drone that is running is a no-op.  [stop()] on a
    drone that is not running is a no-op, whatever the state of the
    context (closed included).  [stop()] never throws: from any state it
    returns, leaves the drone not running, and a second [stop()] changes
    nothing.  In particular the drone of a session that was torn down
    (stopped, context closed) takes a further [stop()] as a no-op. *)
Theorem drone_start_stop_idempotent (d : Drone.t) (c : AudioContext) :
  (Drone.running d = true -> Drone.start (d, c) = Ok tt (d, c))
  /\ (Drone.running d = false -> Drone.stop (d, c) = Ok tt (d, c))
  /\ (exists st, Drone.stop (d, c) = Ok tt st
                 /\ Drone.running (fst st) = false
                 /\ Drone.stop st = Ok tt st)
  /\ (forall s : session,
        let s' := wound_down s in
        Drone.running (drone s') = false
        /\ closed (ctx s') = true
        /\ Drone.stop (drone s', ctx s') = Ok tt (drone s', ctx s')).
Proof.
  assert (Stopped : forall d' c', Drone.running d' = false ->
                                  Drone.stop (d', c') = Ok tt (d', c')).
  { intros d' c' R. unfold Drone.stop, bind, get. cbn [fst]. now rewrite R. }
  split; [| split; [| split]].
  - intros R. unfold Drone.start, bind, get. cbn [fst]. now rewrite R.
  - apply Stopped.
  - destruct (drone_stop_returns (d, c)) as (st & E & R).
    exists st. split; [exact E |]. split; [exact R |].
    destruct st as [d' c']. now apply Stopped.
  - intros s s'.
    assert (R : Drone.running (drone s') = false).
    { subst s'. unfold wound_down, on_drone, on_ctx, zoom, close.
      destruct (drone_stop_returns (drone s, ctx s)) as (st & E & R).
      rewrite E. exact R. }
    split; [exact R |]. split; [reflexivity |]. now apply Stopped.
Qed.

(** *** What the callbacks and the second effect leave alone *)

Lemma keeps_refl (w : world) : keeps w w.
Proof. now constructor. Qed.

Lemma keeps_trans (a b c : world) : keeps a b -> keeps b c -> keeps a c.
Proof. intros [] []. constructor; try congruence. auto. Qed.

Lemma Keeps_step {A} (m : Eff.M world A) :
  (forall w, keeps w (state_of (m w))) -> Keeps m.
Proof. intros H w0 w K. eapply keeps_trans; [exact K | apply H]. Qed.

Lemma Keeps_run {A} (m : Eff.M world A) (w : world) :
  Keeps m -> keeps w (state_of (m w)).
Proof. intros H. apply (H w w), keeps_refl. Qed.

Lemma Keeps_log (e : event) : Keeps (update (log e)).
Proof. apply Keeps_step. intros w. now constructor. Qed.

Lemma Keeps_random : Keeps random.
Proof. apply Keeps_step. intros w. now constructor. Qed.

Lemma Keeps_on_session {A} (m : Eff.M session A) : Keeps (on_session m).
Proof.
  apply Keeps_step. intros w. unfold on_session.
  destruct (live w) as [s | ] eqn:E; [| apply keeps_refl].
  destruct (m s); constructor; cbn; congruence.
Qed.

Ltac keeps_tac :=
  intros ?w0;
  repeat first
    [ apply preserves_bind; [| intros ? ]
    | apply preserves_if
    | apply preserves_try_catch
    | apply preserves_ret
    | apply preserves_throw
    | apply preserves_get
    | apply Keeps_log
    | apply Keeps_random
    | apply Keeps_on_session ].

Lemma Keeps_fire pow (cb : callback) : Keeps (fire pow cb).
Proof. unfold fire. destruct cb; keeps_tac. Qed.

Lemma Keeps_effect2 pow (p : Props) : Keeps (effect2 pow p).
Proof. unfold effect2. keeps_tac. Qed.

Lemma keeps_sync (w : world) : keeps w (sync w).
Proof.
  unfold sync. destruct (live w) as [s | ] eqn:E; [| apply keeps_refl].
  destruct (closed (ctx s)); [apply keeps_refl |].
  constructor; cbn; congruence.
Qed.

Lemma keeps_set_clock (x : Q) (w : world) : keeps w (set_clock x w).
Proof. now constructor. Qed.

(** *** The invariant of the component *)

Lemma Inv_keeps (w w' : world) : keeps w w' -> Inv w -> Inv w'.
Proof.
  intros [] [Hd Hs]. unfold Inv.
  rewrite keeps_deps0, keeps_cleanup0. split; [exact Hd |].
  destruct (cleanup w).
  - destruct Hs. constructor; try congruence. auto.
  - destruct Hs. split; congruence.
Qed.

Lemma Inv_reschedule (h : nat) (w : world) : Inv w -> Inv (reschedule h w).
Proof.
  intros [Hd Hs]. unfold Inv, reschedule; cbn. split; [exact Hd |].
  destruct (cleanup w).
  - destruct Hs as [L R N C V]. constructor; cbn; try assumption.
    + rewrite <- L, map_map. apply map_ext. intros t.
      destruct (Nat.eqb (handle t) h); reflexivity.
    + rewrite R, map_map. apply map_ext. intros t.
      destruct (Nat.eqb (handle t) h) eqn:E; [| reflexivity].
      cbn. now apply Nat.eqb_eq.
  - destruct Hs as [T N]. rewrite T. now split.
Qed.

Lemma Inv_tick pow (T : Q) (w w' : world) :
  tick pow T w = Some w' -> Inv w -> Inv w'.
Proof.
  unfold tick. destruct (earliest (timers w)) as [t | ]; [| discriminate].
  destruct (Qle_bool (due t) T); [| discriminate].
  intros E I. inversion E; subst; clear E.
  apply Inv_reschedule.
  eapply Inv_keeps; [apply Keeps_run, Keeps_fire |].
  eapply Inv_keeps; [apply keeps_sync |].
  eapply Inv_keeps; [apply keeps_set_clock | exact I].
Qed.

Lemma Inv_run pow (n : nat) (T : Q) (w : world) : Inv w -> Inv (run pow n T w).
Proof.
  revert w. induction n as [ | n IH]; intros w I; cbn; [exact I |].
  destruct (tick pow T w) as [w' | ] eqn:E.
  - apply IH. eapply Inv_tick; eassumption.
  - eapply Inv_keeps; [apply keeps_sync |].
    eapply Inv_keeps; [apply keeps_set_clock | exact I].
Qed.

Lemma forEach_clear (hs : list nat) (i : nat) (w : world) :
  forEach_from i (fun t _ => clearInterval t) hs w = Ok tt (cleared hs w).
Proof.
  revert i w. induction hs as [ | h rest IH]; intros i w; cbn; [reflexivity |].
  unfold bind. cbn. apply IH.
Qed.

Lemma cleared_timers (hs : list nat) (w : world) :
  (forall t, List.In t (timers w) -> List.In (handle t) hs) ->
  timers (cleared hs w) = [].
Proof.
  revert w. induction hs as [ | h rest IH]; intros w H; cbn.
  - destruct (timers w) as [ | t ts]; [reflexivity |].
    destruct (H t (or_introl eq_refl)).
  - apply IH. cbn. intros t Ht. apply filter_In in Ht. destruct Ht as [Ht Hn].
    destruct (H t Ht) as [E | E]; [| exact E].
    subst h. rewrite Nat.eqb_refl in Hn. discriminate.
Qed.

Lemma cleared_trace (hs : list nat) (w : world) :
  trace (cleared hs w) = trace w ++ map ClearInterval hs.
Proof.
  revert w. induction hs as [ | h rest IH]; intros w; cbn.
  - now rewrite app_nil_r.
  - rewrite IH. cbn. now rewrite <- app_assoc.
Qed.

Lemma cleared_rest (hs : list nat) (w : world) :
  live (cleared hs w) = live w /\ deps (cleared hs w) = deps w
  /\ cleanup (cleared hs w) = cleanup w /\ clock (cleared hs w) = clock w.
Proof.
  revert w. induction hs as [ | h rest IH]; intros w; cbn; [tauto |].
  destruct (IH (state_of (clearInterval h w))) as (A & B & C & D).
  cbn in *. tauto.
Qed.

Lemma teardown_spec (w : world) (s : session) :
  live w = Some s -> teardown w = Ok tt (torn_down w).
Proof.
  intros L. unfold torn_down. rewrite L.
  unfold teardown. unfold bind at 1. unfold get.
  unfold bind at 1. unfold forEach. rewrite forEach_clear.
  unfold bind at 1. unfold update at 1.
  unfold bind at 1. rewrite try_catch_returns.
  unfold bind at 1. rewrite try_catch_returns.
  destruct (cleared_rest (timersRef w) w) as (Lc & _).
  unfold on_session at 2. cbn [live set_timersRef]. rewrite Lc, L.
  unfold on_drone at 1, zoom.
  destruct (drone_stop_returns (drone s, ctx s)) as (st & E & _).
  rewrite E. cbn [state_of].
  unfold bind at 2. unfold on_session at 1. cbn [live set_live].
  unfold on_ctx at 1, zoom, close. cbn [state_of].
  unfold bind, update. cbn [state_of].
  unfold wound_down, on_drone, on_ctx, zoom, close. rewrite E. cbn.
  reflexivity.
Qed.


Lemma start_session_runs pow (p : Props) (w : world) :
  exists s c,
    start_session pow p (w, new_context (rate w))
    = Ok s (with_intervals p w, c)
    /\ ctx s = c
    /\ closed c = false
    /\ Drone.running (drone s) = true
    /\ drone_levels s = Some (param 0.14, param 400).
Proof.
  destruct w, p. do 2 eexists. split.
  - cbv -[Mapper.scale period Qplus JS.div Qmult]. reflexivity.
  - cbv -[Mapper.scale period Qplus JS.div Qmult]. repeat split; reflexivity.
Qed.

(* ------------------------------------------------------------------ *)
(** ** Rendering *)

Section Rendering.
Variable pow : JS.num -> JS.num -> JS.num.

Lemma Keeps_after_effects p old : Keeps (after_effects pow p old).
Proof.
  unfold after_effects. intros w0.
  apply preserves_if; [apply Keeps_effect2 | apply preserves_ret].
Qed.

Lemma changed1_Inv (w : world) (p : Props) :
  Inv w -> changed1 (deps w) p = negb (Bool.eqb (cleanup w) (isRunning p))
           \/ (deps w = None /\ cleanup w = false).
Proof.
  intros [Hd _]. destruct (deps w) as [q | ]; [left | right; now split].
  cbn. now rewrite Hd.
Qed.

(** A render that neither starts nor stops a session. *)
Lemma render_same (w : world) (p : Props) :
  Inv w -> isRunning p = cleanup w ->
  render pow p w = after_effects pow p (deps w) (set_deps (Some p) w).
Proof.
  intros I E. unfold render, after_effects.
  unfold bind at 1. unfold get. unfold bind at 1. unfold update at 1.
  destruct (changed1_Inv w p I) as [C | [D F]].
  - rewrite C, E, Bool.eqb_reflx. cbn [negb andb].
    unfold bind at 1, ret at 1. unfold bind at 1, ret at 1. reflexivity.
  - rewrite D, F in *. cbn [changed1 andb].
    unfold bind at 1, ret at 1. unfold bind at 1.
    unfold effect1. rewrite E. cbn [negb]. reflexivity.
Qed.

Lemma render_stop (w : world) (p : Props) :
  Inv w -> cleanup w = true -> isRunning p = false ->
  render pow p w = Ok tt (stopped_world p w).
Proof.
  intros I C R. unfold render.
  unfold bind at 1. unfold get. unfold bind at 1. unfold update at 1.
  destruct (changed1_Inv w p I) as [E | [_ F]]; [| congruence].
  rewrite E, C, R. cbn [Bool.eqb negb andb].
  destruct I as [_ Hs]. rewrite C in Hs. destruct Hs as [_ _ _ _ Hl].
  destruct (live w) as [s | ] eqn:L; [| congruence].
  unfold bind at 1. unfold bind at 1.
  rewrite (teardown_spec (set_deps (Some p) w) s) by exact L.
  unfold update at 1. unfold bind at 1. unfold effect1 at 1. rewrite R.
  cbn [negb]. fold (stopped_world p w).
  assert (N : nodesRef (stopped_world p w) = false).
  { unfold stopped_world, torn_down. cbn [live set_deps]. now rewrite L. }
  destruct (changed2 (deps w) p); [| reflexivity].
  unfold effect2, bind, get. now rewrite N.
Qed.

Lemma render_start (w : world) (p : Props) :
  Inv w -> cleanup w = false -> isRunning p = true ->
  exists s,
    render pow p w = after_effects pow p (deps w) (started_world p s w)
    /\ closed (ctx s) = false
    /\ Drone.running (drone s) = true
    /\ drone_levels s = Some (param 0.14, param 400).
Proof.
  intros I C R.
  destruct (start_session_runs pow p (set_deps (Some p) w))
    as (s & c & E & Ec & Hc & Hr & Hl).
  exists s. split; [| rewrite Ec; repeat split; assumption].
  unfold render, after_effects.
  unfold bind at 1. unfold get. unfold bind at 1. unfold update at 1.
  assert (B : changed1 (deps w) p = true).
  { destruct (changed1_Inv w p I) as [X | [D _]].
    - now rewrite X, C, R.
    - now rewrite D. }
  rewrite B, C. cbn [andb].
  unfold bind at 1, ret at 1. unfold bind at 1.
  unfold effect1. rewrite R. cbn [negb]. rewrite E. reflexivity.
Qed.

Lemma Inv_started (w : world) (p : Props) (s : session) :
  Inv w -> cleanup w = false -> isRunning p = true ->
  Inv (started_world p s w).
Proof.
  intros [_ Hs] C R. rewrite C in Hs. destruct Hs as [T _].
  unfold Inv, started_world, with_intervals. cbn. split; [exact R |].
  rewrite T. constructor; cbn; try reflexivity. discriminate.
Qed.

Lemma Inv_stopped (w : world) (p : Props) :
  Inv w -> cleanup w = true -> isRunning p = false ->
  Inv (stopped_world p w)
  /\ timers (stopped_world p w) = []
  /\ trace (stopped_world p w)
     = trace w ++ map ClearInterval (timersRef w) ++ [ContextClose].
Proof.
  intros [_ Hs] C R. rewrite C in Hs. destruct Hs as [_ Hr _ _ Hl].
  destruct (live w) as [s | ] eqn:L; [| congruence].
  assert (T : timers (stopped_world p w) = []).
  { unfold stopped_world, torn_down. cbn [live set_deps]. rewrite L. cbn.
    apply cleared_timers. cbn. intros t Ht. rewrite Hr. now apply in_map. }
  split; [| split].
  - unfold Inv. rewrite T.
    unfold stopped_world, torn_down. cbn [live set_deps]. rewrite L. cbn.
    destruct (cleared_rest (timersRef w) (set_deps (Some p) w)) as (_ & D & _).
    rewrite D. cbn. auto.
  - exact T.
  - unfold stopped_world, torn_down. cbn [live set_deps]. rewrite L. cbn.
    rewrite cleared_trace. cbn. now rewrite <- app_assoc.
Qed.

Lemma Inv_render (w w' : world) (p : Props) :
  Inv w -> render pow p w = Ok tt w' -> Inv w'.
Proof.
  intros I E.
  destruct (Bool.bool_dec (isRunning p) (cleanup w)) as [S | S].
  - rewrite (render_same w p I S) in E.
    assert (K : keeps (set_deps (Some p) w) w').
    { replace w' with (state_of (after_effects pow p (deps w) (set_deps (Some p) w)))
        by now rewrite E.
      apply Keeps_run, Keeps_after_effects. }
    eapply Inv_keeps; [exact K |].
    destruct I as [_ Hs]. unfold Inv. cbn. split; [exact S |].
    destruct (cleanup w); [| exact Hs].
    destruct Hs. now constructor.
  - destruct (cleanup w) eqn:C.
    + assert (R : isRunning p = false) by (destruct (isRunning p); congruence).
      rewrite (render_stop w p I C R) in E. inversion E; subst.
      now apply Inv_stopped.
    + assert (R : isRunning p = true) by (destruct (isRunning p); congruence).
      destruct (render_start w p I C R) as (s & E' & _).
      rewrite E' in E.
      assert (K : keeps (started_world p s w) w').
      { replace w' with (state_of (after_effects pow p (deps w) (started_world p s w)))
          by now rewrite E.
        apply Keeps_run, Keeps_after_effects. }
      eapply Inv_keeps; [exact K | now apply Inv_started].
Qed.

Lemma Inv_step (i : input) (w w' : world) :
  Inv w -> step pow i w = Some w' -> Inv w'.
Proof.
  intros I. destruct i as [p | n T]; unfold step.
  - destruct (render pow p w) as [[] w1 | ] eqn:E; [| discriminate].
    intros H. inversion H; subst. eapply Inv_render; eassumption.
  - intros H. inversion H; subst. now apply Inv_run.
Qed.

Lemma Inv_steps (l : list input) (w w' : world) :
  Inv w -> steps pow l w = Some w' -> Inv w'.
Proof.
  revert w. induction l as [ | i l IH]; intros w I; cbn.
  - intros H. now inversion H; subst.
  - destruct (step pow i w) as [w1 | ] eqn:E; [| discriminate].
    apply IH. eapply Inv_step; eassumption.
Qed.

Lemma Inv_init (e : nat -> Q) (r : Q) : Inv (init e r).
Proof. unfold Inv. cbn. auto. Qed.

Lemma Inv_reachable (w : world) : reachable pow w -> Inv w.
Proof.
  intros (e & r & p & l & H). eapply Inv_steps; [apply Inv_init | exact H].
Qed.

End Rendering.

(* ------------------------------------------------------------------ *)
(** ** Stopping a session *)

Section Stopping.
Variable pow : JS.num -> JS.num -> JS.num.

Lemma effect2_idle (p : Props) (w : world) :
  nodesRef w = false -> effect2 pow p w = Ok tt w.
Proof. intros N. unfold effect2, bind, get. now rewrite N. Qed.

Lemma after_effects_idle (p : Props) (old : option Props) (w : world) :
  nodesRef w = false -> after_effects pow p old w = Ok tt w.
Proof.
  intros N. unfold after_effects.
  destruct (changed2 old p); [now apply effect2_idle | reflexivity].
Qed.

Lemma run_idle (n : nat) (T : Q) (w : world) :
  timers w = [] ->
  timers (run pow n T w) = [] /\ trace (run pow n T w) = trace w.
Proof.
  intros E. destruct n as [ | n]; cbn; [now split |].
  unfold tick. rewrite E. cbn.
  unfold sync. cbn. destruct (live w) as [s | ]; [| now split].
  destruct (closed (ctx s)); now split.
Qed.

(** Once stopped, the component stays silent until it is started again. *)
Lemma stopped_stays_silent (l : list input) (w w' : world) :
  Inv w -> cleanup w = false ->
  Forall stays_stopped l -> steps pow l w = Some w' ->
  timers w' = [] /\ trace w' = trace w.
Proof.
  revert w. induction l as [ | i l IH]; intros w I C F H.
  - cbn in H. inversion H; subst. destruct I as [_ Hs]. rewrite C in Hs.
    now destruct Hs.
  - inversion F as [ | ? ? Fi Fl]; subst. cbn [steps] in H.
    destruct (step pow i w) as [w1 | ] eqn:E; [| discriminate].
    assert (I1 : Inv w1) by (eapply Inv_step; eassumption).
    assert (K : cleanup w1 = false /\ trace w1 = trace w).
    { destruct i as [q | n T]; unfold step in E; cbn in Fi.
      - rewrite (render_same pow w q I) in E by congruence.
        destruct I as [_ Hs]. rewrite C in Hs. destruct Hs as [_ N].
        rewrite after_effects_idle in E by exact N.
        inversion E; subst. now split.
      - inversion E; subst. destruct I as [_ Hs]. rewrite C in Hs.
        destruct Hs as [T0 _]. split.
        + assert (Kp : keeps w (run pow n T w)).
          { clear - T0. destruct n as [ | n]; cbn; [apply keeps_refl |].
            unfold tick. rewrite T0. cbn.
            eapply keeps_trans; [apply keeps_set_clock | apply keeps_sync]. }
          destruct Kp. congruence.
        + now apply run_idle. }
    destruct K as [C1 T1].
    destruct (IH w1 I1 C1 Fl H) as [A B]. split; [exact A | congruence].
Qed.

(** C1.  When a running session is stopped, the render returns, the
    three intervals (pulse, texture, pluck) are gone from the timer table,
    and the trace grows by exactly the three [clearInterval] calls
    followed by the closing of the context.  From then on, whatever time
    passes and whatever props arrive, no interval exists and no trigger
    call is made, until a session is started again. *)
Theorem teardown_cancels_timers (w : world) (p : Props) :
  reachable pow w -> cleanup w = true -> isRunning p = false ->
  exists w' t1 t2 t3,
    render pow p w = Ok tt w'
    /\ timers w = [t1; t2; t3]
    /\ layer_of (action t1) = PulseLayer
    /\ layer_of (action t2) = TextureLayer
    /\ layer_of (action t3) = PluckLayer
    /\ timers w' = []
    /\ trace w'
       = trace w ++ [ClearInterval (handle t1); ClearInterval (handle t2);
                     ClearInterval (handle t3); ContextClose]
    /\ forall l w'',
         Forall stays_stopped l -> steps pow l w' = Some w'' ->
         timers w'' = [] /\ triggers w'' = triggers w'.
Proof.
  intros Hr C R. pose proof (Inv_reachable pow w Hr) as I.
  destruct (Inv_stopped w p I C R) as (I' & T & Tr).
  pose proof I as [_ Hs]. rewrite C in Hs. destruct Hs as [Ly Rf _ _ _].
  destruct (timers w) as [ | t1 [ | t2 [ | t3 [ | ? ?]]]]; try discriminate.
  cbn in Ly, Rf. inversion Ly.
  exists (stopped_world p w), t1, t2, t3.
  split; [now apply render_stop |].
  repeat split; try assumption.
  - rewrite Tr, Rf. reflexivity.
  - eapply stopped_stays_silent; eauto.
  - unfold triggers. f_equal. eapply stopped_stays_silent; eauto.
Qed.

End Stopping.

(* ------------------------------------------------------------------ *)
(** ** A running session *)

Section Running.
Variable pow : JS.num -> JS.num -> JS.num.

Lemma schedule_of_keeps (w w' : world) :
  keeps w w' -> schedule_of w' = schedule_of w.
Proof. intros []. unfold schedule_of. congruence. Qed.

Lemma schedule_of_reschedule (h : nat) (w : world) :
  schedule_of (reschedule h w) = schedule_of w.
Proof.
  unfold schedule_of, reschedule. cbn. rewrite map_map. apply map_ext.
  intros t. destruct (Nat.eqb (handle t) h) eqn:E; [| reflexivity].
  cbn. apply Nat.eqb_eq in E. now rewrite E.
Qed.

Lemma schedule_of_tick (T : Q) (w w' : world) :
  tick pow T w = Some w' -> schedule_of w' = schedule_of w.
Proof.
  unfold tick. destruct (earliest (timers w)) as [t | ]; [| discriminate].
  destruct (Qle_bool (due t) T); [| discriminate].
  intros E. inversion E; subst; clear E.
  rewrite schedule_of_reschedule.
  rewrite (schedule_of_keeps _ _ (Keeps_run _ _ (Keeps_fire pow (action t)))).
  rewrite (schedule_of_keeps _ _ (keeps_sync _)).
  apply schedule_of_keeps, keeps_set_clock.
Qed.

Lemma schedule_of_run (n : nat) (T : Q) (w : world) :
  schedule_of (run pow n T w) = schedule_of w.
Proof.
  revert w. induction n as [ | n IH]; intros w; cbn; [reflexivity |].
  destruct (tick pow T w) as [w' | ] eqn:E.
  - rewrite IH. eapply schedule_of_tick; eassumption.
  - rewrite (schedule_of_keeps _ _ (keeps_sync _)).
    apply schedule_of_keeps, keeps_set_clock.
Qed.

Lemma cleanup_run (n : nat) (T : Q) (w : world) :
  cleanup (run pow n T w) = cleanup w.
Proof.
  revert w. induction n as [ | n IH]; intros w; cbn; [reflexivity |].
  destruct (tick pow T w) as [w' | ] eqn:E.
  - rewrite IH. unfold tick in E.
    destruct (earliest (timers w)) as [t | ]; [| discriminate].
    destruct (Qle_bool (due t) T); [| discriminate].
    inversion E; subst; clear E. unfold reschedule. cbn [cleanup set_timers].
    rewrite (keeps_cleanup _ _ (Keeps_run _ _ (Keeps_fire pow (action t)))).
    rewrite (keeps_cleanup _ _ (keeps_sync _)). reflexivity.
  - now rewrite (keeps_cleanup _ _ (keeps_sync _)).
Qed.

(** A render during a running session leaves the timer table alone. *)
Lemma render_running_timers (w w' : world) (q : Props) :
  Inv w -> cleanup w = true -> isRunning q = true ->
  render pow q w = Ok tt w' ->
  timers w' = timers w /\ cleanup w' = true.
Proof.
  intros I C R E. rewrite (render_same pow w q I) in E by congruence.
  assert (K : keeps (set_deps (Some q) w) w').
  { replace w' with (state_of (after_effects pow q (deps w) (set_deps (Some q) w)))
      by now rewrite E.
    apply Keeps_run, Keeps_after_effects. }
  destruct K. cbn in *. split; congruence.
Qed.

Lemma session_schedule (l : list input) (w w' : world) :
  Inv w -> cleanup w = true ->
  Forall stays_running l -> steps pow l w = Some w' ->
  Inv w' /\ cleanup w' = true /\ schedule_of w' = schedule_of w.
Proof.
  revert w. induction l as [ | i l IH]; intros w I C F H.
  - cbn in H. inversion H; subst. auto.
  - inversion F as [ | ? ? Fi Fl]; subst. cbn [steps] in H.
    destruct (step pow i w) as [w1 | ] eqn:E; [| discriminate].
    assert (I1 : Inv w1) by (eapply Inv_step; eassumption).
    assert (K : cleanup w1 = true /\ schedule_of w1 = schedule_of w).
    { destruct i as [q | n T]; unfold step in E; cbn in Fi.
      - destruct (render pow q w) as [[] w2 | ] eqn:E2; [| discriminate].
        inversion E; subst.
        destruct (render_running_timers w w1 q I C Fi E2) as [A B].
        split; [exact B |]. unfold schedule_of. now rewrite A.
      - inversion E; subst. split.
        + now rewrite cleanup_run.
        + apply schedule_of_run. }
    destruct K as [C1 S1].
    destruct (IH w1 I1 C1 Fl H) as (A & B & D).
    split; [exact A |]. split; [exact B | congruence].
Qed.

(** C6, amended.  While a session runs, a change of the props (the pulse
    value included) leaves the timer table as it is: the pending pulse
    timer is not rescheduled, and the pulse interval keeps the delay
    computed from the pulse value the session was started with, for as
    long as the session runs. *)
Theorem pulse_interval_fixed_for_session
    (w0 w1 w2 : world) (p0 : Props) (l : list input) :
  reachable pow w0 -> cleanup w0 = false -> isRunning p0 = true ->
  render pow p0 w0 = Ok tt w1 ->
  Forall stays_running l -> steps pow l w1 = Some w2 ->
  (exists t rest,
      timers w2 = t :: rest /\ action t = PulseTick
      /\ delay t = Mapper.scale (pulse p0) 0 100 1600 420)
  /\ (forall q w3,
        isRunning q = true -> render pow q w2 = Ok tt w3 ->
        timers w3 = timers w2).
Proof.
  intros Hr C R E F H. pose proof (Inv_reachable pow w0 Hr) as I.
  destruct (render_start pow w0 p0 I C R) as (s & E' & _).
  rewrite E' in E.
  assert (K : keeps (started_world p0 s w0) w1).
  { replace w1 with (state_of (after_effects pow p0 (deps w0) (started_world p0 s w0)))
      by now rewrite E.
    apply Keeps_run, Keeps_after_effects. }
  pose proof (Inv_started w0 p0 s I C R) as Is.
  pose proof (Inv_keeps _ _ K Is) as I1.
  assert (C1 : cleanup w1 = true) by (destruct K; cbn in *; congruence).
  destruct (session_schedule l w1 w2 I1 C1 F H) as (I2 & C2 & S2).
  split.
  - rewrite (schedule_of_keeps _ _ K) in S2.
    destruct I as [_ Hs]. rewrite C in Hs. destruct Hs as [T0 _].
    unfold schedule_of, started_world, with_intervals in S2. cbn in S2.
    rewrite T0 in S2. cbn in S2.
    destruct (timers w2) as [ | t rest]; [discriminate |].
    cbn in S2. inversion S2 as [[Hh Ha Hd Hrest]].
    exists t, rest. auto.
  - intros q w3 Rq Eq.
    now destruct (render_running_timers w2 w3 q I2 C2 Rq Eq).
Qed.

End Running.

(* ------------------------------------------------------------------ *)
(** ** The layers *)

(** C4.  In any context, [createSimpleReverb] adds eleven nodes and
    seventeen wires: an input and an output gain, four delay lines of 11,
    17, 19 and 29 ms, each with a capacity of 250 ms, four feedback gains
    of 0.35 and one low-pass filter at 4500 Hz.  The input feeds the four
    delay lines; each delay line feeds the filter and its own feedback
    gain; the filter feeds the output.  A delay line is fed by the input
    and by its own feedback gain only, and a feedback gain feeds its own
    delay line only. *)
Theorem reverb_network (c : AudioContext) :
  let n := List.length (nodes c) in
  Reverb.createSimpleReverb c
  = Ok (Reverb.mk n (n + 1)) (grown c reverb_nodes (reverb_wires n))
  /\ map (fun d => value (p_delayTime d)) (filter is_delay reverb_nodes)
     = [Fin 0.011; Fin 0.017; Fin 0.019; Fin 0.029]
  /\ Forall (fun d => maxValue (p_delayTime d) = Fin 0.25)
            (filter is_delay reverb_nodes)
  /\ (forall a b : nat,
        List.In (a, In b) (reverb_wires n) ->
        (n + 2 <= b <= n + 5)%nat -> a = n \/ a = (b + 4)%nat)
  /\ (forall (a : nat) (b : port),
        List.In (a, b) (reverb_wires n) ->
        (n + 6 <= a <= n + 9)%nat -> b = In (a - 4)).
Proof.
  intros n. split; [apply createSimpleReverb_spec |].
  split; [reflexivity |].
  split; [repeat constructor |].
  split.
  - intros a b H Hb. cbn in H.
    repeat (destruct H as [H | H]; [inversion H; subst; lia |]).
    destruct H.
  - intros a b H Ha. cbn in H.
    repeat (destruct H as [H | H];
            [inversion H; subst; try lia; f_equal; lia |]).
    destruct H.
Qed.

(** The theorem at a new context: the input is node 1, the first delay
    line node 3 and its feedback gain node 7. *)
Lemma reverb_network_witness :
  Reverb.createSimpleReverb (new_context 44100)
  = Ok (Reverb.mk 1 2)
       (grown (new_context 44100) reverb_nodes (reverb_wires 1))
  /\ List.In (7%nat, In 3) (reverb_wires 1)
  /\ (7 = 1 \/ 7 = 3 + 4)%nat
  /\ In 3 = In (7 - 4).
Proof.
  destruct (reverb_network (new_context 44100)) as (E & _ & _ & Hin & Hout).
  assert (W : List.In (7%nat, In 3) (reverb_wires 1)) by (cbn; tauto).
  split; [exact E |]. split; [exact W |]. split.
  - apply (Hin 7%nat 3%nat W). cbn. lia.
  - apply (Hout 7%nat (In 3) W). cbn. lia.
Defined.

(** C5 as stated fails: a trigger for time 3 followed by a trigger for
    time 5 leaves the automation of the first one scheduled, next to that
    of the second. *)
Lemma pulse_trigger_keeps_earlier_events :
  exists p c,
    pulse_demo 3 5 (new_context 44100) = Ok p c
    /\ frequency_timeline p c
       = [SetValueAtTime 60 3;
          ExponentialRampToValueAtTime 40 (JS.add 3 0.09);
          SetValueAtTime 60 5;
          ExponentialRampToValueAtTime 40 (JS.add 5 0.09)]
    /\ frequency_timeline p c
       <> [SetValueAtTime 60 5;
           ExponentialRampToValueAtTime 40 (JS.add 5 0.09)].
Proof.
  do 2 eexists. split; [vm_compute; reflexivity |].
  split; [vm_compute; reflexivity | vm_compute; discriminate].
Qed.

(** The theorem at a new drone, before and after [start()]. *)
Lemma drone_start_stop_idempotent_witness :
  Drone.running (fst demo_drone_started) = true
  /\ Drone.start demo_drone_started = Ok tt demo_drone_started
  /\ Drone.running (fst demo_drone_made) = false
  /\ Drone.stop demo_drone_made = Ok tt demo_drone_made.
Proof.
  assert (R1 : Drone.running (fst demo_drone_started) = true) by reflexivity.
  assert (R0 : Drone.running (fst demo_drone_made) = false) by reflexivity.
  split; [exact R1 |]. split.
  - pose proof (drone_start_stop_idempotent (fst demo_drone_started)
                  (snd demo_drone_started)) as [H _].
    rewrite <- surjective_pairing in H. exact (H R1).
  - split; [exact R0 |].
    pose proof (drone_start_stop_idempotent (fst demo_drone_made)
                  (snd demo_drone_made)) as (_ & H & _).
    rewrite <- surjective_pairing in H. exact (H R0).
Defined.

(* ------------------------------------------------------------------ *)
(** ** The component at work *)

Lemma eqvb_refl (a : jsnum) : JS.eqvb a a = true.
Proof. destruct a; cbn; try reflexivity. apply Qeq_bool_iff. reflexivity. Qed.

Lemma changed2_same (b1 b2 : bool) (t pl1 pl2 rv v : jsnum) :
  changed2 (Some (mkProps b1 t pl1 rv v)) (mkProps b2 t pl2 rv v) = false.
Proof. cbn. now rewrite !eqvb_refl. Qed.

(** Mounted stopped, then started with the same four values: the drone
    is running with the levels [createDrone] wrote. *)
Lemma drone_levels_after_start
    (pow : JS.num -> JS.num -> JS.num) (e : nat -> Q) (r : Q)
    (t pl rv v : JS.num) :
  exists w s,
    steps pow [Render (mkProps false t pl rv v);
               Render (mkProps true t pl rv v)] (init e r) = Some w
    /\ live w = Some s
    /\ Drone.running (drone s) = true
    /\ drone_levels s = Some (param 0.14, param 400).
Proof.
  set (off := mkProps false t pl rv v). set (on := mkProps true t pl rv v).
  assert (E1 : render pow off (init e r)
               = Ok tt (set_deps (Some off) (init e r))).
  { rewrite (render_same pow _ off (Inv_init e r)) by reflexivity.
    now apply after_effects_idle. }
  assert (I1 : Inv (set_deps (Some off) (init e r))).
  { eapply Inv_render; [apply Inv_init | exact E1]. }
  destruct (render_start pow _ on I1 eq_refl eq_refl) as (s & E2 & _ & Hr & Hl).
  unfold after_effects in E2. cbn [deps set_deps] in E2.
  assert (X : changed2 (Some off) on = false) by apply changed2_same.
  rewrite X in E2.
  eexists. exists s. split.
  - cbn [steps step]. rewrite E1, E2. reflexivity.
  - now repeat split.
Qed.

(** C3.  The page mounts the component stopped, with tension 70, and
    then starts it: the drone runs with a gain of 0.14 and a cutoff of
    400 Hz and no automation scheduled on either, where
    [scale(70, 0, 100, 0.1, 0.2)] is 0.17 and
    [scale(70, 0, 100, 260, 1800)] is 1338. *)
Theorem drone_start_ignores_tension
    (pow : JS.num -> JS.num -> JS.num) (e : nat -> Q) (r : Q) :
  exists w s,
    steps pow [Render (page false); Render (page true)] (init e r) = Some w
    /\ live w = Some s
    /\ Drone.running (drone s) = true
    /\ drone_levels s = Some (param 0.14, param 400)
    /\ JS.eqv (Mapper.scale (tension (page true)) 0 100 0.1 0.2) 0.17
    /\ JS.eqv (Mapper.scale (tension (page true)) 0 100 260 1800) 1338.
Proof.
  destruct (drone_levels_after_start pow e r 70 60 65 75) as (w & s & H).
  exists w, s. destruct H as (A & B & C & D).
  repeat split; try assumption; vm_compute; reflexivity.
Qed.

Lemma reachable_after (l : list input) (p : Props) :
  steps pow01 (Render p :: l) demo_host <> None ->
  reachable pow01 (after (Render p :: l)).
Proof.
  intros H. exists (fun _ => 0.3), 44100, p, l.
  unfold after. fold demo_host.
  destruct (steps pow01 (Render p :: l) demo_host); [reflexivity | congruence].
Qed.

(** The theorem at the page, started and stopped after five seconds. *)
Lemma teardown_cancels_timers_witness :
  let w := after [Render (page false); Render (page true); Elapse 20 5000] in
  cleanup w = true
  /\ exists w' t1 t2 t3,
       render pow01 (page false) w = Ok tt w'
       /\ timers w = [t1; t2; t3]
       /\ timers w' = []
       /\ trace w'
          = trace w ++ [ClearInterval (handle t1); ClearInterval (handle t2);
                        ClearInterval (handle t3); ContextClose].
Proof.
  intros w.
  assert (C : cleanup w = true) by (vm_compute; reflexivity).
  split; [exact C |].
  assert (R : reachable pow01 w)
    by (apply reachable_after; vm_compute; discriminate).
  destruct (teardown_cancels_timers pow01 w (page false) R C eq_refl)
    as (w' & t1 & t2 & t3 & E & T & _ & _ & _ & T' & Tr & _).
  exists w', t1, t2, t3. repeat split; assumption.
Defined.

(** C6 as stated fails: started with pulse 0 (1600 ms), changed to pulse
    100 (420 ms) at 100 ms, the pulse layer is triggered at 1600, 3200 and
    4800 ms; the interval of 420 ms is never used. *)
Lemma pulse_change_never_reaches_timer :
  let slow := with_pulse 0 (page true) in
  let fast := with_pulse 100 (page true) in
  let w := after [Render (with_pulse 0 (page false)); Render slow;
                  Elapse 10 100; Render fast; Elapse 50 5000] in
  map Qred (firings PulseLayer (trace w)) = [1600; 3200; 4800]
  /\ gaps (firings PulseLayer (trace w)) = [1600; 1600]
  /\ JS.eqv (Mapper.scale (pulse fast) 0 100 1600 420) 420
  /\ ~ 1600 == 420.
Proof.
  intros slow fast w. repeat split; try (vm_compute; reflexivity).
  vm_compute. discriminate.
Qed.

(** The theorem at the page, started, with the pulse value changed to
    100 after one second. *)
Lemma pulse_interval_fixed_for_session_witness :
  let w0 := after [Render (page false)] in
  let w1 := after [Render (page false); Render (page true)] in
  let l := [Elapse 5 1000; Render (with_pulse 100 (page true)); Elapse 10 3000] in
  let w2 := after ([Render (page false); Render (page true)] ++ l) in
  cleanup w0 = false
  /\ render pow01 (page true) w0 = Ok tt w1
  /\ steps pow01 l w1 = Some w2
  /\ exists t rest,
       timers w2 = t :: rest /\ action t = PulseTick
       /\ delay t = Mapper.scale (pulse (page true)) 0 100 1600 420.
Proof.
  intros w0 w1 l w2.
  assert (C : cleanup w0 = false) by (vm_compute; reflexivity).
  assert (E : render pow01 (page true) w0 = Ok tt w1) by (vm_compute; reflexivity).
  assert (S : steps pow01 l w1 = Some w2) by (vm_compute; reflexivity).
  assert (R : reachable pow01 w0)
    by (apply reachable_after; vm_compute; discriminate).
  assert (F : Forall stays_running l) by (repeat constructor).
  repeat (split; [assumption |]).
  exact (proj1 (pulse_interval_fixed_for_session pow01 w0 w1 w2 (page true) l
                  R C eq_refl E F S)).
Defined.

(* ================================================================== *)
(** * Further properties of the code *)

(* ------------------------------------------------------------------ *)
(** ** More on clamp and scale *)

Lemma clampQ_idem (v lo hi : Q) :
  clampQ (clampQ v lo hi) lo hi == clampQ v lo hi.
Proof.
  unfold clampQ. qcases; cbn zeta; qcases; lra.
Qed.

(** X1.  [clamp] on finite numbers returns a finite number.  With
    [lo <= hi] the result lies in [[lo, hi]], and a value already in
    the range is returned as it is; with the bounds reversed ([hi < lo])
    the result is [lo].  Clamping the result again changes nothing. *)
Theorem clamp_range_and_fixpoints (v lo hi : Q) :
  exists r r' : Q,
    Mapper.clamp (Fin v) (Fin lo) (Fin hi) = Fin r
    /\ (lo <= hi -> lo <= r <= hi)
    /\ (lo <= v <= hi -> r == v)
    /\ (hi < lo -> r == lo)
    /\ Mapper.clamp (Fin r) (Fin lo) (Fin hi) = Fin r'
    /\ r' == r.
Proof.
  exists (clampQ v lo hi), (clampQ (clampQ v lo hi) lo hi).
  rewrite !clamp_Fin.
  split; [reflexivity |].
  repeat split; try apply clampQ_idem; unfold clampQ; qcases; lra.
Qed.

Lemma clamp_range_and_fixpoints_witness :
  exists r : Q,
    Mapper.clamp (Fin 150) (Fin 0) (Fin 100) = Fin r /\ 0 <= r <= 100.
Proof.
  destruct (clamp_range_and_fixpoints 150 0 100) as (r & r' & E & H & _).
  exists r. split; [exact E | apply H; discriminate].
Defined.









Lemma clamp_reversed (v : jsnum) (a b : Q) :
  b < a -> v <> NaN -> Mapper.clamp v (Fin a) (Fin b) = Fin a.
Proof.
  intros H N. destruct v as [ | | | x]; [congruence | | | ];
    unfold Mapper.clamp; cbn.
  - destruct (Qle_bool a b) eqn:E; [apply Qle_bool_iff in E; lra | reflexivity].
  - reflexivity.
  - destruct (Qle_bool b x) eqn:E1; cbn.
    + destruct (Qle_bool a b) eqn:E; [apply Qle_bool_iff in E; lra | reflexivity].
    + apply Qle_bool_false in E1.
      destruct (Qle_bool a x) eqn:E; [apply Qle_bool_iff in E; lra | reflexivity].
Qed.

(* ------------------------------------------------------------------ *)
(** ** The shaper curve *)



















(* ------------------------------------------------------------------ *)
(** ** The one-shot voices *)

Lemma texture_trigger_closed (c : AudioContext) (x : Texture.t)
    (r time tension : jsnum) :
  let t := JS.or_else time (currentTime c) in
  let n := List.length (nodes c) in
  Texture.trigger x r time tension (grown c [] [])
  = Ok tt (grown c (texture_voice t tension r)
             [(n + 0, In (n + 1)); (n + 1, In (n + 2));
              (n + 2, In (Texture.reverbIn x));
              (n + 2, In (Texture.dry x))]%nat).
Proof.
  intros t n.
  unfold Texture.trigger, createBufferSource, createBiquadFilter, createGain.
  exec. reflexivity.
Qed.

Lemma grown_keeps (c : AudioContext) ns ws (i : nat) :
  (i < List.length (nodes c))%nat ->
  nth_error (nodes (grown c ns ws)) i = nth_error (nodes c) i.
Proof. intros H. unfold grown. cbn. now apply nth_error_app1. Qed.





Lemma pluck_trigger_closed pow (c : AudioContext) (y : Pluck.t)
    (r1 r2 r3 time tension : jsnum) :
  let t := JS.or_else time (currentTime c) in
  let n := List.length (nodes c) in
  Pluck.trigger pow y r1 r2 r3 time tension (grown c [] [])
  = Ok tt (grown c (pluck_voice pow t tension r1 r2 r3)
             [(n + 0, In (n + 2)); (n + 2, In (n + 1));
              (n + 1, In (Pluck.reverbIn y));
              (n + 1, In (Pluck.dry y))]%nat).
Proof.
  intros t n.
  unfold Pluck.trigger, createOscillator, createBiquadFilter, createGain.
  exec. reflexivity.
Qed.





(* ------------------------------------------------------------------ *)
(** ** The graphs of the drone and of the pulse layer *)

Lemma createDrone_grown pow (c : AudioContext) (reverbIn dry : nat) :
  let n := List.length (nodes c) in
  Drone.createDrone pow reverbIn dry (grown c [] [])
  = Ok (drone_at n false)
       (grown c (drone_nodes pow None None) (drone_wires n reverbIn dry)).
Proof.
  intros n.
  unfold Drone.createDrone, createOscillator, createBiquadFilter, createGain.
  exec. subst n. unfold drone_at. rewrite !Nat.add_0_r. reflexivity.
Qed.

Lemma createPulse_grown (c : AudioContext) (reverbIn dry : nat) :
  let n := List.length (nodes c) in
  Pulse.createPulse reverbIn dry (grown c [] [])
  = Ok (Pulse.mk n (n + 1) (n + 2))
       (grown c pulse_nodes (pulse_wires n reverbIn dry)).
Proof.
  intros n.
  unfold Pulse.createPulse, createOscillator, createWaveShaper, createGain.
  exec. subst n. rewrite !Nat.add_0_r. reflexivity.
Qed.

Lemma drone_on_ctx_run {A} (m : WebAudio.M A) (d : Drone.t) (c : AudioContext) :
  Drone.on_ctx m (d, c)
  = match m c with
    | Ok a c' => Ok a (d, c')
    | Throw e c' => Throw e (d, c')
    end.
Proof. reflexivity. Qed.

Lemma drone_start_fresh pow (c : AudioContext) (n : nat) ws :
  n = List.length (nodes c) ->
  Drone.start (drone_at n false, grown c (drone_nodes pow None None) ws)
  = Ok tt (drone_at n true,
           grown c (drone_nodes pow (Some (Fin 0)) None) ws).
Proof.
  intros ->. unfold Drone.start, drone_at. unfold bind at 1. unfold get.
  cbn [fst Drone.running].
  unfold bind at 1. unfold Drone.assign_running, update.
  cbn [fst snd Drone.set_running Drone.osc1 Drone.osc2 Drone.osc3 Drone.lpf
       Drone.lfo Drone.lfoGain Drone.gain].
  replace (start (List.length (nodes c)) 0)
    with (start (List.length (nodes c) + 0) 0) by (now rewrite Nat.add_0_r).
  repeat (try unfold bind at 1; rewrite drone_on_ctx_run;
          erewrite start_grown by reflexivity;
          cbn [list_set]).
  reflexivity.
Qed.

Lemma drone_stop_started pow (c : AudioContext) (n : nat) ws :
  n = List.length (nodes c) ->
  Drone.stop (drone_at n true,
              grown c (drone_nodes pow (Some (Fin 0)) None) ws)
  = Ok tt (drone_at n false,
           grown c (drone_nodes pow (Some (Fin 0)) (Some (Fin 0))) ws).
Proof.
  intros ->. unfold Drone.stop, drone_at. unfold bind at 1. unfold get.
  cbn [fst Drone.running negb].
  unfold bind at 1. unfold Drone.assign_running, update.
  cbn [fst snd Drone.set_running Drone.osc1 Drone.osc2 Drone.osc3 Drone.lpf
       Drone.lfo Drone.lfoGain Drone.gain].
  rewrite try_catch_returns.
  replace (stop (List.length (nodes c)) 0)
    with (stop (List.length (nodes c) + 0) 0) by (now rewrite Nat.add_0_r).
  repeat (try unfold bind at 1; rewrite drone_on_ctx_run;
          erewrite stop_grown by reflexivity;
          cbn [list_set]).
  reflexivity.
Qed.

Lemma drone_restart_throws pow (c : AudioContext) (n : nat) ws :
  n = List.length (nodes c) ->
  Drone.start (drone_at n false,
               grown c (drone_nodes pow (Some (Fin 0)) (Some (Fin 0))) ws)
  = Throw InvalidStateError
      (drone_at n true,
       grown c (drone_nodes pow (Some (Fin 0)) (Some (Fin 0))) ws).
Proof.
  intros ->. unfold Drone.start, drone_at. unfold bind at 1. unfold get.
  cbn [fst Drone.running].
  unfold bind at 1. unfold Drone.assign_running, update.
  cbn [fst snd Drone.set_running Drone.osc1 Drone.osc2 Drone.osc3 Drone.lpf
       Drone.lfo Drone.lfoGain Drone.gain].
  replace (start (List.length (nodes c)) 0)
    with (start (List.length (nodes c) + 0) 0) by (now rewrite Nat.add_0_r).
  unfold bind at 1. rewrite drone_on_ctx_run.
  unfold start, bind. erewrite node_at_grown by reflexivity.
  reflexivity.
Qed.

(** X12.  [createDrone] on any context adds seven nodes (sawtooth
    55 Hz detuned -7, triangle a minor second above detuned +3,
    sawtooth a fifth above detuned +7, low-pass filter at 400 Hz, sine
    LFO at 0.07 Hz, LFO depth 220, output gain 0.14) and eight
    connections, with no source started.  [start()] then starts the
    four oscillators at time 0; [stop()] stops them.  The drone cannot
    be started a second time: [start()] after [stop()] sets the running
    flag and fails with an InvalidStateError at the first oscillator. *)
Theorem drone_graph_and_single_use pow (c : AudioContext) (reverbIn dry : nat) :
  let n := List.length (nodes c) in
  let made := grown c (drone_nodes pow None None) (drone_wires n reverbIn dry) in
  let playing :=
    grown c (drone_nodes pow (Some (Fin 0)) None) (drone_wires n reverbIn dry) in
  let ended :=
    grown c (drone_nodes pow (Some (Fin 0)) (Some (Fin 0)))
          (drone_wires n reverbIn dry) in
  Drone.createDrone pow reverbIn dry c = Ok (drone_at n false) made
  /\ Drone.start (drone_at n false, made) = Ok tt (drone_at n true, playing)
  /\ Drone.stop (drone_at n true, playing) = Ok tt (drone_at n false, ended)
  /\ Drone.start (drone_at n false, ended)
     = Throw InvalidStateError (drone_at n true, ended).
Proof.
  intros n made playing ended. split; [| split; [| split]].
  - pose proof (createDrone_grown pow c reverbIn dry) as H.
    now rewrite <- grown_nil in H.
  - now apply drone_start_fresh.
  - now apply drone_stop_started.
  - now apply drone_restart_throws.
Qed.

(** X13.  [createPulse] on any context adds three nodes (a sine
    oscillator at 50 Hz, already started at time 0; a gain at 0, so
    that the layer is silent until it is triggered; a wave shaper) and
    the connections oscillator -> shaper -> gain -> dry bus and reverb
    input. *)
Theorem pulse_layer_idles_silent (c : AudioContext) (reverbIn dry : nat) :
  let n := List.length (nodes c) in
  Pulse.createPulse reverbIn dry c
  = Ok (Pulse.mk n (n + 1) (n + 2))
       (grown c pulse_nodes (pulse_wires n reverbIn dry)).
Proof.
  intros n. pose proof (createPulse_grown c reverbIn dry) as H.
  now rewrite <- grown_nil in H.
Qed.

(* ------------------------------------------------------------------ *)
(** ** The component, state by state *)

Lemma deps_run pow (n : nat) (T : Q) (w : world) :
  deps (run pow n T w) = deps w.
Proof.
  revert w. induction n as [ | n IH]; intros w; cbn; [reflexivity |].
  destruct (tick pow T w) as [w' | ] eqn:E.
  - rewrite IH. unfold tick in E.
    destruct (earliest (timers w)) as [t | ]; [| discriminate].
    destruct (Qle_bool (due t) T); [| discriminate].
    inversion E; subst; clear E. unfold reschedule. cbn [deps set_timers].
    rewrite (keeps_deps _ _ (Keeps_run _ _ (Keeps_fire pow (action t)))).
    rewrite (keeps_deps _ _ (keeps_sync _)). reflexivity.
  - now rewrite (keeps_deps _ _ (keeps_sync _)).
Qed.

Lemma deps_render pow (w w' : world) (p : Props) :
  Inv w -> render pow p w = Ok tt w' -> deps w' = Some p.
Proof.
  intros I E.
  destruct (Bool.bool_dec (isRunning p) (cleanup w)) as [S | S].
  - rewrite (render_same pow w p I S) in E.
    replace w' with (state_of (after_effects pow p (deps w) (set_deps (Some p) w)))
      by now rewrite E.
    now rewrite (keeps_deps _ _ (Keeps_run _ _ (Keeps_after_effects pow p (deps w)))).
  - destruct (cleanup w) eqn:C.
    + assert (R : isRunning p = false) by (destruct (isRunning p); congruence).
      rewrite (render_stop pow w p I C R) in E. inversion E; subst.
      pose proof I as [_ Hs]. rewrite C in Hs. destruct Hs as [_ _ _ _ Hl].
      destruct (live w) as [s | ] eqn:L; [| congruence].
      unfold stopped_world, torn_down. cbn [live set_deps]. rewrite L. cbn.
      now destruct (cleared_rest (timersRef w) (set_deps (Some p) w)) as (_ & D & _).
    + assert (R : isRunning p = true) by (destruct (isRunning p); congruence).
      destruct (render_start pow w p I C R) as (s & E' & _).
      rewrite E' in E.
      replace w' with (state_of (after_effects pow p (deps w) (started_world p s w)))
        by now rewrite E.
      now rewrite (keeps_deps _ _ (Keeps_run _ _ (Keeps_after_effects pow p (deps w)))).
Qed.

Lemma deps_steps pow (l : list input) (w w' : world) :
  Inv w -> deps w <> None -> steps pow l w = Some w' -> deps w' <> None.
Proof.
  revert w. induction l as [ | i l IH]; intros w I D; cbn.
  - intros H. now inversion H; subst.
  - destruct (step pow i w) as [w1 | ] eqn:E; [| discriminate].
    apply IH.
    + eapply Inv_step; eassumption.
    + destruct i as [p | n T]; unfold step in E.
      * destruct (render pow p w) as [[] w2 | ] eqn:E2; [| discriminate].
        inversion E; subst. now rewrite (deps_render pow w w1 p I E2).
      * inversion E; subst. now rewrite deps_run.
Qed.

(** X14.  In every state the component reaches, the session follows
    the last render: React holds the teardown function exactly when the
    last props had [isRunning] true.  Then the timer table holds exactly
    three intervals (pulse, texture, pluck, in this order),
    [timersRef.current] lists their handles, both other refs are set
    and the session is there.  Otherwise no interval exists and
    [nodesRef.current] is null.  Intervals never pile up, however often
    the component is started and stopped. *)
Theorem session_follows_last_render pow (w : world) :
  reachable pow w ->
  exists q,
    deps w = Some q
    /\ cleanup w = isRunning q
    /\ (isRunning q = true ->
        exists t1 t2 t3,
          timers w = [t1; t2; t3]
          /\ layer_of (action t1) = PulseLayer
          /\ layer_of (action t2) = TextureLayer
          /\ layer_of (action t3) = PluckLayer
          /\ timersRef w = [handle t1; handle t2; handle t3]
          /\ nodesRef w = true /\ ctxRef w = true /\ live w <> None)
    /\ (isRunning q = false -> timers w = [] /\ nodesRef w = false).
Proof.
  intros Hr. pose proof (Inv_reachable pow w Hr) as I.
  destruct Hr as (e & r & p & l & H). cbn [steps] in H.
  destruct (step pow (Render p) (init e r)) as [w1 | ] eqn:E; [| discriminate].
  assert (D : deps w <> None).
  { apply (deps_steps pow l w1 w); [| | exact H].
    - eapply Inv_step; [apply Inv_init | exact E].
    - unfold step in E.
      destruct (render pow p (init e r)) as [[] w2 | ] eqn:E2; [| discriminate].
      inversion E; subst.
      now rewrite (deps_render pow _ _ p (Inv_init e r) E2). }
  destruct (deps w) as [q | ] eqn:Dq; [| congruence].
  exists q. destruct I as [Hd Hs]. rewrite Dq in Hd.
  split; [reflexivity |]. split; [now symmetry |]. split.
  - intros R. rewrite <- Hd, R in Hs. destruct Hs as [Ly Rf Hn Hc Hl].
    destruct (timers w) as [ | t1 [ | t2 [ | t3 [ | ? ?]]]]; try discriminate.
    cbn in Ly, Rf. inversion Ly.
    exists t1, t2, t3. repeat split; assumption.
  - intros R. rewrite <- Hd, R in Hs. exact Hs.
Qed.

Lemma session_follows_last_render_witness :
  let w := after [Render (page false); Render (page true); Elapse 20 5000;
                  Render (page false); Render (page true); Elapse 20 9000] in
  exists q,
    deps w = Some q /\ cleanup w = isRunning q
    /\ (isRunning q = true -> exists t1 t2 t3, timers w = [t1; t2; t3]).
Proof.
  intros w.
  assert (R : reachable pow01 w)
    by (apply reachable_after; vm_compute; discriminate).
  destruct (session_follows_last_render pow01 w R) as (q & D & C & Hon & _).
  exists q. split; [exact D |]. split; [exact C |].
  intros Rq. destruct (Hon Rq) as (t1 & t2 & t3 & T & _).
  now exists t1, t2, t3.
Defined.

(** X15.  For as long as a session runs, whatever props arrive and
    whatever time passes, its three intervals keep the handles, the
    delays and the callbacks of the start: the pulse interval
    [scale(pulse, 0, 100, 1600, 420)], the texture interval
    [scale(tension, 0, 100, 4200, 1300)] and the pluck interval of
    2000 ms, the last two with callbacks that use the tension of the
    start.  A later change of tension reaches neither the texture
    interval nor the values the texture and pluck voices are made
    with. *)
Theorem intervals_fixed_for_session pow
    (w0 w1 w2 : world) (p0 : Props) (l : list input) :
  reachable pow w0 -> cleanup w0 = false -> isRunning p0 = true ->
  render pow p0 w0 = Ok tt w1 ->
  Forall stays_running l -> steps pow l w1 = Some w2 ->
  let h := next_handle w0 in
  schedule_of w2
  = [(h, PulseTick, Mapper.scale (pulse p0) 0 100 1600 420);
     (S h, NoiseTick (tension p0), Mapper.scale (tension p0) 0 100 4200 1300);
     (S (S h), PluckTick (tension p0), Fin 2000)]
  /\ timersRef w2 = [h; S h; S (S h)].
Proof.
  intros Hr C R E F H h. pose proof (Inv_reachable pow w0 Hr) as I.
  destruct (render_start pow w0 p0 I C R) as (s & E' & _).
  rewrite E' in E.
  assert (K : keeps (started_world p0 s w0) w1).
  { replace w1 with (state_of (after_effects pow p0 (deps w0) (started_world p0 s w0)))
      by now rewrite E.
    apply Keeps_run, Keeps_after_effects. }
  pose proof (Inv_started w0 p0 s I C R) as Is.
  pose proof (Inv_keeps _ _ K Is) as I1.
  assert (C1 : cleanup w1 = true) by (destruct K; cbn in *; congruence).
  destruct (session_schedule pow l w1 w2 I1 C1 F H) as (I2 & C2 & S2).
  rewrite (schedule_of_keeps _ _ K) in S2.
  destruct I as [_ Hs]. rewrite C in Hs. destruct Hs as [T0 _].
  assert (S0 : schedule_of w2
               = [(h, PulseTick, Mapper.scale (pulse p0) 0 100 1600 420);
                  (S h, NoiseTick (tension p0),
                   Mapper.scale (tension p0) 0 100 4200 1300);
                  (S (S h), PluckTick (tension p0), Fin 2000)]).
  { rewrite S2. unfold schedule_of, started_world, with_intervals. cbn.
    rewrite T0. reflexivity. }
  split; [exact S0 |].
  destruct I2 as [_ Hs2]. rewrite C2 in Hs2. destruct Hs2 as [_ Rf _ _ _].
  rewrite Rf. unfold schedule_of in S0.
  apply (f_equal (map (fun x => fst (fst x)))) in S0.
  rewrite map_map in S0. cbn in S0. exact S0.
Qed.

Lemma intervals_fixed_for_session_witness :
  let w0 := after [Render (page false)] in
  let w1 := after [Render (page false); Render (page true)] in
  let l := [Elapse 5 1000; Render (mkProps true 10 100 65 75); Elapse 10 3000] in
  let w2 := after ([Render (page false); Render (page true)] ++ l) in
  schedule_of w2
  = [(1%nat, PulseTick, Mapper.scale 60 0 100 1600 420);
     (2%nat, NoiseTick 70, Mapper.scale 70 0 100 4200 1300);
     (3%nat, PluckTick 70, Fin 2000)].
Proof.
  intros w0 w1 l w2.
  assert (C : cleanup w0 = false) by (vm_compute; reflexivity).
  assert (E : render pow01 (page true) w0 = Ok tt w1) by (vm_compute; reflexivity).
  assert (S : steps pow01 l w1 = Some w2) by (vm_compute; reflexivity).
  assert (R : reachable pow01 w0)
    by (apply reachable_after; vm_compute; discriminate).
  assert (F : Forall stays_running l) by (repeat constructor).
  exact (proj1 (intervals_fixed_for_session pow01 w0 w1 w2 (page true) l
                  R C eq_refl E F S)).
Defined.

(** X16.  A render that keeps [isRunning] and either finds the
    component stopped or repeats the tension, reverb and volume of the
    previous render runs no effect: the state is unchanged apart from
    the remembered props.  So a change of the pulse value alone does
    nothing to a running session, and no prop does anything while the
    component is stopped. *)
Theorem render_without_effect pow (w : world) (old q : Props) :
  reachable pow w -> deps w = Some old ->
  isRunning q = isRunning old ->
  (isRunning q = false
   \/ (JS.eqvb (tension old) (tension q) = true
       /\ JS.eqvb (reverb old) (reverb q) = true
       /\ JS.eqvb (volume old) (volume q) = true)) ->
  render pow q w = Ok tt (set_deps (Some q) w).
Proof.
  intros Hr D R H. pose proof (Inv_reachable pow w Hr) as I.
  pose proof I as [Hd Hs]. rewrite D in Hd.
  rewrite (render_same pow w q I) by congruence.
  destruct H as [Off | (A & B & C)].
  - apply after_effects_idle. cbn.
    assert (Cl : cleanup w = false) by congruence.
    rewrite Cl in Hs. apply Hs.
  - unfold after_effects. rewrite D. cbn [changed2].
    rewrite A, B, C. reflexivity.
Qed.

Lemma render_without_effect_witness :
  let w := after [Render (page false); Render (page true); Elapse 20 5000] in
  render pow01 (with_pulse 100 (page true)) w
  = Ok tt (set_deps (Some (with_pulse 100 (page true))) w).
Proof.
  intros w.
  assert (R : reachable pow01 w)
    by (apply reachable_after; vm_compute; discriminate).
  apply (render_without_effect pow01 w (page true) (with_pulse 100 (page true)) R).
  - vm_compute. reflexivity.
  - reflexivity.
  - right. repeat split; vm_compute; reflexivity.
Defined.

(* ------------------------------------------------------------------ *)
(** ** The pluck interval's gate *)

Lemma scale_any_between (v : jsnum) (lo hi : Q) :
  v <> NaN -> lo <= hi ->
  exists q, Mapper.scale v 0 100 (Fin lo) (Fin hi) = Fin q /\ lo <= q <= hi.
Proof.
  intros N H.
  destruct (nearest v) as [x | ] eqn:E; [| destruct v; try discriminate; congruence].
  destruct (clamp_nearest v x E) as (E1 & E2 & R).
  exists (scaleQ x 0 100 lo hi). split.
  - transitivity (Mapper.scale (Fin x) 0 100 (Fin lo) (Fin hi)).
    + unfold Mapper.scale. now rewrite E1, E2.
    + apply scale_Fin.
  - now apply scaleQ_between.
Qed.

Lemma lt_Fin (a b : Q) : JS.lt (Fin a) (Fin b) = negb (Qle_bool b a).
Proof. reflexivity. Qed.

(** X17.  The pluck interval's gate.  The threshold
    [scale(tension, 0, 100, 0.15, 0.55)] lies in [[0.15, 0.55]] or is
    NaN: when the draw is 0.55 or more, or the tension is NaN, the
    callback only consumes its one random number; when the draw is
    below 0.15 and the tension is a number, it calls the pluck trigger
    (one trigger logged, four random numbers consumed). *)
Theorem pluck_gate pow (tension : jsnum) (w : world) :
  let r0 := entropy w (drawn w) in
  let w' := state_of (fire pow (PluckTick tension) w) in
  (0.55 <= r0 \/ tension = NaN ->
     fire pow (PluckTick tension) w = Ok tt (set_drawn (S (drawn w)) w))
  /\ (r0 < 0.15 -> tension <> NaN ->
        trace w' = trace w ++ [Trigger PluckLayer (clock w)]
        /\ drawn w' = (drawn w + 4)%nat).
Proof.
  intros r0 w'. split.
  - intros H. unfold fire, bind at 1, get. unfold bind at 1, random.
    fold r0.
    assert (G : JS.lt (Fin r0) (Mapper.scale tension 0 100 0.15 0.55) = false).
    { destruct H as [H | ->]; [| now rewrite scale_NaN].
      destruct tension as [ | | | x]; [now rewrite scale_NaN | | |].
      - destruct (scale_any_between PInf 0.15 0.55) as (q & E & L & U);
          [discriminate | discriminate |].
        rewrite E, lt_Fin. apply negb_false_iff, Qle_bool_iff. lra.
      - destruct (scale_any_between NInf 0.15 0.55) as (q & E & L & U);
          [discriminate | discriminate |].
        rewrite E, lt_Fin. apply negb_false_iff, Qle_bool_iff. lra.
      - destruct (scale_any_between (Fin x) 0.15 0.55) as (q & E & L & U);
          [discriminate | discriminate |].
        rewrite E, lt_Fin. apply negb_false_iff, Qle_bool_iff. lra. }
    rewrite G. reflexivity.
  - intros H N. subst w'.
    destruct (scale_any_between tension 0.15 0.55 N) as (q & E & L & U);
      [discriminate |].
    assert (G : JS.lt (Fin r0) (Mapper.scale tension 0 100 0.15 0.55) = true).
    { rewrite E, lt_Fin. apply negb_true_iff.
      destruct (Qle_bool q r0) eqn:Q; [| reflexivity].
      apply Qle_bool_iff in Q. lra. }
    assert (X : exists (m : Eff.M session unit) x,
               fire pow (PluckTick tension) w = on_session m x
               /\ trace x = trace w ++ [Trigger PluckLayer (clock w)]
               /\ drawn x = (drawn w + 4)%nat).
    { do 2 eexists. split.
      - unfold fire, bind at 1, get. unfold bind at 1, random. fold r0.
        rewrite G. unfold bind at 1, update at 1.
        unfold bind at 1. unfold bind at 1. unfold bind at 1.
        cbn [drawn set_drawn log entropy]. reflexivity.
      - cbn. split; [reflexivity | lia]. }
    destruct X as (m & x & -> & T & D). rewrite <- T, <- D.
    unfold on_session. destruct (live x) as [s | ]; [destruct (m s) | ];
      split; reflexivity.
Qed.

Lemma pluck_gate_witness :
  let w := started_drawing 0.1 in
  trace (state_of (fire pow01 (PluckTick 70) w))
  = trace w ++ [Trigger PluckLayer (clock w)]
  /\ fire pow01 (PluckTick 70) (started_drawing 0.9)
     = Ok tt (set_drawn (S (drawn (started_drawing 0.9))) (started_drawing 0.9)).
Proof.
  intros w. split.
  - destruct (pluck_gate pow01 70 w) as [_ H].
    destruct H as [H _]; [vm_compute; reflexivity | discriminate |].
    exact H.
  - destruct (pluck_gate pow01 70 (started_drawing 0.9)) as [H _].
    apply H. left. vm_compute. discriminate.
Defined.

Lemma start_session_closed pow (p : Props) (w : world) :
  start_session pow p (w, new_context (rate w))
  = Ok (fresh_session pow p w) (with_intervals p w, session_ctx pow p (rate w)).
Proof.
  destruct w, p.
  cbv -[Mapper.scale period Qplus JS.div Qmult]. reflexivity.
Qed.

Lemma effect1_starts pow (p : Props) (w : world) :
  isRunning p = true ->
  effect1 pow p w
  = Ok tt (set_cleanup true
             (set_live (Some (fresh_session pow p w)) (with_intervals p w))).
Proof.
  intros R. unfold effect1. rewrite R. cbn [negb].
  now rewrite start_session_closed.
Qed.

(* ------------------------------------------------------------------ *)
(** ** The objects of a session stay in place *)

Lemma length_list_set {A} (i : nat) (x : A) (l : list A) :
  List.length (list_set i x l) = List.length l.
Proof.
  revert i. induction l as [ | h t IH]; intros [ | i]; cbn; auto.
Qed.

Lemma at_least_modify k i f : preserves (at_least k) (modify i f).
Proof.
  intros c H. unfold modify, bind, node_at, put_node, at_least in *.
  destruct (nth_error (nodes c) i); cbn; [now rewrite length_list_set | exact H].
Qed.

Lemma at_least_create k n : preserves (at_least k) (create n).
Proof.
  intros c H. unfold create, at_least in *. cbn. rewrite length_app. cbn. lia.
Qed.

Lemma at_least_connect k a b : preserves (at_least k) (connect a b).
Proof. intros c H. exact H. Qed.

Lemma at_least_now k : preserves (at_least k) now.
Proof. intros c H. exact H. Qed.

Lemma at_least_start k i t : preserves (at_least k) (WebAudio.start i t).
Proof.
  intros c H. unfold WebAudio.start, bind, node_at, put_node, throw, at_least in *.
  destruct (nth_error (nodes c) i) as [x | ]; cbn; [| exact H].
  destruct (started x); cbn; [exact H | now rewrite length_list_set].
Qed.

Lemma at_least_stop k i t : preserves (at_least k) (WebAudio.stop i t).
Proof.
  intros c H. unfold WebAudio.stop, bind, node_at, put_node, throw, at_least in *.
  destruct (nth_error (nodes c) i) as [x | ]; cbn; [| exact H].
  destruct (started x); cbn; [now rewrite length_list_set | exact H].
Qed.

Ltac at_least_tac :=
  repeat first
    [ progress cbv zeta
    | apply at_least_modify
    | apply at_least_create
    | apply at_least_connect
    | apply at_least_now
    | apply at_least_start
    | apply at_least_stop
    | apply preserves_ret
    | apply preserves_bind; [| intros ? ] ].

Lemma at_least_pulse k p t : preserves (at_least k) (Pulse.trigger p t).
Proof.
  unfold Pulse.trigger, cancelScheduledValues, schedule. at_least_tac.
Qed.

Lemma at_least_texture k x r t tension :
  preserves (at_least k) (Texture.trigger x r t tension).
Proof.
  unfold Texture.trigger, createBufferSource, createBiquadFilter, createGain,
    set_value, set_type, schedule.
  at_least_tac.
Qed.

Lemma at_least_pluck pow k x r1 r2 r3 t tension :
  preserves (at_least k) (Pluck.trigger pow x r1 r2 r3 t tension).
Proof.
  unfold Pluck.trigger, createOscillator, createBiquadFilter, createGain,
    set_value, set_type, schedule.
  at_least_tac.
Qed.

(** A started source stays started. *)
Lemma started_modify i j f :
  (forall x, started (f x) = started x) ->
  preserves (started_at i) (modify j f).
Proof.
  intros Hf c (x & E & S). unfold modify, bind, node_at, put_node.
  destruct (nth_error (nodes c) j) as [y | ] eqn:Ej; cbn; [| now exists x].
  destruct (Nat.eq_dec j i) as [-> | N].
  - exists (f y). split; [now apply nth_error_list_set_same with y |].
    rewrite Hf. congruence.
  - exists x. cbn [nodes with_nodes].
    split; [now rewrite nth_error_list_set_other | exact S].
Qed.

Lemma started_map_param p g x : started (map_param p g x) = started x.
Proof. now destruct p. Qed.

Lemma started_set_value i j p v : preserves (started_at i) (set_value j p v).
Proof. apply started_modify. intros x. apply started_map_param. Qed.

Lemma started_schedule i j p e : preserves (started_at i) (schedule j p e).
Proof. apply started_modify. intros x. apply started_map_param. Qed.

Lemma started_cancel i j p t :
  preserves (started_at i) (cancelScheduledValues j p t).
Proof. apply started_modify. intros x. apply started_map_param. Qed.

Lemma started_set_type i j s : preserves (started_at i) (set_type j s).
Proof. apply started_modify. reflexivity. Qed.

Lemma started_create i n : preserves (started_at i) (create n).
Proof.
  intros c (x & E & S). exists x. split; [| exact S]. cbn.
  rewrite nth_error_app1; [exact E |]. apply nth_error_Some. congruence.
Qed.

Lemma started_connect i a b : preserves (started_at i) (connect a b).
Proof. intros c H. exact H. Qed.

Lemma started_now i : preserves (started_at i) now.
Proof. intros c H. exact H. Qed.

Lemma started_start i j t : preserves (started_at i) (WebAudio.start j t).
Proof.
  intros c (x & E & S). unfold WebAudio.start, bind, node_at, put_node, throw.
  destruct (nth_error (nodes c) j) as [y | ] eqn:Ej; cbn; [| now exists x].
  destruct (started y) eqn:Sy; cbn; [now exists x |].
  destruct (Nat.eq_dec j i) as [-> | N].
  - eexists. split; [now apply nth_error_list_set_same with y |]. discriminate.
  - exists x. cbn [nodes with_nodes].
    split; [now rewrite nth_error_list_set_other | exact S].
Qed.

Lemma started_stop i j t : preserves (started_at i) (WebAudio.stop j t).
Proof.
  intros c (x & E & S). unfold WebAudio.stop, bind, node_at, put_node, throw.
  destruct (nth_error (nodes c) j) as [y | ] eqn:Ej; cbn; [| now exists x].
  destruct (started y) eqn:Sy; cbn; [| now exists x].
  destruct (Nat.eq_dec j i) as [-> | N].
  - eexists. split; [now apply nth_error_list_set_same with y |].
    cbn. congruence.
  - exists x. cbn [nodes with_nodes].
    split; [now rewrite nth_error_list_set_other | exact S].
Qed.

Ltac started_tac :=
  repeat first
    [ progress cbv zeta
    | apply started_set_value
    | apply started_schedule
    | apply started_cancel
    | apply started_set_type
    | apply started_create
    | apply started_connect
    | apply started_now
    | apply started_start
    | apply started_stop
    | apply preserves_ret
    | apply preserves_bind; [| intros ? ] ].

Lemma started_pulse i p t : preserves (started_at i) (Pulse.trigger p t).
Proof. unfold Pulse.trigger. started_tac. Qed.

Lemma started_texture i x r t tension :
  preserves (started_at i) (Texture.trigger x r t tension).
Proof.
  unfold Texture.trigger, createBufferSource, createBiquadFilter, createGain.
  started_tac.
Qed.

Lemma started_pluck pow i x r1 r2 r3 t tension :
  preserves (started_at i) (Pluck.trigger pow x r1 r2 r3 t tension).
Proof.
  unfold Pluck.trigger, createOscillator, createBiquadFilter, createGain.
  started_tac.
Qed.

Lemma solid_intro {A} (m : WebAudio.M A) :
  preserves (at_least 26) m -> (forall i, preserves (started_at i) m) ->
  preserves solid m.
Proof.
  intros Ha Hs c [Hn Hf]. split; [now apply Ha |].
  eapply Forall_impl; [| exact Hf]. intros i Hi. now apply Hs.
Qed.

Lemma solid_now_then {A} (k : JS.num -> WebAudio.M A) :
  (forall t, preserves solid (k t)) -> preserves solid (bind now k).
Proof.
  intros H. apply preserves_bind; [intros c Hc; exact Hc | exact H].
Qed.

Lemma solid_schedule j p e : preserves solid (schedule j p e).
Proof.
  apply solid_intro; [apply at_least_modify | intros i; apply started_schedule].
Qed.

Lemma solid_pulse p t : preserves solid (Pulse.trigger p t).
Proof.
  apply solid_intro; [apply at_least_pulse | intros i; apply started_pulse].
Qed.

Lemma solid_texture x r t tension :
  preserves solid (Texture.trigger x r t tension).
Proof.
  apply solid_intro; [apply at_least_texture | intros i; apply started_texture].
Qed.

Lemma solid_pluck pow x r1 r2 r3 t tension :
  preserves solid (Pluck.trigger pow x r1 r2 r3 t tension).
Proof.
  apply solid_intro; [apply at_least_pluck | intros i; apply started_pluck].
Qed.

Lemma state_of_zoom {St T A} (proj : St -> T) (inj : T -> St -> St)
    (m : Eff.M T A) (s : St) :
  state_of (zoom proj inj m s) = inj (state_of (m (proj s))) s.
Proof. unfold zoom. now destruct (m (proj s)). Qed.

Lemma wired_on_ctx {A} (m : WebAudio.M A) :
  preserves solid m -> preserves wired (on_ctx m).
Proof.
  intros Hm s []. unfold on_ctx. rewrite state_of_zoom.
  constructor;
    cbn [masterGain reverbWet dryGain drone pulseNode texture pluck ctx
         set_ctx];
    try assumption.
  apply (Hm (ctx s)). assumption.
Qed.

Lemma wired_setTension (t : jsnum) :
  preserves wired (on_drone (Drone.setTension t)).
Proof.
  intros s []. unfold on_drone. rewrite state_of_zoom.
  pose (P := fun st : Drone.St => fst st = drone s /\ solid (snd st)).
  assert (Hp : preserves P (Drone.setTension t)).
  { assert (Hc : forall A (m : WebAudio.M A),
               preserves solid m -> preserves P (Drone.on_ctx m)).
    { intros A m Hm [d c] [Hd Hn]. unfold Drone.on_ctx. rewrite state_of_zoom.
      split; [exact Hd | apply (Hm c Hn)]. }
    unfold Drone.setTension.
    apply preserves_bind; [apply preserves_get | intros st].
    apply preserves_bind; [| intros ?]; apply Hc;
      apply solid_now_then; intros ?; apply solid_schedule. }
  destruct (Hp (drone s, ctx s)) as [Hd Hn]; [now split |].
  constructor;
    cbn [masterGain reverbWet dryGain drone pulseNode texture pluck ctx
         set_drone set_ctx];
    try assumption.
  etransitivity; [exact Hd | assumption].
Qed.

Lemma in_session_on_session {A} (m : Eff.M session A) :
  preserves wired m -> preserves in_session (on_session m).
Proof.
  intros Hm w (s & L & Hs). unfold on_session. rewrite L.
  specialize (Hm s Hs).
  destruct (m s) as [a s' | e s']; cbn in *; exists s'; now split.
Qed.

Lemma in_session_log (e : event) : preserves in_session (update (log e)).
Proof. intros w H. exact H. Qed.

Lemma in_session_random : preserves in_session random.
Proof. intros w H. exact H. Qed.

Ltac in_context_tac :=
  apply solid_now_then; intros ?;
  first [ apply solid_pulse | apply solid_texture | apply solid_pluck
        | apply solid_schedule ].

Ltac in_session_tac :=
  repeat first
    [ progress cbv zeta
    | apply in_session_log
    | apply in_session_random
    | apply in_session_on_session
    | apply wired_setTension
    | apply wired_on_ctx; solve [in_context_tac]
    | apply preserves_if
    | apply preserves_ret
    | apply preserves_throw
    | apply preserves_get
    | apply preserves_bind; [| intros ? ] ].

Lemma in_session_fire pow (cb : callback) : preserves in_session (fire pow cb).
Proof. unfold fire. destruct cb; in_session_tac. Qed.

Lemma in_session_effect2 pow (p : Props) :
  preserves in_session (effect2 pow p).
Proof. unfold effect2. in_session_tac. Qed.

Lemma in_session_sync (w : world) : in_session w -> in_session (sync w).
Proof.
  intros (s & L & Hs). unfold sync. rewrite L.
  destruct (closed (ctx s)); [now exists s |].
  eexists. split; [reflexivity |]. destruct Hs. constructor; assumption.
Qed.

Lemma in_session_tick pow (T : Q) (w w' : world) :
  tick pow T w = Some w' -> in_session w -> in_session w'.
Proof.
  unfold tick. destruct (earliest (timers w)) as [t | ]; [| discriminate].
  destruct (Qle_bool (due t) T); [| discriminate].
  intros E H. inversion E; subst; clear E.
  apply (in_session_fire pow (action t)). apply in_session_sync. exact H.
Qed.

Lemma in_session_run pow (n : nat) (T : Q) (w : world) :
  in_session w -> in_session (run pow n T w).
Proof.
  revert w. induction n as [ | n IH]; intros w H; cbn; [exact H |].
  destruct (tick pow T w) as [w' | ] eqn:E.
  - apply IH. eapply in_session_tick; eassumption.
  - apply in_session_sync. exact H.
Qed.

Lemma wired_fresh pow (p : Props) (w : world) : wired (fresh_session pow p w).
Proof.
  constructor; try reflexivity; [now split |]. split.
  - unfold at_least. cbn. lia.
  - repeat constructor; eexists; (split; [reflexivity | discriminate]).
Qed.

Section Wiring.
Variable pow : JS.num -> JS.num -> JS.num.

(** A render that starts a session, with the session it creates. *)
Lemma render_start_closed (w : world) (p : Props) :
  Inv w -> cleanup w = false -> isRunning p = true ->
  render pow p w
  = after_effects pow p (deps w) (started_world p (fresh_session pow p w) w).
Proof.
  intros I C R. unfold render, after_effects.
  unfold bind at 1. unfold get. unfold bind at 1. unfold update at 1.
  assert (B : changed1 (deps w) p = true).
  { destruct (changed1_Inv w p I) as [X | [D _]].
    - now rewrite X, C, R.
    - now rewrite D. }
  rewrite B, C. cbn [andb].
  unfold bind at 1, ret at 1. unfold bind at 1.
  rewrite effect1_starts by exact R. reflexivity.
Qed.

Lemma running_session_render (w w' : world) (p : Props) :
  Inv w -> running_session w -> render pow p w = Ok tt w' ->
  running_session w'.
Proof.
  intros I J E C'.
  destruct (Bool.bool_dec (isRunning p) (cleanup w)) as [S | S].
  - rewrite (render_same pow w p I S) in E.
    replace w' with (state_of (after_effects pow p (deps w) (set_deps (Some p) w)))
      in * by now rewrite E.
    rewrite (keeps_cleanup _ _ (Keeps_run _ _ (Keeps_after_effects pow p (deps w))))
      in C'.
    unfold after_effects. apply preserves_if;
      [apply in_session_effect2 | apply preserves_ret |].
    exact (J C').
  - destruct (cleanup w) eqn:C.
    + assert (R : isRunning p = false) by (destruct (isRunning p); congruence).
      rewrite (render_stop pow w p I C R) in E. inversion E; subst.
      discriminate.
    + assert (R : isRunning p = true) by (destruct (isRunning p); congruence).
      rewrite (render_start_closed w p I C R) in E.
      replace w' with (state_of (after_effects pow p (deps w)
                                   (started_world p (fresh_session pow p w) w)))
        by now rewrite E.
      unfold after_effects. apply preserves_if;
        [apply in_session_effect2 | apply preserves_ret |].
      eexists. split; [reflexivity | apply wired_fresh].
Qed.

Lemma running_session_step (i : input) (w w' : world) :
  Inv w -> running_session w -> step pow i w = Some w' -> running_session w'.
Proof.
  intros I J. destruct i as [p | n T]; unfold step.
  - destruct (render pow p w) as [[] w1 | ] eqn:E; [| discriminate].
    intros H. inversion H; subst. eapply running_session_render; eassumption.
  - intros H. inversion H; subst. intros C. rewrite cleanup_run in C.
    apply in_session_run. exact (J C).
Qed.

Lemma running_session_steps (l : list input) (w w' : world) :
  Inv w -> running_session w -> steps pow l w = Some w' -> running_session w'.
Proof.
  revert w. induction l as [ | i l IH]; intros w I J; cbn.
  - intros H. now inversion H; subst.
  - destruct (step pow i w) as [w1 | ] eqn:E; [| discriminate].
    apply IH; [eapply Inv_step | eapply running_session_step]; eassumption.
Qed.

Lemma running_session_reachable (w : world) :
  reachable pow w -> running_session w.
Proof.
  intros (e & r & p & l & H).
  eapply running_session_steps; [apply Inv_init | | exact H].
  intros C. discriminate.
Qed.

End Wiring.

(* ------------------------------------------------------------------ *)
(** ** Reactive parameter updates *)

Lemma nth_error_below {A} (l : list A) (i : nat) :
  (i < List.length l)%nat -> exists x, nth_error l i = Some x.
Proof.
  intros H. destruct (nth_error l i) as [x | ] eqn:E; [now exists x |].
  apply nth_error_None in E. lia.
Qed.

Lemma length_target i p e l : List.length (target i p e l) = List.length l.
Proof.
  unfold target. destruct (nth_error l i); [apply length_list_set | reflexivity].
Qed.

Lemma nth_error_target_same i p e l x :
  nth_error l i = Some x ->
  nth_error (target i p e l) i = Some (map_param p (with_event e) x).
Proof.
  intros H. unfold target. rewrite H. now apply nth_error_list_set_same with x.
Qed.

Lemma nth_error_target_other i j p e l :
  i <> j -> nth_error (target i p e l) j = nth_error l j.
Proof.
  intros H. unfold target. destruct (nth_error l i); [| reflexivity].
  now apply nth_error_list_set_other.
Qed.

Lemma schedule_target (c : AudioContext) i p e :
  (i < List.length (nodes c))%nat ->
  schedule i p e c = Ok tt (with_nodes (target i p e (nodes c)) c).
Proof.
  intros H. destruct (nth_error_below _ _ H) as (x & E).
  unfold target. rewrite E. exact (modify_at c i _ x E).
Qed.

Lemma schedule_target_again (c : AudioContext) l i p e :
  (i < List.length l)%nat ->
  schedule i p e (with_nodes l c) = Ok tt (with_nodes (target i p e l) c).
Proof.
  intros H. rewrite schedule_target by exact H. reflexivity.
Qed.

Lemma effect2_in_session pow (q : Props) (w : world) (s : session) :
  nodesRef w = true -> ctxRef w = true -> live w = Some s -> wired s ->
  effect2 pow q w = Ok tt (set_live (Some (retargeted pow q s)) w).
Proof.
  intros N C L [M Wt _ Dr _ _ _ [Ln _]]. unfold at_least in Ln.
  unfold effect2, bind at 1, get. rewrite N, C. cbn [negb].
  unfold on_session. rewrite L.
  destruct s as [c b mg rw dg d pn tx pl]. cbn in M, Wt, Dr, Ln. subst mg rw d.
  unfold retargeted.
  cbv beta iota zeta delta [bind get on_ctx on_drone zoom now Drone.setTension
    Drone.on_ctx ctx masterGain reverbWet drone drone_at Drone.gain Drone.lpf
    fst snd set_ctx set_drone born dryGain pulseNode texture pluck].
  rewrite schedule_target by lia. cbv beta iota.
  rewrite (schedule_target_again c) by (rewrite ?length_target; lia).
  cbv beta iota.
  rewrite (schedule_target_again c) by (rewrite ?length_target; lia).
  cbv beta iota.
  rewrite (schedule_target_again c) by (rewrite ?length_target; lia).
  reflexivity.
Qed.

Lemma nth_error_target i j p e l :
  nth_error (target i p e l) j
  = if Nat.eqb i j
    then option_map (map_param p (with_event e)) (nth_error l j)
    else nth_error l j.
Proof.
  destruct (Nat.eqb_spec i j) as [-> | N].
  - destruct (nth_error l j) as [x | ] eqn:E.
    + now apply nth_error_target_same.
    + unfold target. now rewrite E.
  - now apply nth_error_target_other.
Qed.

Lemma get_map_param p f x : get_param p (map_param p f x) = f (get_param p x).
Proof. destruct p; reflexivity. Qed.

Lemma wires_retargeted pow q s :
  wires (ctx (retargeted pow q s)) = wires (ctx s).
Proof. reflexivity. Qed.

Lemma retargeted_params pow (q : Props) (s : session) :
  wired s ->
  let s' := retargeted pow q s in
  let t := currentTime (ctx s) in
  exists mg rw lp dg,
    param_of (masterGain s) Gain_ (ctx s) = Some mg
    /\ param_of (reverbWet s) Gain_ (ctx s) = Some rw
    /\ param_of (Drone.lpf (drone s)) Frequency (ctx s) = Some lp
    /\ param_of (Drone.gain (drone s)) Gain_ (ctx s) = Some dg
    /\ param_of (masterGain s) Gain_ (ctx s')
       = Some (with_event
                 (SetTargetAtTime
                    (dbToGain pow (Mapper.scale (volume q) 0 100 (-36) (-3)))
                    t 0.05) mg)
    /\ param_of (reverbWet s) Gain_ (ctx s')
       = Some (with_event
                 (SetTargetAtTime (Mapper.scale (reverb q) 0 100 0.05 0.5)
                                  t 0.1) rw)
    /\ param_of (Drone.lpf (drone s)) Frequency (ctx s')
       = Some (with_event
                 (SetTargetAtTime (Mapper.scale (tension q) 0 100 260 1800)
                                  t 0.5) lp)
    /\ param_of (Drone.gain (drone s)) Gain_ (ctx s')
       = Some (with_event
                 (SetTargetAtTime (Mapper.scale (tension q) 0 100 0.1 0.2)
                                  t 0.5) dg)
    /\ (forall i,
          i <> masterGain s -> i <> reverbWet s ->
          i <> Drone.lpf (drone s) -> i <> Drone.gain (drone s) ->
          nth_error (nodes (ctx s')) i = nth_error (nodes (ctx s)) i).
Proof.
  intros [M Wt _ Dr _ _ _ [Ln _]] s' t. unfold at_least in Ln. subst s' t.
  destruct s as [c b mg rw dg d pn tx pl]. cbn in M, Wt, Dr, Ln. subst mg rw d.
  unfold retargeted, param_of.
  cbn [ctx masterGain reverbWet drone drone_at Drone.gain Drone.lpf set_ctx
       with_nodes nodes Nat.add].
  destruct (nth_error_below (nodes c) 1) as (x1 & E1); [lia |].
  destruct (nth_error_below (nodes c) 14) as (x2 & E2); [lia |].
  destruct (nth_error_below (nodes c) 19) as (x3 & E3); [lia |].
  destruct (nth_error_below (nodes c) 22) as (x4 & E4); [lia |].
  exists (p_gain x1), (p_gain x2), (p_frequency x3), (p_gain x4).
  rewrite !nth_error_target. cbn [Nat.eqb].
  rewrite E1, E2, E3, E4. cbn [option_map].
  repeat (split; [reflexivity |]).
  intros i N1 N2 N3 N4. rewrite !nth_error_target.
  destruct (Nat.eqb_spec 22 i); [congruence |].
  destruct (Nat.eqb_spec 19 i); [congruence |].
  destruct (Nat.eqb_spec 14 i); [congruence |].
  destruct (Nat.eqb_spec 1 i); [congruence |].
  reflexivity.
Qed.

(** X18.  Reactive parameter updates.  In every reachable state with
    a running session, a render that changes tension, reverb or volume
    returns and appends exactly one set-target event, starting at the
    context's current time, to each of four parameters: the master
    gain (target [dbToGain(scale(volume, 0, 100, -36, -3))], time
    constant 0.05), the wet gain ([scale(reverb, 0, 100, 0.05, 0.5)],
    0.1), the drone's filter frequency
    ([scale(tension, 0, 100, 260, 1800)], 0.5) and the drone's gain
    ([scale(tension, 0, 100, 0.1, 0.2)], 0.5).  The values of the
    parameters, all other nodes, the connections, the timers and the
    trace stay as they are.  The three props are numbers: with a NaN
    among them the host refuses the target with a TypeError, a check the
    graph model of the component leaves out. *)
Theorem parameter_change_retargets pow (w : world) (q : Props) :
  reachable pow w -> cleanup w = true -> isRunning q = true ->
  changed2 (deps w) q = true ->
  tension q <> NaN -> reverb q <> NaN -> volume q <> NaN ->
  exists s s' mg rw lp dg,
    live w = Some s
    /\ render pow q w = Ok tt (set_live (Some s') (set_deps (Some q) w))
    /\ param_of (masterGain s) Gain_ (ctx s) = Some mg
    /\ param_of (reverbWet s) Gain_ (ctx s) = Some rw
    /\ param_of (Drone.lpf (drone s)) Frequency (ctx s) = Some lp
    /\ param_of (Drone.gain (drone s)) Gain_ (ctx s) = Some dg
    /\ param_of (masterGain s) Gain_ (ctx s')
       = Some (with_event
                 (SetTargetAtTime
                    (dbToGain pow (Mapper.scale (volume q) 0 100 (-36) (-3)))
                    (currentTime (ctx s)) 0.05) mg)
    /\ param_of (reverbWet s) Gain_ (ctx s')
       = Some (with_event
                 (SetTargetAtTime (Mapper.scale (reverb q) 0 100 0.05 0.5)
                                  (currentTime (ctx s)) 0.1) rw)
    /\ param_of (Drone.lpf (drone s)) Frequency (ctx s')
       = Some (with_event
                 (SetTargetAtTime (Mapper.scale (tension q) 0 100 260 1800)
                                  (currentTime (ctx s)) 0.5) lp)
    /\ param_of (Drone.gain (drone s)) Gain_ (ctx s')
       = Some (with_event
                 (SetTargetAtTime (Mapper.scale (tension q) 0 100 0.1 0.2)
                                  (currentTime (ctx s)) 0.5) dg)
    /\ (forall i,
          i <> masterGain s -> i <> reverbWet s ->
          i <> Drone.lpf (drone s) -> i <> Drone.gain (drone s) ->
          nth_error (nodes (ctx s')) i = nth_error (nodes (ctx s)) i)
    /\ wires (ctx s') = wires (ctx s).
Proof.
  intros Hr C R Ch _ _ _. pose proof (Inv_reachable pow w Hr) as I.
  destruct (running_session_reachable pow w Hr C) as (s & L & Hs).
  pose proof I as [_ Sh]. rewrite C in Sh. destruct Sh as [_ _ Hn Hc _].
  destruct (retargeted_params pow q s Hs)
    as (mg & rw & lp & dg & A1 & A2 & A3 & A4 & B1 & B2 & B3 & B4 & Fr).
  exists s, (retargeted pow q s), mg, rw, lp, dg.
  split; [exact L |]. split.
  - rewrite (render_same pow w q I) by congruence.
    unfold after_effects. rewrite Ch.
    now rewrite (effect2_in_session pow q (set_deps (Some q) w) s).
  - repeat (split; [assumption |]). reflexivity.
Qed.

Lemma parameter_change_retargets_witness :
  let w := after [Render (page false); Render (page true); Elapse 20 5000] in
  let q := mkProps true 20 60 65 75 in
  exists s s' dg,
    live w = Some s
    /\ render pow01 q w = Ok tt (set_live (Some s') (set_deps (Some q) w))
    /\ param_of (Drone.gain (drone s)) Gain_ (ctx s) = Some dg
    /\ param_of (Drone.gain (drone s)) Gain_ (ctx s')
       = Some (with_event
                 (SetTargetAtTime (Mapper.scale 20 0 100 0.1 0.2)
                                  (currentTime (ctx s)) 0.5) dg).
Proof.
  intros w q.
  assert (R : reachable pow01 w)
    by (apply reachable_after; vm_compute; discriminate).
  assert (C : cleanup w = true) by (vm_compute; reflexivity).
  assert (Ch : changed2 (deps w) q = true) by (vm_compute; reflexivity).
  destruct (parameter_change_retargets pow01 w q R C eq_refl Ch)
    as (s & s' & mg & rw & lp & dg & L & E & _ & _ & _ & A & _ & _ & _ & B & _);
    [discriminate | discriminate | discriminate |].
  exists s, s', dg.
  split; [exact L |]. split; [exact E |]. split; [exact A | exact B].
Defined.

(* ------------------------------------------------------------------ *)
(** ** The graph the first effect builds *)

(** X19.  The graph the first effect builds, from any state: a new
    context with 26 nodes, at time 0 and open.  Only the master gain
    feeds the destination, only the compressor feeds the master gain,
    the wet and the dry gain feed the compressor, the reverb output
    feeds the wet gain, and the drone and the pulse layer feed both the
    dry gain and the reverb input; the texture and pluck layers hold
    the same two buses.  The master gain is
    [dbToGain(scale(volume, 0, 100, -36, -3))], the wet gain
    [scale(reverb, 0, 100, 0.05, 0.5)], the dry gain 1, and the drone
    is running.  Volume and reverb are numbers: with a NaN the host
    refuses the gain value with a TypeError, a check the graph model of
    the component leaves out. *)
Theorem session_graph_routing pow (p : Props) (w : world) :
  isRunning p = true ->
  volume p <> NaN -> reverb p <> NaN ->
  exists w' s,
    effect1 pow p w = Ok tt w'
    /\ live w' = Some s /\ cleanup w' = true
    /\ born s = clock w
    /\ nodes (ctx s) = session_nodes pow p
    /\ wires (ctx s) = session_wires
    /\ currentTime (ctx s) = Fin 0 /\ closed (ctx s) = false
    /\ nth_error (nodes (ctx s)) (masterGain s)
       = Some (gain_node
                 (dbToGain pow (Mapper.scale (volume p) 0 100 (-36) (-3))))
    /\ nth_error (nodes (ctx s)) (reverbWet s)
       = Some (gain_node (Mapper.scale (reverb p) 0 100 0.05 0.5))
    /\ nth_error (nodes (ctx s)) (dryGain s) = Some (gain_node 1.0)
    /\ option_map kind (nth_error (nodes (ctx s)) 2)
       = Some DynamicsCompressorNode
    /\ feeders destination (ctx s) = [masterGain s]
    /\ feeders (masterGain s) (ctx s) = [2%nat]
    /\ feeders 2 (ctx s) = [reverbWet s; dryGain s]
    /\ feeders (reverbWet s) (ctx s) = [4%nat]
    /\ feeders (dryGain s) (ctx s)
       = [Drone.gain (drone s); Pulse.gain (pulseNode s)]
    /\ feeders 3 (ctx s)
       = [Drone.gain (drone s); Pulse.gain (pulseNode s)]
    /\ Texture.reverbIn (texture s) = 3%nat
    /\ Texture.dry (texture s) = dryGain s
    /\ pluck s = Pluck.mk 3 (dryGain s)
    /\ Drone.running (drone s) = true.
Proof.
  intros R _ _. do 2 eexists. split; [now apply effect1_starts |].
  repeat split.
Qed.

Lemma session_graph_routing_witness :
  exists w' s,
    effect1 pow01 (page true) demo_host = Ok tt w'
    /\ live w' = Some s
    /\ feeders destination (ctx s) = [masterGain s]
    /\ feeders 2 (ctx s) = [reverbWet s; dryGain s].
Proof.
  destruct (session_graph_routing pow01 (page true) demo_host eq_refl)
    as (w' & s & E & L & _ & _ & _ & _ & _ & _ & _ & _ & _ & _ & F0 & _ & F2 & _);
    [discriminate | discriminate |].
  exists w', s.
  split; [exact E |]. split; [exact L |]. split; [exact F0 | exact F2].
Defined.

(** X20.  When the render that starts a session also changes tension,
    reverb or volume (as the first render of a component mounted
    running does), the second effect runs in the same render: the
    drone's gain and filter keep their values 0.14 and 400 and get a
    set-target event towards the levels of the tension, starting at
    time 0 with time constant 0.5; the master and wet gains get theirs.
    Tension, reverb and volume are numbers: with a NaN among them the
    host raises a TypeError in one of the two effects, a check the graph
    model of the component leaves out. *)
Theorem start_render_retargets pow (e : nat -> Q) (r : Q)
    (w : world) (p : Props) :
  w = init e r \/ reachable pow w ->
  cleanup w = false -> isRunning p = true -> changed2 (deps w) p = true ->
  tension p <> NaN -> reverb p <> NaN -> volume p <> NaN ->
  exists w' s,
    render pow p w = Ok tt w'
    /\ live w' = Some s
    /\ drone_levels s
       = Some (with_event
                 (SetTargetAtTime (Mapper.scale (tension p) 0 100 0.1 0.2)
                                  0 0.5) (param 0.14),
               with_event
                 (SetTargetAtTime (Mapper.scale (tension p) 0 100 260 1800)
                                  0 0.5) (param 400))
    /\ param_of (masterGain s) Gain_ (ctx s)
       = Some (with_event
                 (SetTargetAtTime
                    (dbToGain pow (Mapper.scale (volume p) 0 100 (-36) (-3)))
                    0 0.05)
                 (param (dbToGain pow
                           (Mapper.scale (volume p) 0 100 (-36) (-3)))))
    /\ param_of (reverbWet s) Gain_ (ctx s)
       = Some (with_event
                 (SetTargetAtTime (Mapper.scale (reverb p) 0 100 0.05 0.5)
                                  0 0.1)
                 (param (Mapper.scale (reverb p) 0 100 0.05 0.5))).
Proof.
  intros H C R Ch _ _ _.
  assert (I : Inv w).
  { destruct H as [-> | H]; [apply Inv_init | now apply Inv_reachable with pow]. }
  exists (set_live (Some (retargeted pow p (fresh_session pow p w)))
            (started_world p (fresh_session pow p w) w)),
         (retargeted pow p (fresh_session pow p w)).
  split.
  - rewrite (render_start_closed pow w p I C R).
    unfold after_effects. rewrite Ch.
    apply effect2_in_session; try reflexivity. apply wired_fresh.
  - split; [reflexivity |]. repeat split.
Qed.

Lemma start_render_retargets_witness :
  exists w' s,
    render pow01 (page true) demo_host = Ok tt w'
    /\ live w' = Some s
    /\ drone_levels s
       = Some (with_event
                 (SetTargetAtTime (Mapper.scale 70 0 100 0.1 0.2) 0 0.5)
                 (param 0.14),
               with_event
                 (SetTargetAtTime (Mapper.scale 70 0 100 260 1800) 0 0.5)
                 (param 400)).
Proof.
  destruct (start_render_retargets pow01 (fun _ => 0.3) 44100 demo_host
              (page true) (or_introl eq_refl) eq_refl eq_refl eq_refl)
    as (w' & s & E & L & D & _);
    [discriminate | discriminate | discriminate |].
  exists w', s. split; [exact E |]. split; [exact L | exact D].
Defined.

(* ------------------------------------------------------------------ *)
(** ** [setTension] on any drone *)

Lemma setTension_run (tension : jsnum) (d : Drone.t) (c : AudioContext) :
  (Drone.lpf d < List.length (nodes c))%nat ->
  (Drone.gain d < List.length (nodes c))%nat ->
  Drone.setTension tension (d, c)
  = Ok tt (d, with_nodes
                (target (Drone.gain d) Gain_
                   (SetTargetAtTime (Mapper.scale tension 0 100 0.1 0.2)
                                    (currentTime c) 0.5)
                (target (Drone.lpf d) Frequency
                   (SetTargetAtTime (Mapper.scale tension 0 100 260 1800)
                                    (currentTime c) 0.5)
                   (nodes c)))
                c).
Proof.
  intros Hl Hg.
  cbv beta iota zeta delta [Drone.setTension bind get Drone.on_ctx zoom now
                            fst snd].
  rewrite schedule_target by exact Hl. cbv beta iota.
  rewrite (schedule_target_again c) by (now rewrite length_target).
  reflexivity.
Qed.

(* ------------------------------------------------------------------ *)
(** ** The interval callbacks in a running session *)

Lemma or_else_same (a : jsnum) : JS.or_else a a = a.
Proof. unfold JS.or_else. now destruct (JS.truthy a). Qed.

Lemma texture_trigger_run (c : AudioContext) (x : Texture.t)
    (r time tension : jsnum) :
  Texture.trigger x r time tension c
  = Ok tt (grown c (texture_voice (JS.or_else time (currentTime c)) tension r)
             [(List.length (nodes c), In (List.length (nodes c) + 1));
              (List.length (nodes c) + 1, In (List.length (nodes c) + 2));
              (List.length (nodes c) + 2, In (Texture.reverbIn x));
              (List.length (nodes c) + 2, In (Texture.dry x))]%nat).
Proof.
  pose proof (texture_trigger_closed c x r time tension) as H.
  rewrite <- grown_nil in H. cbv zeta in H.
  rewrite Nat.add_0_r in H. exact H.
Qed.

Lemma pluck_trigger_run pow (c : AudioContext) (y : Pluck.t)
    (r1 r2 r3 time tension : jsnum) :
  Pluck.trigger pow y r1 r2 r3 time tension c
  = Ok tt (grown c (pluck_voice pow (JS.or_else time (currentTime c))
                                tension r1 r2 r3)
             [(List.length (nodes c), In (List.length (nodes c) + 2));
              (List.length (nodes c) + 2, In (List.length (nodes c) + 1));
              (List.length (nodes c) + 1, In (Pluck.reverbIn y));
              (List.length (nodes c) + 1, In (Pluck.dry y))]%nat).
Proof.
  pose proof (pluck_trigger_closed pow c y r1 r2 r3 time tension) as H.
  rewrite <- grown_nil in H. cbv zeta in H.
  rewrite Nat.add_0_r in H. exact H.
Qed.

(** X22.  In every reachable state with a running session, the pulse
    callback returns, logs one trigger, and re-arms the envelope of the
    session's pulse layer at the context's current time [t]: on the
    oscillator frequency and on the gain, the events at or after [t]
    are dropped and the new ones (60 Hz at [t], 40 Hz at [t + 0.09];
    gain 0 at [t], 0.6 at [t + 0.01], 0.0001 at [t + 0.6]) are
    appended.  No other node and no connection changes. *)
Theorem pulse_tick_rearms pow (w : world) :
  reachable pow w -> cleanup w = true ->
  exists s c' fr gn,
    live w = Some s
    /\ fire pow PulseTick w
       = Ok tt (set_live (Some (set_ctx c' s))
                  (log (Trigger PulseLayer (clock w)) w))
    /\ param_of (Pulse.osc (pulseNode s)) Frequency (ctx s) = Some fr
    /\ param_of (Pulse.gain (pulseNode s)) Gain_ (ctx s) = Some gn
    /\ (let t := currentTime (ctx s) in
        param_of (Pulse.osc (pulseNode s)) Frequency c'
        = Some (retrigger t [SetValueAtTime 60 t;
                             ExponentialRampToValueAtTime 40 (JS.add t 0.09)]
                          fr)
        /\ param_of (Pulse.gain (pulseNode s)) Gain_ c'
           = Some (retrigger t
                     [SetValueAtTime 0 t;
                      LinearRampToValueAtTime 0.6 (JS.add t 0.01);
                      ExponentialRampToValueAtTime 0.0001 (JS.add t 0.6)]
                     gn))
    /\ (forall i, i <> Pulse.osc (pulseNode s) ->
                  i <> Pulse.gain (pulseNode s) ->
                  nth_error (nodes c') i = nth_error (nodes (ctx s)) i)
    /\ wires c' = wires (ctx s).
Proof.
  intros Hr C.
  destruct (running_session_reachable pow w Hr C) as (s & L & Hs).
  destruct Hs as [_ _ _ _ Pu _ _ [Ln _]]. unfold at_least in Ln.
  destruct (nth_error_below (nodes (ctx s)) 23) as (o & Eo); [lia |].
  destruct (nth_error_below (nodes (ctx s)) 24) as (g & Eg); [lia |].
  pose proof (pulse_trigger_spec (ctx s) (Pulse.mk 23 24 25)
                (currentTime (ctx s)) o g Eo Eg) as P.
  cbv zeta in P. rewrite or_else_same in P.
  cbn [Pulse.osc Pulse.gain] in P. specialize (P ltac:(discriminate)).
  exists s. eexists. exists (p_frequency o), (p_gain g).
  split; [exact L |]. split.
  - unfold fire, bind at 1, get. unfold bind at 1, update at 1.
    unfold on_session. cbn [live log]. rewrite L.
    cbv beta iota delta [bind get on_ctx zoom now]. rewrite Pu, P.
    reflexivity.
  - rewrite Pu. unfold param_of. cbn [Pulse.osc Pulse.gain nodes with_nodes wires].
    rewrite Eo, Eg. cbn [option_map get_param].
    split; [reflexivity |]. split; [reflexivity |]. split; [split |]; [| | split].
    + rewrite nth_error_list_set_other by discriminate.
      rewrite (nth_error_list_set_same _ _ o) by exact Eo. reflexivity.
    + rewrite (nth_error_list_set_same _ _ g)
        by (now rewrite nth_error_list_set_other).
      reflexivity.
    + intros i N1 N2.
      rewrite !nth_error_list_set_other by congruence. reflexivity.
    + reflexivity.
Qed.

Lemma pulse_tick_rearms_witness :
  let w := after [Render (page false); Render (page true); Elapse 20 5000] in
  exists s c',
    live w = Some s
    /\ fire pow01 PulseTick w
       = Ok tt (set_live (Some (set_ctx c' s))
                  (log (Trigger PulseLayer (clock w)) w)).
Proof.
  intros w.
  assert (R : reachable pow01 w)
    by (apply reachable_after; vm_compute; discriminate).
  assert (C : cleanup w = true) by (vm_compute; reflexivity).
  destruct (pulse_tick_rearms pow01 w R C) as (s & c' & _ & _ & L & E & _).
  exists s, c'. split; [exact L | exact E].
Defined.

(** X23.  In every reachable state with a running session, the
    texture callback returns, logs one trigger, consumes one random
    number, and adds one texture voice to the session's context, made
    at the context's current time with the tension the callback
    captured, and connected to node 3 (the reverb input) and to the
    session's dry gain.  The captured tension is a number: with NaN the
    host refuses the filter frequency with a TypeError and no voice is
    added, a check the graph model of the component leaves out. *)
Theorem texture_tick_adds_voice pow (tn : jsnum) (w : world) :
  reachable pow w -> cleanup w = true ->
  tn <> NaN ->
  exists s c',
    live w = Some s
    /\ fire pow (NoiseTick tn) w
       = Ok tt (set_live (Some (set_ctx c' s))
                  (set_drawn (S (drawn w))
                     (log (Trigger TextureLayer (clock w)) w)))
    /\ (let n := List.length (nodes (ctx s)) in
        nodes c'
        = nodes (ctx s)
          ++ texture_voice (currentTime (ctx s)) tn (Fin (entropy w (drawn w)))
        /\ wires c'
           = wires (ctx s)
             ++ [(n, In (n + 1)); (n + 1, In (n + 2));
                 (n + 2, In 3); (n + 2, In (dryGain s))]%nat)
    /\ dryGain s = 15%nat
    /\ (26 <= List.length (nodes (ctx s)))%nat.
Proof.
  intros Hr C _.
  destruct (running_session_reachable pow w Hr C) as (s & L & Hs).
  destruct Hs as [_ _ Dg _ _ [Tr Td] _ [Ln _]]. unfold at_least in Ln.
  exists s. eexists. split; [exact L |]. split.
  - unfold fire, bind at 1, get. unfold bind at 1, update at 1.
    unfold bind at 1, random at 1. unfold on_session.
    cbn [live log set_drawn]. rewrite L.
    cbv beta iota delta [bind get on_ctx zoom now].
    rewrite texture_trigger_run, or_else_same. reflexivity.
  - cbn [nodes wires grown]. rewrite Tr, Td, Dg.
    repeat split; try reflexivity; assumption.
Qed.

Lemma texture_tick_adds_voice_witness :
  let w := after [Render (page false); Render (page true); Elapse 20 5000] in
  exists s c',
    live w = Some s
    /\ nodes c'
       = nodes (ctx s)
         ++ texture_voice (currentTime (ctx s)) 70 (Fin (entropy w (drawn w))).
Proof.
  intros w.
  assert (R : reachable pow01 w)
    by (apply reachable_after; vm_compute; discriminate).
  assert (C : cleanup w = true) by (vm_compute; reflexivity).
  destruct (texture_tick_adds_voice pow01 70 w R C)
    as (s & c' & L & _ & [N _] & _); [discriminate |].
  exists s, c'. split; [exact L | exact N].
Defined.

(** X24.  In every reachable state with a running session, when the
    first draw passes the gate, the pluck callback returns, logs one
    trigger, consumes four random numbers in all, and adds one pluck
    voice to the session's context, made from the second to fourth
    draws and the captured tension at the context's current time, and
    connected to node 3 (the reverb input) and to the session's dry
    gain. *)
Theorem pluck_tick_adds_voice pow (tn : jsnum) (w : world) :
  reachable pow w -> cleanup w = true ->
  JS.lt (Fin (entropy w (drawn w))) (Mapper.scale tn 0 100 0.15 0.55) = true ->
  exists s c',
    live w = Some s
    /\ fire pow (PluckTick tn) w
       = Ok tt (set_live (Some (set_ctx c' s))
                  (set_drawn (drawn w + 4)
                     (log (Trigger PluckLayer (clock w)) w)))
    /\ (let n := List.length (nodes (ctx s)) in
        nodes c'
        = nodes (ctx s)
          ++ pluck_voice pow (currentTime (ctx s)) tn
               (Fin (entropy w (drawn w + 1)))
               (Fin (entropy w (drawn w + 2)))
               (Fin (entropy w (drawn w + 3)))
        /\ wires c'
           = wires (ctx s)
             ++ [(n, In (n + 2)); (n + 2, In (n + 1));
                 (n + 1, In 3); (n + 1, In (dryGain s))]%nat)
    /\ dryGain s = 15%nat
    /\ (26 <= List.length (nodes (ctx s)))%nat.
Proof.
  intros Hr C G.
  destruct (running_session_reachable pow w Hr C) as (s & L & Hs).
  destruct Hs as [_ _ Dg _ _ _ Pl [Ln _]]. unfold at_least in Ln.
  exists s. eexists. split; [exact L |]. split.
  - unfold fire, bind at 1, get. unfold bind at 1, random at 1.
    rewrite G. unfold bind at 1, update at 1.
    unfold bind at 1, random at 1. unfold bind at 1, random at 1.
    unfold bind at 1, random at 1. unfold on_session.
    cbn [live log set_drawn drawn entropy]. rewrite L.
    cbv beta iota delta [bind get on_ctx zoom now].
    rewrite pluck_trigger_run, or_else_same.
    replace (S (S (S (S (drawn w))))) with (drawn w + 4)%nat by lia.
    replace (S (drawn w)) with (drawn w + 1)%nat by lia.
    replace (S (drawn w + 1)) with (drawn w + 2)%nat by lia.
    replace (S (drawn w + 2)) with (drawn w + 3)%nat by lia.
    reflexivity.
  - cbn [nodes wires grown]. rewrite Pl, Dg. cbn [Pluck.reverbIn Pluck.dry].
    repeat split; try reflexivity; assumption.
Qed.

Lemma pluck_tick_adds_voice_witness :
  let w := started_drawing 0.1 in
  exists s c',
    live w = Some s
    /\ fire pow01 (PluckTick 70) w
       = Ok tt (set_live (Some (set_ctx c' s))
                  (set_drawn (drawn w + 4)
                     (log (Trigger PluckLayer (clock w)) w))).
Proof.
  intros w.
  assert (R : reachable pow01 w).
  { exists (fun _ => 0.1), 44100, (page false), [Render (page true)].
    vm_compute. reflexivity. }
  assert (C : cleanup w = true) by (vm_compute; reflexivity).
  assert (G : JS.lt (Fin (entropy w (drawn w))) (Mapper.scale 70 0 100 0.15 0.55)
              = true) by (vm_compute; reflexivity).
  destruct (pluck_tick_adds_voice pow01 70 w R C G) as (s & c' & L & E & _).
  exists s, c'. split; [exact L | exact E].
Defined.

(* ------------------------------------------------------------------ *)
(** ** What stopping does to the session *)

Lemma nth_error_halt i j l :
  nth_error (halt i l) j
  = if Nat.eqb i j then option_map (mark_stopped 0) (nth_error l j)
    else nth_error l j.
Proof.
  unfold halt. destruct (Nat.eqb_spec i j) as [-> | N].
  - destruct (nth_error l j) as [x | ] eqn:E; [| now rewrite E].
    now apply nth_error_list_set_same with x.
  - destruct (nth_error l i); [| reflexivity].
    now apply nth_error_list_set_other.
Qed.

Lemma stop_halt (c : AudioContext) (i : nat) :
  started_at i c ->
  WebAudio.stop i 0 c = Ok tt (with_nodes (halt i (nodes c)) c).
Proof.
  intros (x & E & S). unfold WebAudio.stop, bind, node_at, halt. rewrite E.
  unfold mark_stopped, put_node.
  destruct (started x) eqn:Sx; [reflexivity | congruence].
Qed.

Lemma started_at_halt (c : AudioContext) (l : list node) (i j : nat) :
  started_at j (with_nodes l c) -> started_at j (with_nodes (halt i l) c).
Proof.
  intros (x & E & S). unfold started_at. cbn [nodes with_nodes] in *.
  rewrite nth_error_halt, E. destruct (Nat.eqb i j).
  - eexists. split; [reflexivity | exact S].
  - now exists x.
Qed.

Lemma stop_halt_again (c : AudioContext) (l : list node) (i : nat) :
  started_at i (with_nodes l c) ->
  WebAudio.stop i 0 (with_nodes l c) = Ok tt (with_nodes (halt i l) c).
Proof. intros H. now rewrite stop_halt. Qed.

Lemma drone_stop_run (c : AudioContext) :
  solid c ->
  Drone.stop (drone_at 16 true, c)
  = Ok tt (drone_at 16 false,
           with_nodes (halt 20 (halt 18 (halt 17 (halt 16 (nodes c))))) c).
Proof.
  intros [_ F].
  inversion F as [ | ? ? S16 F1]; subst. inversion F1 as [ | ? ? S17 F2]; subst.
  inversion F2 as [ | ? ? S18 F3]; subst. inversion F3 as [ | ? ? S20 _]; subst.
  assert (W : c = with_nodes (nodes c) c) by now destruct c.
  rewrite W in S16, S17, S18, S20.
  unfold Drone.stop, bind at 1, get. cbn [fst Drone.running drone_at negb].
  unfold bind at 1. unfold Drone.assign_running, update.
  rewrite try_catch_returns.
  cbn [fst snd Drone.set_running Drone.osc1 Drone.osc2 Drone.osc3 Drone.lpf
       Drone.lfo Drone.lfoGain Drone.gain Nat.add].
  unfold bind at 1. rewrite drone_on_ctx_run.
  rewrite W at 1. rewrite stop_halt_again by exact S16.
  unfold bind at 1. rewrite drone_on_ctx_run.
  rewrite stop_halt_again by (now apply started_at_halt).
  unfold bind at 1. rewrite drone_on_ctx_run.
  rewrite stop_halt_again by (now do 2 apply started_at_halt).
  rewrite drone_on_ctx_run.
  rewrite stop_halt_again by (now do 3 apply started_at_halt).
  reflexivity.
Qed.

(** X25.  Stopping a running session, from any reachable state: the
    render returns, all three refs are reset ([ctxRef] and [nodesRef]
    to null, [timersRef] to the empty array), React drops the teardown
    function, the context is closed, the drone is marked not running,
    and each of its four oscillators, which was started, is stopped at
    time 0.  Every other node and every connection is left as it
    was. *)
Theorem stop_releases_session pow (w : world) (p : Props) :
  reachable pow w -> cleanup w = true -> isRunning p = false ->
  exists w' s s',
    render pow p w = Ok tt w'
    /\ live w = Some s /\ live w' = Some s'
    /\ ctxRef w' = false /\ nodesRef w' = false /\ timersRef w' = []
    /\ cleanup w' = false /\ deps w' = Some p
    /\ closed (ctx s') = true
    /\ Drone.running (drone s') = false
    /\ Forall (fun i => exists x,
                 nth_error (nodes (ctx s)) i = Some x
                 /\ started x <> None
                 /\ nth_error (nodes (ctx s')) i = Some (mark_stopped 0 x))
              [Drone.osc1 (drone s); Drone.osc2 (drone s);
               Drone.osc3 (drone s); Drone.lfo (drone s)]
    /\ (forall i,
          ~ List.In i [Drone.osc1 (drone s); Drone.osc2 (drone s);
                       Drone.osc3 (drone s); Drone.lfo (drone s)] ->
          nth_error (nodes (ctx s')) i = nth_error (nodes (ctx s)) i)
    /\ wires (ctx s') = wires (ctx s).
Proof.
  intros Hr C R. pose proof (Inv_reachable pow w Hr) as I.
  destruct (running_session_reachable pow w Hr C) as (s & L & Hs).
  pose proof (drone_stop_run (ctx s) (wired_solid s Hs)) as D.
  destruct Hs as [_ _ _ Dr _ _ _ [_ F]].
  exists (stopped_world p w), s, (wound_down s).
  split; [now apply render_stop |]. split; [exact L |].
  assert (Lw : live (stopped_world p w) = Some (wound_down s)).
  { unfold stopped_world, torn_down. cbn [live set_deps]. now rewrite L. }
  assert (Rest : ctxRef (stopped_world p w) = false
                 /\ nodesRef (stopped_world p w) = false
                 /\ timersRef (stopped_world p w) = []
                 /\ cleanup (stopped_world p w) = false
                 /\ deps (stopped_world p w) = Some p).
  { unfold stopped_world, torn_down. cbn [live set_deps]. rewrite L. cbn.
    repeat split.
    now destruct (cleared_rest (timersRef w) (set_deps (Some p) w))
      as (_ & X & _). }
  destruct Rest as (R1 & R2 & R3 & R4 & R5).
  repeat (split; [assumption |]).
  assert (Wd : wound_down s
               = set_ctx (mkContext
                            (halt 20 (halt 18 (halt 17 (halt 16 (nodes (ctx s))))))
                            (wires (ctx s)) (currentTime (ctx s))
                            (sampleRate (ctx s)) true)
                         (set_drone (drone_at 16 false) s)).
  { unfold wound_down, on_drone, on_ctx, zoom, close. rewrite Dr, D.
    reflexivity. }
  rewrite Wd, Dr.
  cbn [ctx set_ctx set_drone drone closed nodes wires Drone.running drone_at
       Drone.osc1 Drone.osc2 Drone.osc3 Drone.lfo Nat.add].
  split; [reflexivity |]. split; [reflexivity |]. split; [| split].
  - inversion F as [ | ? ? S16 F1]; subst. inversion F1 as [ | ? ? S17 F2]; subst.
    inversion F2 as [ | ? ? S18 F3]; subst. inversion F3 as [ | ? ? S20 _]; subst.
    destruct S16 as (x16 & E16 & N16). destruct S17 as (x17 & E17 & N17).
    destruct S18 as (x18 & E18 & N18). destruct S20 as (x20 & E20 & N20).
    repeat constructor; eexists; (split; [eassumption |]);
      (split; [assumption |]);
      rewrite !nth_error_halt; cbn [Nat.eqb];
      rewrite ?E16, ?E17, ?E18, ?E20; reflexivity.
  - intros i Hi. rewrite !nth_error_halt.
    destruct (Nat.eqb_spec 20 i) as [<- | _]; [exfalso; apply Hi; cbn; tauto |].
    destruct (Nat.eqb_spec 18 i) as [<- | _]; [exfalso; apply Hi; cbn; tauto |].
    destruct (Nat.eqb_spec 17 i) as [<- | _]; [exfalso; apply Hi; cbn; tauto |].
    destruct (Nat.eqb_spec 16 i) as [<- | _]; [exfalso; apply Hi; cbn; tauto |].
    reflexivity.
  - reflexivity.
Qed.

Lemma stop_releases_session_witness :
  let w := after [Render (page false); Render (page true); Elapse 20 5000] in
  exists w' s',
    render pow01 (page false) w = Ok tt w'
    /\ live w' = Some s'
    /\ nodesRef w' = false
    /\ closed (ctx s') = true.
Proof.
  intros w.
  assert (R : reachable pow01 w)
    by (apply reachable_after; vm_compute; discriminate).
  assert (C : cleanup w = true) by (vm_compute; reflexivity).
  destruct (stop_releases_session pow01 w (page false) R C eq_refl)
    as (w' & s & s' & E & _ & L & _ & N & _ & _ & _ & X & _).
  exists w', s'.
  split; [exact E |]. split; [exact L |]. split; [exact N | exact X].
Defined.

(* ================================================================== *)
(** * The mapping in rounded arithmetic *)

(* ------------------------------------------------------------------ *)
(** ** scale in rounded arithmetic *)

Section RoundedScale.
Variable fl : Q -> Q.
Variable big : Q.
Hypothesis R : rounding fl big.

Lemma fl_compat (x y : Q) : x == y -> fl x == fl y.
Proof.
  intros E. apply Qle_antisym; apply (fl_mono fl big R); rewrite E; apply Qle_refl.
Qed.

Lemma Qabs_le_iff (x y : Q) : Qabs x <= y <-> - y <= x <= y.
Proof. apply Qabs_Qle_condition. Qed.

Lemma fl_in_range (x : Q) : Qabs x <= big -> Qabs (fl x) <= big.
Proof.
  intros H. apply Qabs_le_iff in H. apply Qabs_le_iff. destruct H as [L U].
  split.
  - rewrite <- (fl_small fl big R). now apply (fl_mono fl big R).
  - rewrite <- (fl_big fl big R). now apply (fl_mono fl big R).
Qed.

Lemma round_Fin (x : Q) :
  Qabs x <= big -> Rounded.round fl big (Fin x) = Fin (fl x).
Proof.
  intros H. unfold Rounded.round.
  now rewrite (proj2 (Qle_bool_iff _ _) (fl_in_range x H)).
Qed.

Lemma round_overflow (x : Q) :
  ~ Qabs (fl x) <= big ->
  Rounded.round fl big (Fin x) = PInf \/ Rounded.round fl big (Fin x) = NInf.
Proof.
  intros H. unfold Rounded.round.
  destruct (Qle_bool (Qabs (fl x)) big) eqn:E.
  - apply Qle_bool_iff in E. contradiction.
  - destruct (Qle_bool 0 (fl x)); [now left | now right].
Qed.

Lemma fl_between (x lo hi : Q) :
  lo <= x <= hi -> fl lo <= fl x <= fl hi.
Proof. intros [L U]. split; now apply (fl_mono fl big R). Qed.

Lemma fl_above (x y : Q) : fl y == y -> y <= x -> y <= fl x.
Proof.
  intros E H. apply Qle_trans with (fl y).
  - rewrite E. apply Qle_refl.
  - now apply (fl_mono fl big R).
Qed.

Lemma fl_below (x y : Q) : fl y == y -> x <= y -> fl x <= y.
Proof.
  intros E H. apply Qle_trans with (fl y).
  - now apply (fl_mono fl big R).
  - rewrite E. apply Qle_refl.
Qed.

Lemma fl_fix (x y : Q) : fl y == y -> x == y -> fl x == y.
Proof. intros E H. rewrite (fl_compat x y H). exact E. Qed.

Lemma guard_pos (a b : Q) :
  a <= b -> 0 < (if Qeq_bool (fl (b + - a)) 0 then 1 else fl (b + - a)).
Proof.
  intros H.
  assert (M : 0 <= fl (b + - a)).
  { apply fl_above; [apply (fl_zero fl big R) | lra]. }
  destruct (Qeq_bool (fl (b + - a)) 0) eqn:E; [reflexivity |].
  apply Qeq_bool_false in E. lra.
Qed.

Lemma numer_range (v a b : Q) :
  a <= b -> 0 <= fl (clampQ v a b + - a) <= fl (b + - a).
Proof.
  intros H.
  destruct (clampQ_cases v a b) as [(_ & [L U] & _) | [C _]]; [| lra].
  split.
  - apply fl_above; [apply (fl_zero fl big R) | lra].
  - apply (fl_mono fl big R). lra.
Qed.

Lemma numer_flat (v a b : Q) :
  v <= a \/ b <= a -> fl (clampQ v a b + - a) == 0.
Proof.
  intros H. apply fl_fix; [apply (fl_zero fl big R) |].
  destruct (clampQ_cases v a b) as [(Hab & _ & Lo & Hi & _) | [_ C]].
  - destruct H as [H | H].
    + rewrite (Lo H). lra.
    + assert (E : a == b) by lra.
      destruct (Qlt_le_dec v a) as [X | X].
      * rewrite Lo by lra. lra.
      * rewrite Hi by lra. lra.
  - rewrite C. lra.
Qed.

Lemma quotient_range (v a b : Q) :
  0 <= fl (clampQ v a b + - a)
       / (if Qeq_bool (fl (b + - a)) 0 then 1 else fl (b + - a)) <= 1.
Proof.
  destruct (Qlt_le_dec b a) as [H | H].
  - assert (N : fl (clampQ v a b + - a) == 0) by (apply numer_flat; right; lra).
    rewrite N. unfold Qdiv. rewrite Qmult_0_l. lra.
  - pose proof (guard_pos a b H) as G.
    pose proof (numer_range v a b H) as [N0 N1].
    destruct (Qeq_bool (fl (b + - a)) 0) eqn:E.
    + apply Qeq_bool_iff in E.
      assert (N : fl (clampQ v a b + - a) == 0) by lra.
      rewrite N. unfold Qdiv. rewrite Qmult_0_l. lra.
    + split.
      * apply Qle_shift_div_l; [exact G | lra].
      * apply Qle_shift_div_r; [exact G | lra].
Qed.

Lemma factorR_range (v a b : Q) : 0 <= factorR fl v a b <= 1.
Proof.
  unfold factorR. pose proof (quotient_range v a b) as [L U]. split.
  - apply fl_above; [apply (fl_zero fl big R) | exact L].
  - apply fl_below; [apply (fl_one fl big R) | exact U].
Qed.

Lemma factorR_flat (v a b : Q) : v <= a \/ b <= a -> factorR fl v a b == 0.
Proof.
  intros H. unfold factorR. apply fl_fix; [apply (fl_zero fl big R) |].
  rewrite (numer_flat v a b H).
  unfold Qdiv. apply Qmult_0_l.
Qed.

Lemma factorR_full (v a b : Q) :
  a < b -> ~ fl (b + - a) == 0 -> b <= v -> factorR fl v a b == 1.
Proof.
  intros H M Hv. unfold factorR. apply fl_fix; [apply (fl_one fl big R) |].
  destruct (Qeq_bool (fl (b + - a)) 0) eqn:E;
    [apply Qeq_bool_iff in E; contradiction |].
  destruct (clampQ_cases v a b) as [(_ & _ & _ & Hi & _) | [X _]]; [| lra].
  assert (N : fl (clampQ v a b + - a) == fl (b + - a)).
  { apply fl_compat. rewrite (Hi Hv). reflexivity. }
  rewrite N. field. exact M.
Qed.

Lemma factorR_mono (v1 v2 a b : Q) :
  v1 <= v2 -> factorR fl v1 a b <= factorR fl v2 a b.
Proof.
  intros H. unfold factorR. apply (fl_mono fl big R).
  destruct (Qlt_le_dec b a) as [X | X].
  - rewrite (numer_flat v1 a b), (numer_flat v2 a b) by (right; lra).
    apply Qle_refl.
  - pose proof (guard_pos a b X) as G.
    apply Qmult_le_compat_r.
    + apply (fl_mono fl big R).
      pose proof (clampQ_mono v1 v2 a b H). lra.
    + apply Qlt_le_weak, Qinv_lt_0_compat, G.
Qed.

(** The result, from the factor. *)
Lemma scaleR_factor (v a b lo hi : Q) :
  scaleR fl v a b lo hi = fl (lo + fl (factorR fl v a b * fl (hi + - lo))).
Proof. reflexivity. Qed.

Lemma scaleR_range (v a b lo hi : Q) :
  fl lo == lo ->
  (lo <= hi -> lo <= scaleR fl v a b lo hi <= top fl lo hi)
  /\ (hi <= lo -> top fl lo hi <= scaleR fl v a b lo hi <= lo).
Proof.
  intros Hlo. rewrite scaleR_factor. unfold top.
  pose proof (factorR_range v a b) as [T0 T1].
  set (t := factorR fl v a b) in *. set (d := fl (hi + - lo)).
  assert (Dd : fl d == d) by apply (fl_idem fl big R).
  split; intros H.
  - assert (D0 : 0 <= d).
    { subst d. apply fl_above; [apply (fl_zero fl big R) | lra]. }
    assert (P : 0 <= fl (t * d) <= d).
    { split; [apply fl_above; [apply (fl_zero fl big R) | nra]
             | apply fl_below; [exact Dd | nra]]. }
    split; [apply fl_above; [exact Hlo | lra] | apply (fl_mono fl big R); lra].
  - assert (D0 : d <= 0).
    { subst d. apply fl_below; [apply (fl_zero fl big R) | lra]. }
    assert (P : d <= fl (t * d) <= 0).
    { split; [apply fl_above; [exact Dd | nra]
             | apply fl_below; [apply (fl_zero fl big R) | nra]]. }
    split; [apply (fl_mono fl big R); lra | apply fl_below; [exact Hlo | lra]].
Qed.

Lemma scaleR_mono (v1 v2 a b lo hi : Q) :
  v1 <= v2 ->
  (lo <= hi -> scaleR fl v1 a b lo hi <= scaleR fl v2 a b lo hi)
  /\ (hi <= lo -> scaleR fl v2 a b lo hi <= scaleR fl v1 a b lo hi).
Proof.
  intros Hv. rewrite !scaleR_factor.
  pose proof (factorR_mono v1 v2 a b Hv) as T.
  set (d := fl (hi + - lo)).
  split; intros H.
  - assert (D0 : 0 <= d).
    { subst d. apply fl_above; [apply (fl_zero fl big R) | lra]. }
    apply (fl_mono fl big R). apply Qplus_le_r. apply (fl_mono fl big R). nra.
  - assert (D0 : d <= 0).
    { subst d. apply fl_below; [apply (fl_zero fl big R) | lra]. }
    apply (fl_mono fl big R). apply Qplus_le_r. apply (fl_mono fl big R). nra.
Qed.

Lemma scaleR_flat (v a b lo hi : Q) :
  fl lo == lo -> v <= a \/ b <= a -> scaleR fl v a b lo hi == lo.
Proof.
  intros Hlo H. rewrite scaleR_factor.
  apply fl_fix; [exact Hlo |].
  assert (P : fl (factorR fl v a b * fl (hi + - lo)) == 0).
  { apply fl_fix; [apply (fl_zero fl big R) |].
    rewrite (factorR_flat v a b H). apply Qmult_0_l. }
  rewrite P. lra.
Qed.

Lemma scaleR_full (v a b lo hi : Q) :
  a < b -> ~ fl (b + - a) == 0 -> b <= v ->
  scaleR fl v a b lo hi == top fl lo hi.
Proof.
  intros H M Hv. rewrite scaleR_factor. unfold top. apply fl_compat.
  apply Qplus_inj_l.
  apply fl_fix; [apply (fl_idem fl big R) |].
  rewrite (factorR_full v a b H M Hv). apply Qmult_1_l.
Qed.

Lemma round_keeps (x : Q) :
  Qabs (fl x) <= big -> Rounded.round fl big (Fin x) = Fin (fl x).
Proof.
  intros H. unfold Rounded.round. now rewrite (proj2 (Qle_bool_iff _ _) H).
Qed.

Lemma Qabs_zero_le (x : Q) : x == 0 -> Qabs x <= big.
Proof.
  intros E. rewrite E. cbn. pose proof (big_one fl big R). lra.
Qed.

(** The program's [scale] computes [scaleR] when nothing overflows. *)
Lemma scale_rounded_run (c a b lo hi : Q) (v : jsnum) :
  Mapper.clamp v (Fin a) (Fin b) = Fin c ->
  let m := fl (b + - a) in
  let t := fl (fl (c + - a) / (if Qeq_bool m 0 then 1 else m)) in
  let d := fl (hi + - lo) in
  Qabs (fl (c + - a)) <= big -> Qabs m <= big -> Qabs t <= big ->
  Qabs d <= big -> Qabs (fl (t * d)) <= big ->
  Qabs (fl (lo + fl (t * d))) <= big ->
  Rounded.scale fl big v (Fin a) (Fin b) (Fin lo) (Fin hi)
  = Fin (fl (lo + fl (t * d))).
Proof.
  intros Ec m t d Hn Hm Ht Hd Hp Hr.
  unfold Rounded.scale, Rounded.add, Rounded.sub, Rounded.mul, Rounded.div.
  rewrite Ec. cbn [JS.sub JS.add JS.neg].
  rewrite (round_keeps (c + - a) Hn), (round_keeps (b + - a) Hm),
          (round_keeps (hi + - lo) Hd).
  unfold JS.or_else, JS.truthy. fold m. fold d.
  assert (Ediv : JS.div (Fin (fl (c + - a)))
                        (if negb (Qeq_bool m 0) then Fin m else Fin 1)
                 = Fin (fl (c + - a) / (if Qeq_bool m 0 then 1 else m))).
  { destruct (Qeq_bool m 0) eqn:E; cbn [negb JS.div].
    - reflexivity.
    - rewrite E. reflexivity. }
  rewrite Ediv, (round_keeps _ Ht). fold t. cbn [JS.mul].
  rewrite (round_keeps _ Hp). cbn [JS.add].
  now rewrite (round_keeps _ Hr).
Qed.

Lemma scale_rounded_Fin (v a b lo hi : Q) :
  representable fl big lo ->
  Qabs (b + - a) <= big -> Qabs (hi + - lo) <= big ->
  Qabs (lo + fl (hi + - lo)) <= big ->
  Rounded.scale fl big (Fin v) (Fin a) (Fin b) (Fin lo) (Fin hi)
  = Fin (scaleR fl v a b lo hi).
Proof.
  intros [Hlo Hl] Hm Hd Ht.
  pose proof (quotient_range v a b) as Q01.
  pose proof (factorR_range v a b) as T. unfold factorR in T.
  assert (Dr : Qabs (fl (hi + - lo)) <= big) by now apply fl_in_range.
  assert (Dd : fl (fl (hi + - lo)) == fl (hi + - lo)) by apply (fl_idem fl big R).
  pose proof (big_one fl big R) as B1.
  apply (scale_rounded_run (clampQ v a b) a b lo hi (Fin v)).
  - apply clamp_Fin.
  - apply fl_in_range.
    destruct (clampQ_cases v a b) as [(_ & [L U] & _) | [_ C]].
    + apply Qabs_le_iff in Hm. apply Qabs_le_iff. lra.
    + rewrite C. apply Qabs_le_iff. lra.
  - now apply fl_in_range.
  - apply Qabs_le_iff. lra.
  - exact Dr.
  - apply fl_in_range. apply Qabs_le_iff in Dr. apply Qabs_le_iff. split; nra.
  - apply fl_in_range.
    set (t := fl (fl (clampQ v a b + - a)
                  / (if Qeq_bool (fl (b + - a)) 0 then 1 else fl (b + - a)))) in *.
    set (d := fl (hi + - lo)) in *.
    apply Qabs_le_iff in Hl. apply Qabs_le_iff in Ht. apply Qabs_le_iff.
    destruct (Qlt_le_dec d 0) as [S | S].
    + assert (P : d <= fl (t * d) <= 0).
      { split; [apply fl_above; [exact Dd | nra]
               | apply fl_below; [apply (fl_zero fl big R) | nra]]. }
      lra.
    + assert (P : 0 <= fl (t * d) <= d).
      { split; [apply fl_above; [apply (fl_zero fl big R) | nra]
               | apply fl_below; [exact Dd | nra]]. }
      lra.
Qed.

(** With the input bounds equal or reversed, the clamp returns the lower
    bound for every number. *)
Lemma clamp_flat (v : jsnum) (a b : Q) :
  b <= a -> v <> NaN ->
  exists c, Mapper.clamp v (Fin a) (Fin b) = Fin c /\ c == a.
Proof.
  intros H N. destruct v as [ | | | x]; [congruence | | | ].
  - unfold Mapper.clamp. cbn.
    destruct (Qle_bool a b) eqn:E; eexists; (split; [reflexivity |]).
    + apply Qle_bool_iff in E. lra.
    + reflexivity.
  - unfold Mapper.clamp. cbn. eexists. split; reflexivity.
  - rewrite clamp_Fin. eexists. split; [reflexivity |].
    destruct (clampQ_cases x a b) as [(Hab & [L U] & _) | [_ C]].
    + lra.
    + now rewrite C.
Qed.

Lemma scale_rounded_flat (v : jsnum) (a b lo hi : Q) :
  representable fl big lo -> b <= a -> v <> NaN ->
  Qabs (fl (b + - a)) <= big ->
  (Qabs (fl (hi + - lo)) <= big ->
   exists r, Rounded.scale fl big v (Fin a) (Fin b) (Fin lo) (Fin hi) = Fin r
             /\ r == lo)
  /\ (~ Qabs (fl (hi + - lo)) <= big ->
      Rounded.scale fl big v (Fin a) (Fin b) (Fin lo) (Fin hi) = NaN).
Proof.
  intros [Hlo Hl] H N Hm.
  destruct (clamp_flat v a b H N) as (c & Ec & Ca).
  assert (N0 : fl (c + - a) == 0).
  { apply fl_fix; [apply (fl_zero fl big R) | lra]. }
  set (m := fl (b + - a)) in *.
  assert (T0 : fl (fl (c + - a) / (if Qeq_bool m 0 then 1 else m)) == 0).
  { apply fl_fix; [apply (fl_zero fl big R) |].
    rewrite N0. unfold Qdiv. apply Qmult_0_l. }
  split.
  - intros Hd. eexists. split.
    + apply (scale_rounded_run c a b lo hi v Ec); fold m.
      * now apply Qabs_zero_le.
      * exact Hm.
      * now apply Qabs_zero_le.
      * exact Hd.
      * apply Qabs_zero_le. apply fl_fix; [apply (fl_zero fl big R) |].
        rewrite T0. apply Qmult_0_l.
      * assert (X : fl (lo + fl (fl (fl (c + - a)
                                      / (if Qeq_bool m 0 then 1 else m))
                                  * fl (hi + - lo))) == lo).
        { apply fl_fix; [exact Hlo |].
          assert (P : fl (fl (fl (c + - a) / (if Qeq_bool m 0 then 1 else m))
                          * fl (hi + - lo)) == 0).
          { apply fl_fix; [apply (fl_zero fl big R) |].
            rewrite T0. apply Qmult_0_l. }
          rewrite P. lra. }
        rewrite X. exact Hl.
    + fold m. apply fl_fix; [exact Hlo |].
      assert (P : fl (fl (fl (c + - a) / (if Qeq_bool m 0 then 1 else m))
                      * fl (hi + - lo)) == 0).
      { apply fl_fix; [apply (fl_zero fl big R) |].
        rewrite T0. apply Qmult_0_l. }
      rewrite P. lra.
  - intros Hd.
    unfold Rounded.scale, Rounded.add, Rounded.sub, Rounded.mul, Rounded.div.
    rewrite Ec. cbn [JS.sub JS.add JS.neg].
    rewrite (round_keeps (c + - a) (Qabs_zero_le _ N0)), (round_keeps (b + - a) Hm).
    unfold JS.or_else, JS.truthy. fold m.
    assert (Ediv : JS.div (Fin (fl (c + - a)))
                          (if negb (Qeq_bool m 0) then Fin m else Fin 1)
                   = Fin (fl (c + - a) / (if Qeq_bool m 0 then 1 else m))).
    { destruct (Qeq_bool m 0) eqn:E; cbn [negb JS.div].
      - reflexivity.
      - rewrite E. reflexivity. }
    rewrite Ediv, (round_keeps _ (Qabs_zero_le _ T0)).
    destruct (round_overflow (hi + - lo) Hd) as [E | E]; rewrite E;
      cbn [JS.mul]; unfold JS.inf_times;
      rewrite (proj2 (Qeq_bool_iff _ _) T0); reflexivity.
Qed.

End RoundedScale.

(** Exact arithmetic is a format. *)
Lemma exact_rounding (big : Q) : 1 <= big -> rounding (fun x => x) big.
Proof. intros H. constructor; intros; try reflexivity; assumption. Qed.

Lemma top_exact (lo hi : Q) : top (fun x => x) lo hi == hi.
Proof. unfold top. ring. Qed.

(** The sixteenths are a format. *)
Lemma floor_half (z : Z) : Qfloor (inject_Z z + (1 # 2)) = z.
Proof.
  pose proof (Qfloor_le (inject_Z z + (1 # 2))) as L.
  pose proof (Qlt_floor (inject_Z z + (1 # 2))) as U.
  set (f := Qfloor (inject_Z z + (1 # 2))) in *.
  assert (A : (f < z + 1)%Z).
  { rewrite Zlt_Qlt, inject_Z_plus. change (inject_Z 1) with 1. lra. }
  assert (B : (z < f + 1)%Z).
  { rewrite Zlt_Qlt. lra. }
  lia.
Qed.

Lemma sixteenth_grid (z : Z) : sixteenth (inject_Z z / 16) == inject_Z z / 16.
Proof.
  unfold sixteenth.
  assert (E : inject_Z z / 16 * 16 + (1 # 2) == inject_Z z + (1 # 2))
    by (field).
  rewrite (Qfloor_comp _ _ E), floor_half. reflexivity.
Qed.

Lemma sixteenth_rounding : rounding sixteenth 1000.
Proof.
  constructor.
  - intros x y H. unfold sixteenth.
    apply Qmult_le_compat_r; [| discriminate].
    rewrite <- Zle_Qle. apply Qfloor_resp_le. lra.
  - intros x. unfold sixteenth at 2 3. apply sixteenth_grid.
  - reflexivity.
  - reflexivity.
  - reflexivity.
  - reflexivity.
  - discriminate.
Qed.

(** C2, the counterexample.  In binary64 [scale(100, 0, 100, 1.2, 0.45)],
    the decay of a pluck at tension 100, is 0.44999999999999996, below
    both output bounds; and [scale(0, 0, 100, -1e308, 1e308)] is NaN,
    because the difference of the output bounds overflows. *)
#[warnings="-inexact-float"]
Lemma scale_leaves_range_by_rounding :
  PrimFloat.ltb (Double.scale 100 0 100 1.2 0.45) 0.45 = true
  /\ PrimFloat.ltb (Double.scale 100 0 100 1.2 0.45) 1.2 = true
  /\ PrimFloat.is_nan (Double.scale 0 0 100 (-1e308) 1e308) = true.
Proof. repeat split; vm_compute; reflexivity. Qed.

(** C2, amended.  In any format, on finite numbers and as long as no
    difference of bounds overflows, [scale] returns finite numbers, is
    monotone in [v] (non-decreasing when [outLo <= outHi], non-increasing
    when [outHi <= outLo]) and lies between [outLo] and
    [top = fl (outLo + fl (outHi - outLo))], the value it takes at the top
    of the input range; for [v <= inLo] and with [inHi <= inLo] it is
    [outLo].  [top] is [outHi] in exact arithmetic and may miss it by a
    rounding error otherwise. *)
Theorem scale_bounded_and_monotone
    (fl : Q -> Q) (big : Q) (v w inLo inHi outLo outHi : Q) :
  rounding fl big ->
  representable fl big outLo ->
  Qabs (inHi - inLo) <= big ->
  Qabs (outHi - outLo) <= big ->
  Qabs (outLo + fl (outHi - outLo)) <= big ->
  v <= w ->
  exists r s : Q,
    Rounded.scale fl big (Fin v) (Fin inLo) (Fin inHi) (Fin outLo) (Fin outHi)
      = Fin r
    /\ Rounded.scale fl big (Fin w) (Fin inLo) (Fin inHi) (Fin outLo) (Fin outHi)
      = Fin s
    /\ (outLo <= outHi -> outLo <= r /\ r <= s /\ s <= top fl outLo outHi)
    /\ (outHi <= outLo -> top fl outLo outHi <= s /\ s <= r /\ r <= outLo)
    /\ (v <= inLo \/ inHi <= inLo -> r == outLo)
    /\ (inLo < inHi -> ~ fl (inHi - inLo) == 0 -> inHi <= w ->
        s == top fl outLo outHi)
    /\ top (fun x => x) outLo outHi == outHi.
Proof.
  intros R L Ha Hd Ht Hvw. unfold Qminus in *.
  exists (scaleR fl v inLo inHi outLo outHi), (scaleR fl w inLo inHi outLo outHi).
  split; [now apply (scale_rounded_Fin fl big R) |].
  split; [now apply (scale_rounded_Fin fl big R) |].
  destruct L as [L _].
  pose proof (scaleR_range fl big R v inLo inHi outLo outHi L) as [Rv1 Rv2].
  pose proof (scaleR_range fl big R w inLo inHi outLo outHi L) as [Rw1 Rw2].
  pose proof (scaleR_mono fl big R v w inLo inHi outLo outHi Hvw) as [M1 M2].
  repeat split.
  - now apply Rv1.
  - now apply M1.
  - now apply Rw1.
  - now apply Rw2.
  - now apply M2.
  - now apply Rv2.
  - intros. now apply (scaleR_flat fl big R).
  - intros. now apply (scaleR_full fl big R).
  - apply top_exact.
Qed.

(** The theorem in the format of the sixteenths up to 1000, for a mapping
    from [0, 100] down from 3 to 1/2, at 25 and 50. *)
Lemma scale_bounded_and_monotone_witness :
  exists r s : Q,
    Rounded.scale sixteenth 1000 (Fin 25) (Fin 0) (Fin 100) (Fin 3) (Fin (1 # 2))
      = Fin r
    /\ Rounded.scale sixteenth 1000 (Fin 50) (Fin 0) (Fin 100) (Fin 3) (Fin (1 # 2))
      = Fin s
    /\ s <= r /\ r <= 3.
Proof.
  destruct (scale_bounded_and_monotone sixteenth 1000 25 50 0 100 3 (1 # 2))
    as (r & s & Er & Es & _ & D & _).
  - exact sixteenth_rounding.
  - split; vm_compute; [reflexivity | discriminate].
  - vm_compute. discriminate.
  - vm_compute. discriminate.
  - vm_compute. discriminate.
  - vm_compute. discriminate.
  - exists r, s. split; [exact Er |]. split; [exact Es |].
    apply D. vm_compute. discriminate.
Defined.

(** In binary64, at every call of [scale] in the file and every slider
    position 0, 1, ..., 100: the values are monotone in the direction of
    the output bounds, equal [outLo] at 0 and lie between [outLo] and the
    value at 100.  At two of the call sites, the decay times of the
    texture and of the pluck, the value at 100 is not [outHi]. *)
#[warnings="-inexact-float"]
Lemma scale_at_the_sliders :
  forallb site_ok call_sites = true
  /\ sites_missing_top
     = [(1.6, 0.6); (1.2, 0.45)]%float.
Proof. split; vm_compute; reflexivity. Qed.

(** C9, amended.  When [inMin = inMax] the divisor is the guard value 1 and
    the interpolation factor is 0, in any format.  [scale] then returns
    [outLo], for every input other than NaN (the infinities included),
    provided [outLo] is a number of the format and [outHi - outLo] does not
    overflow; when it overflows, the result is NaN (0 times an infinity). *)
Theorem scale_degenerate_input_range
    (fl : Q -> Q) (big : Q) (v : jsnum) (a outLo outHi : Q) :
  rounding fl big ->
  representable fl big outLo ->
  v <> NaN ->
  JS.or_else (Rounded.sub fl big (Fin a) (Fin a)) (Fin 1) = Fin 1
  /\ (Qabs (fl (outHi - outLo)) <= big ->
      JS.eqv (Rounded.scale fl big v (Fin a) (Fin a) (Fin outLo) (Fin outHi))
             (Fin outLo))
  /\ (~ Qabs (fl (outHi - outLo)) <= big ->
      Rounded.scale fl big v (Fin a) (Fin a) (Fin outLo) (Fin outHi) = NaN).
Proof.
  intros R L N. unfold Qminus.
  assert (Z0 : fl (a + - a) == 0).
  { apply (fl_fix fl big R); [apply (fl_zero fl big R) | lra]. }
  split.
  - unfold Rounded.sub. cbn [JS.sub JS.add JS.neg].
    rewrite (round_keeps fl big (a + - a) (Qabs_zero_le fl big R _ Z0)).
    unfold JS.or_else, JS.truthy.
    now rewrite (proj2 (Qeq_bool_iff _ _) Z0).
  - destruct (scale_rounded_flat fl big R v a a outLo outHi L (Qle_refl a) N
                (Qabs_zero_le fl big R _ Z0)) as [F O].
    split; [| exact O].
    intros H. destruct (F H) as (r & E & Q). rewrite E. exact Q.
Qed.

(** The theorem at +Infinity, in the format of the sixteenths. *)
Lemma scale_degenerate_input_range_witness :
  JS.eqv (Rounded.scale sixteenth 1000 PInf (Fin 5) (Fin 5) (Fin 1) (Fin 2))
         (Fin 1).
Proof.
  apply (scale_degenerate_input_range sixteenth 1000 PInf 5 1 2).
  - exact sixteenth_rounding.
  - split; vm_compute; [reflexivity | discriminate].
  - discriminate.
  - vm_compute. discriminate.
Defined.

(** In binary64, at the bounds of the pulse interval and of the pluck
    decay: equal input bounds give [outLo]. *)
#[warnings="-inexact-float"]
Lemma scale_degenerate_double :
  PrimFloat.eqb (Double.scale 7 5 5 1600 420) 1600 = true
  /\ PrimFloat.eqb (Double.scale infinity 5 5 1.2 0.45) 1.2 = true.
Proof. repeat split; vm_compute; reflexivity. Qed.

(** X4.  With the input bounds reversed ([inMax < inMin]), [scale] maps
    every input other than NaN to [outMin], in any format: the clamp
    returns [inMin], so the interpolation factor is 0.  [outMin] is a number
    of the format and neither difference of bounds overflows; when
    [outMax - outMin] overflows the result is NaN. *)
Theorem scale_reversed_input_range
    (fl : Q -> Q) (big : Q) (v : jsnum) (inMin inMax outMin outMax : Q) :
  rounding fl big ->
  representable fl big outMin ->
  Qabs (fl (inMax - inMin)) <= big ->
  inMax < inMin -> v <> NaN ->
  (Qabs (fl (outMax - outMin)) <= big ->
   JS.eqv (Rounded.scale fl big v (Fin inMin) (Fin inMax)
                         (Fin outMin) (Fin outMax))
          (Fin outMin))
  /\ (~ Qabs (fl (outMax - outMin)) <= big ->
      Rounded.scale fl big v (Fin inMin) (Fin inMax) (Fin outMin) (Fin outMax)
      = NaN).
Proof.
  intros R L Hi H N. unfold Qminus in *.
  destruct (scale_rounded_flat fl big R v inMin inMax outMin outMax L
              (Qlt_le_weak _ _ H) N Hi) as [F O].
  split; [| exact O].
  intros Ho. destruct (F Ho) as (r & E & Q). rewrite E. exact Q.
Qed.

Lemma scale_reversed_input_range_witness :
  JS.eqv (Rounded.scale sixteenth 1000 (Fin 50) (Fin 100) (Fin 0) (Fin 900) (Fin 420))
         (Fin 900).
Proof.
  apply (scale_reversed_input_range sixteenth 1000 (Fin 50) 100 0 900 420).
  - exact sixteenth_rounding.
  - split; vm_compute; [reflexivity | discriminate].
  - vm_compute. discriminate.
  - reflexivity.
  - discriminate.
  - vm_compute. discriminate.
Defined.

(** What else rounding changes, in binary64: the decay of a texture at
    tension 100 is above 0.6; two inputs closer than a rounding error
    have the same image; the largest draw below 2/3, times 3, is 2; and
    the centre frequency of a texture at tension 5 with the largest draw
    below 1 is 621, which is 1.15 times its base 540. *)
#[warnings="-inexact-float"]
Lemma scale_in_binary64 :
  PrimFloat.ltb 0.6 (Double.scale 100 0 100 1.6 0.6) = true
  /\ PrimFloat.eqb (Double.scale 1e-300 0 100 1600 420)
                   (Double.scale 0 0 100 1600 420) = true
  /\ PrimFloat.eqb (0.6666666666666666 * 3)%float 2 = true
  /\ PrimFloat.eqb (Double.scale 5 0 100 400 3200) 540 = true
  /\ PrimFloat.eqb (Double.scale 5 0 100 400 3200
                    * (1 + (0.9999999999999999 - 0.5) * 0.3))%float
                   621 = true
  /\ PrimFloat.eqb (1.15 * 540)%float 621 = true.
Proof. repeat split; vm_compute; reflexivity. Qed.

(* ================================================================== *)
(** * The program on a host that checks its arguments *)

(* ------------------------------------------------------------------ *)
(** ** The host's checks *)

Lemma number_finite (a : jsnum) : Host.finite a = true -> Host.number a = ret tt.
Proof. intros H. unfold Host.number. now rewrite H. Qed.

Lemma nonneg_finite (a : jsnum) : nonneg a = true -> Host.finite a = true.
Proof. now destruct a. Qed.

Lemma not_negative_nonneg (a : jsnum) :
  nonneg a = true -> Host.not_negative a = ret tt.
Proof.
  intros H. unfold Host.not_negative.
  destruct a as [ | | | q]; try discriminate.
  cbn in H. apply Qle_bool_iff in H.
  assert (E : JS.lt (Fin q) 0 = false).
  { cbn. unfold JS.Qltb. apply negb_false_iff, Qle_bool_iff. exact H. }
  now rewrite E.
Qed.

Lemma nonneg_Fin (q : Q) : 0 <= q -> nonneg (Fin q) = true.
Proof. intros H. cbn. now apply Qle_bool_iff. Qed.

Lemma nonneg_add (a : jsnum) (q d : Q) :
  a = Fin q -> 0 <= q -> 0 <= d -> nonneg (JS.add a (Fin d)) = true.
Proof. intros -> H D. cbn. apply Qle_bool_iff. lra. Qed.

Lemma float_fits (a : jsnum) : Host.fits_float a = true -> Host.float a = ret tt.
Proof. intros H. unfold Host.float. now rewrite H. Qed.

Lemma fits_float_Fin (q : Q) : in_float_range q -> Host.fits_float (Fin q) = true.
Proof.
  intros H. unfold Host.fits_float, JS.Qltb. apply negb_true_iff.
  destruct (Qle_bool Host.float_limit (Qabs q)) eqn:E; [| reflexivity].
  apply Qle_bool_iff in E. apply Qabs_Qlt_condition in H.
  exfalso. now apply (Qlt_not_le _ _ H).
Qed.

Lemma host_set_value_finite i p v :
  Host.fits_float v = true -> Host.set_value i p v = WebAudio.set_value i p v.
Proof. intros H. unfold Host.set_value. now rewrite (float_fits v H). Qed.

Lemma host_schedule_accepted i p e :
  accepted e = true -> Host.schedule i p e = WebAudio.schedule i p e.
Proof.
  intros H. unfold Host.schedule.
  destruct e as [v t | v t | v t | v t k]; cbn in H;
    repeat (apply andb_true_iff in H; destruct H as [H ?]).
  - now rewrite (float_fits v H), (number_finite t (nonneg_finite t H0)),
                (not_negative_nonneg t H0).
  - now rewrite (float_fits v H), (number_finite t (nonneg_finite t H0)),
                (not_negative_nonneg t H0).
  - unfold Host.not_zero.
    now rewrite (float_fits v H), (number_finite t (nonneg_finite t H0)),
                (not_negative_nonneg t H0), H1.
  - apply andb_true_iff in H0. destruct H0 as [Fk Nk].
    now rewrite (float_fits v H), (number_finite t (nonneg_finite t H1)),
                (float_fits k Fk),
                (not_negative_nonneg t H1), (not_negative_nonneg k Nk).
Qed.

Lemma host_cancel_nonneg i p t :
  nonneg t = true ->
  Host.cancelScheduledValues i p t = WebAudio.cancelScheduledValues i p t.
Proof.
  intros H. unfold Host.cancelScheduledValues.
  now rewrite (number_finite t (nonneg_finite t H)), (not_negative_nonneg t H).
Qed.

Lemma host_set_value_grown c ns ws k p v x :
  nth_error ns k = Some x -> Host.fits_float v = true ->
  Host.set_value (List.length (nodes c) + k) p v (grown c ns ws)
  = Ok tt (grown c
             (list_set k
                (map_param p (fun a => mkParam v (maxValue a) (timeline a)) x)
                ns)
             ws).
Proof.
  intros H F. rewrite (host_set_value_finite _ _ _ F).
  now apply set_value_grown.
Qed.

Lemma host_schedule_grown c ns ws k p e x :
  nth_error ns k = Some x -> accepted e = true ->
  Host.schedule (List.length (nodes c) + k) p e (grown c ns ws)
  = Ok tt (grown c
             (list_set k
                (map_param p
                   (fun a => mkParam (value a) (maxValue a) (timeline a ++ [e]))
                   x)
                ns)
             ws).
Proof.
  intros H F. rewrite (host_schedule_accepted _ _ _ F).
  now apply schedule_grown.
Qed.

Lemma host_start_grown c ns ws k when x :
  nth_error ns k = Some x -> started x = None -> nonneg when = true ->
  Host.start (List.length (nodes c) + k) when (grown c ns ws)
  = Ok tt (grown c (list_set k (mark_started when x) ns) ws).
Proof.
  intros H S F. unfold Host.start.
  rewrite (number_finite when (nonneg_finite when F)).
  unfold bind at 1. cbn [ret].
  unfold bind at 1. rewrite (node_at_grown _ _ _ _ _ H), S.
  rewrite (not_negative_nonneg when F).
  unfold bind at 1. cbn [ret].
  now apply start_grown.
Qed.

Lemma host_stop_grown c ns ws k when x t0 :
  nth_error ns k = Some x -> started x = Some t0 -> nonneg when = true ->
  Host.stop (List.length (nodes c) + k) when (grown c ns ws)
  = Ok tt (grown c (list_set k (mark_stopped when x) ns) ws).
Proof.
  intros H S F. unfold Host.stop.
  rewrite (number_finite when (nonneg_finite when F)).
  unfold bind at 1. cbn [ret].
  unfold bind at 1. rewrite (node_at_grown _ _ _ _ _ H), S.
  rewrite (not_negative_nonneg when F).
  unfold bind at 1. cbn [ret].
  now apply (stop_grown _ _ _ _ _ _ t0).
Qed.

Lemma scale_any_between_rev (v : jsnum) (lo hi : Q) :
  v <> NaN -> hi <= lo ->
  exists q, Mapper.scale v 0 100 (Fin lo) (Fin hi) = Fin q /\ hi <= q <= lo.
Proof.
  intros N H.
  destruct (nearest v) as [x | ] eqn:E; [| destruct v; try discriminate; congruence].
  destruct (clamp_nearest v x E) as (E1 & E2 & R).
  exists (scaleQ x 0 100 lo hi). split.
  - transitivity (Mapper.scale (Fin x) 0 100 (Fin lo) (Fin hi)).
    + unfold Mapper.scale. now rewrite E1, E2.
    + apply scale_Fin.
  - now apply scaleQ_between.
Qed.

(** Side conditions of the host's checks, from what is known about the
    mapped values and the trigger time. *)
Ltac valid :=
  repeat match goal with
         | H : Mapper.scale _ _ _ _ _ = Fin _ |- _ => rewrite !H
         | H : JS.or_else _ _ = Fin _ |- _ => rewrite !H
         | H : pluck_frequency _ _ _ = Fin _ |- _ => rewrite !H
         | H : currentTime _ = Fin _ |- _ => rewrite !H
         end;
  cbn [accepted nonneg JS.add JS.mul JS.sub JS.neg];
  rewrite ?andb_true_iff; repeat split;
  first [ reflexivity
        | apply Qle_bool_iff; lra
        | apply fits_float_Fin;
          first [ assumption
                | unfold in_float_range, Host.float_limit; split;
                  first [lra | nra] ] ].

Ltac hexec_step :=
  first
    [ exec_step
    | erewrite host_set_value_grown by first [reflexivity | valid]
    | erewrite host_schedule_grown by first [reflexivity | valid]
    | erewrite host_start_grown by first [reflexivity | valid]
    | erewrite host_stop_grown by first [reflexivity | valid] ].

Ltac hexec :=
  repeat (cbv beta iota zeta
              delta [bind ret index Reverb.taps mapM forEach forEach_from
                     nth_error];
          hexec_step;
          cbn [List.length app list_set nth_error]).

(** *** The triggers on the checking host *)

(** With a trigger time that is finite and not negative and a tension
    other than NaN, the host accepts every call of a texture trigger: it
    runs as on a host without checks. *)
Lemma texture_trigger_accepted (c : AudioContext) (x : Texture.t)
    (r t : Q) (time tension : jsnum) :
  JS.or_else time (currentTime c) = Fin t -> 0 <= t -> tension <> NaN ->
  0 <= r -> r < 1 ->
  Checked.texture_trigger x (Fin r) time tension (grown c [] [])
  = Texture.trigger x (Fin r) time tension (grown c [] []).
Proof.
  intros T T0 N R0 R1'.
  destruct (scale_any_between tension 400 3200 N) as (q1 & E1 & R1);
    [discriminate |].
  destruct (scale_any_between tension 2 8 N) as (q2 & E2 & R2);
    [discriminate |].
  destruct (scale_any_between tension 0.12 0.35 N) as (q3 & E3 & R3);
    [discriminate |].
  destruct (scale_any_between_rev tension 1.6 0.6 N) as (q4 & E4 & R4);
    [discriminate |].
  rewrite texture_trigger_closed.
  unfold Checked.texture_trigger, Api.texture_trigger,
         createBufferSource, createBiquadFilter, createGain.
  hexec. reflexivity.
Qed.

Lemma pluck_trigger_accepted pow (c : AudioContext) (y : Pluck.t)
    (t f : Q) (r1 r2 r3 time tension : jsnum) :
  JS.or_else time (currentTime c) = Fin t -> 0 <= t -> tension <> NaN ->
  pluck_frequency pow r2 r3 = Fin f -> in_float_range f ->
  Checked.pluck_trigger pow y r1 r2 r3 time tension (grown c [] [])
  = Pluck.trigger pow y r1 r2 r3 time tension (grown c [] []).
Proof.
  intros T T0 N F Ff.
  destruct (scale_any_between tension 0.06 0.18 N) as (q3 & E3 & R3);
    [discriminate |].
  destruct (scale_any_between_rev tension 1.2 0.45 N) as (q4 & E4 & R4);
    [discriminate |].
  rewrite pluck_trigger_closed.
  unfold Checked.pluck_trigger, Api.pluck_trigger,
         createOscillator, createBiquadFilter, createGain.
  fold (pluck_frequency pow r2 r3).
  hexec. reflexivity.
Qed.

Lemma pulse_trigger_accepted (c : AudioContext) (p : Pulse.t) (t : Q)
    (time : jsnum) :
  JS.or_else time (currentTime c) = Fin t -> 0 <= t ->
  Checked.pulse_trigger p time c = Pulse.trigger p time c.
Proof.
  intros T T0.
  unfold Checked.pulse_trigger, Api.pulse_trigger, Pulse.trigger.
  unfold bind at 1. unfold now at 1.
  symmetry. unfold bind at 1. unfold now at 1. symmetry.
  cbv zeta.
  rewrite !host_cancel_nonneg by valid.
  rewrite !host_schedule_accepted by valid.
  reflexivity.
Qed.

(** A negative trigger time is refused at the first call, and so is an
    infinite one; nothing is cancelled or scheduled. *)
Lemma pulse_trigger_refused (c : AudioContext) (p : Pulse.t) :
  (forall q : Q, q < 0 ->
     Checked.pulse_trigger p (Fin q) c = Throw RangeError c)
  /\ Checked.pulse_trigger p PInf c = Throw TypeError c
  /\ Checked.pulse_trigger p NInf c = Throw TypeError c.
Proof.
  split; [| split; reflexivity].
  intros q H.
  unfold Checked.pulse_trigger, Api.pulse_trigger.
  unfold bind at 1. unfold now at 1. cbv zeta.
  assert (E : JS.or_else (Fin q) (currentTime c) = Fin q).
  { unfold JS.or_else. cbn.
    destruct (Qeq_bool q 0) eqn:Z; [| reflexivity].
    apply Qeq_bool_iff in Z. lra. }
  rewrite E. unfold bind at 1. unfold Host.cancelScheduledValues.
  unfold bind at 1. cbn [Host.number Host.finite ret].
  unfold bind at 1. unfold Host.not_negative.
  assert (L : JS.lt (Fin q) 0 = true).
  { cbn. unfold JS.Qltb. apply negb_true_iff.
    destruct (Qle_bool 0 q) eqn:Z; [| reflexivity].
    apply Qle_bool_iff in Z. lra. }
  now rewrite L.
Qed.

Lemma setTension_accepted (tension : jsnum) (d : Drone.t) (c : AudioContext)
    (t : Q) :
  currentTime c = Fin t -> 0 <= t -> tension <> NaN ->
  (Drone.lpf d < List.length (nodes c))%nat ->
  (Drone.gain d < List.length (nodes c))%nat ->
  Checked.setTension tension (d, c) = Drone.setTension tension (d, c).
Proof.
  intros T T0 N Hl Hg.
  destruct (scale_any_between tension 260 1800 N) as (q1 & E1 & R1);
    [discriminate |].
  destruct (scale_any_between tension 0.1 0.2 N) as (q2 & E2 & R2);
    [discriminate |].
  rewrite setTension_run by assumption.
  cbv beta iota zeta delta [Checked.setTension Api.setTension bind get
                            Drone.on_ctx zoom now fst snd].
  rewrite host_schedule_accepted by valid.
  rewrite schedule_target by exact Hl. cbv beta iota.
  cbn [currentTime with_nodes].
  rewrite host_schedule_accepted by valid.
  rewrite (schedule_target_again c) by (now rewrite length_target).
  reflexivity.
Qed.

(** C5, amended.  On a host that checks its arguments, a call of
    [trigger] whose time [t = time || ctx.currentTime] is finite and not
    negative returns; it removes from the timelines of the oscillator
    frequency and of the gain the events whose time is [t] or later, keeps
    the earlier ones, and appends: on the frequency, 60 Hz set at [t] and
    an exponential ramp to 40 Hz ending at [t + 0.09]; on the gain, 0 set
    at [t], a linear ramp to 0.6 ending at [t + 0.01] and an exponential
    ramp to 0.0001 ending at [t + 0.6].  A call with a negative time
    raises RangeError and one with an infinite time TypeError, at the
    first [cancelScheduledValues]: nothing is cancelled or scheduled. *)
Theorem pulse_trigger_reschedules
    (c : AudioContext) (p : Pulse.t) (time : jsnum) (o g : node) (t : Q) :
  nth_error (nodes c) (Pulse.osc p) = Some o ->
  nth_error (nodes c) (Pulse.gain p) = Some g ->
  Pulse.osc p <> Pulse.gain p ->
  JS.or_else time (currentTime c) = Fin t ->
  0 <= t ->
  (exists c' o' g',
     Checked.pulse_trigger p time c = Ok tt c'
     /\ nth_error (nodes c') (Pulse.osc p) = Some o'
     /\ nth_error (nodes c') (Pulse.gain p) = Some g'
     /\ timeline (p_frequency o')
        = filter (fun e => JS.lt (event_time e) (Fin t))
                 (timeline (p_frequency o))
          ++ [SetValueAtTime 60 (Fin t);
              ExponentialRampToValueAtTime 40 (JS.add (Fin t) 0.09)]
     /\ timeline (p_gain g')
        = filter (fun e => JS.lt (event_time e) (Fin t)) (timeline (p_gain g))
          ++ [SetValueAtTime 0 (Fin t);
              LinearRampToValueAtTime 0.6 (JS.add (Fin t) 0.01);
              ExponentialRampToValueAtTime 0.0001 (JS.add (Fin t) 0.6)])
  /\ (forall q : Q, q < 0 ->
        Checked.pulse_trigger p (Fin q) c = Throw RangeError c)
  /\ Checked.pulse_trigger p PInf c = Throw TypeError c
  /\ Checked.pulse_trigger p NInf c = Throw TypeError c.
Proof.
  intros Ho Hg Hne T T0. split; [| apply pulse_trigger_refused].
  do 3 eexists. split.
  - rewrite (pulse_trigger_accepted c p t time T T0).
    apply (pulse_trigger_spec c p time o g Ho Hg Hne).
  - rewrite T. cbn [nodes with_nodes]. split; [| split].
    + rewrite nth_error_list_set_other by congruence.
      eapply nth_error_list_set_same. exact Ho.
    + eapply nth_error_list_set_same.
      rewrite nth_error_list_set_other by exact Hne. exact Hg.
    + split; reflexivity.
Qed.

(** The theorem at a new pulse layer, triggered for time 1. *)
Lemma pulse_trigger_reschedules_witness :
  Pulse.osc demo_pulse <> Pulse.gain demo_pulse
  /\ exists c' o' g',
       Checked.pulse_trigger demo_pulse 1 demo_pulse_ctx = Ok tt c'
       /\ nth_error (nodes c') (Pulse.osc demo_pulse) = Some o'
       /\ nth_error (nodes c') (Pulse.gain demo_pulse) = Some g'
       /\ timeline (p_frequency o')
          = [SetValueAtTime 60 1;
             ExponentialRampToValueAtTime 40 (JS.add 1 0.09)]
       /\ timeline (p_gain g')
          = [SetValueAtTime 0 1;
             LinearRampToValueAtTime 0.6 (JS.add 1 0.01);
             ExponentialRampToValueAtTime 0.0001 (JS.add 1 0.6)].
Proof.
  assert (N : Pulse.osc demo_pulse <> Pulse.gain demo_pulse)
    by (vm_compute; discriminate).
  split; [exact N |].
  destruct (nth_error (nodes demo_pulse_ctx) (Pulse.osc demo_pulse)) as [o | ] eqn:Ho;
    [| vm_compute in Ho; discriminate].
  destruct (nth_error (nodes demo_pulse_ctx) (Pulse.gain demo_pulse)) as [g | ] eqn:Hg;
    [| vm_compute in Hg; discriminate].
  destruct (pulse_trigger_reschedules demo_pulse_ctx demo_pulse 1 o g 1 Ho Hg N)
    as [(c' & o' & g' & E & Eo & Eg & To & Tg) _].
  - reflexivity.
  - discriminate.
  - exists c', o', g'. repeat split; try assumption.
    + rewrite To. vm_compute in Ho. inversion Ho; subst. reflexivity.
    + rewrite Tg. vm_compute in Hg. inversion Hg; subst. reflexivity.
Defined.




(** X7.  On a host that checks its arguments, a texture trigger whose
    time [t = time || ctx.currentTime] is finite and not negative, with a
    tension other than NaN and a random draw in [[0, 1)], returns and adds
    exactly three nodes (the buffer source, started at [t] and stopped at
    [t + 2]; a band-pass filter; an envelope gain with its three scheduled
    events) and the four connections source -> filter -> envelope ->
    reverb input and dry bus.  It touches no other node, neither the clock
    nor the closed flag.  [t] is the context's current time when the
    [time] argument is falsy (0 or NaN), else [time]. *)
Theorem texture_trigger_adds_one_voice (c : AudioContext) (x : Texture.t)
    (time tension : jsnum) (r t : Q) :
  JS.or_else time (currentTime c) = Fin t ->
  0 <= t ->
  tension <> NaN ->
  0 <= r -> r < 1 ->
  let n := List.length (nodes c) in
  exists c',
    Checked.texture_trigger x (Fin r) time tension c = Ok tt c'
    /\ nodes c' = nodes c ++ texture_voice (Fin t) tension (Fin r)
    /\ wires c' = wires c ++ [(n, In (n + 1)); (n + 1, In (n + 2));
                              (n + 2, In (Texture.reverbIn x));
                              (n + 2, In (Texture.dry x))]%nat
    /\ currentTime c' = currentTime c /\ closed c' = closed c
    /\ (JS.truthy time = false -> Fin t = currentTime c)
    /\ (JS.truthy time = true -> Fin t = time).
Proof.
  intros T T0 N R0 R1 n.
  pose proof (texture_trigger_accepted c x r t time tension T T0 N R0 R1) as A.
  rewrite texture_trigger_closed in A. rewrite <- grown_nil in A.
  cbv zeta in A. rewrite T in A.
  rewrite Nat.add_0_r in A. fold n in A.
  eexists. split; [exact A |].
  repeat split; rewrite <- T; unfold JS.or_else; intros E; now rewrite E.
Qed.

Lemma texture_trigger_adds_one_voice_witness :
  exists c',
    Checked.texture_trigger (Texture.mk 0 0 88200) 0.3 0 70 (new_context 44100)
    = Ok tt c'
    /\ List.length (nodes c') = 4%nat
    /\ Fin 0 = currentTime (new_context 44100).
Proof.
  pose proof (texture_trigger_adds_one_voice (new_context 44100)
                (Texture.mk 0 0 88200) 0 70 0.3 0) as H.
  destruct H as (c' & E & N & _ & _ & _ & F & _).
  - reflexivity.
  - discriminate.
  - discriminate.
  - discriminate.
  - reflexivity.
  - exists c'. split; [exact E |]. split; [now rewrite N |].
    apply F. reflexivity.
Defined.

(** X9.  On a host that checks its arguments, a pluck trigger whose time
    [t = time || ctx.currentTime] is finite and not negative, with a
    tension other than NaN and an oscillator frequency that is finite as
    a binary32 number, returns and adds exactly three nodes (an oscillator started at [t] and stopped at
    [t + 2], square when the first draw is below 0.5 and triangle
    otherwise; an envelope gain; a high-pass filter at 600 Hz) and the
    four connections oscillator -> filter -> envelope -> reverb input and
    dry bus.  [t] is the current time when [time] is falsy, else
    [time]. *)
Theorem pluck_trigger_adds_one_voice pow (c : AudioContext) (y : Pluck.t)
    (r1 r2 r3 time tension : jsnum) (t f : Q) :
  JS.or_else time (currentTime c) = Fin t ->
  0 <= t ->
  tension <> NaN ->
  pluck_frequency pow r2 r3 = Fin f -> in_float_range f ->
  let n := List.length (nodes c) in
  exists c',
    Checked.pluck_trigger pow y r1 r2 r3 time tension c = Ok tt c'
    /\ nodes c' = nodes c ++ pluck_voice pow (Fin t) tension r1 r2 r3
    /\ wires c' = wires c ++ [(n, In (n + 2)); (n + 2, In (n + 1));
                              (n + 1, In (Pluck.reverbIn y));
                              (n + 1, In (Pluck.dry y))]%nat
    /\ currentTime c' = currentTime c /\ closed c' = closed c
    /\ (JS.truthy time = false -> Fin t = currentTime c)
    /\ (JS.truthy time = true -> Fin t = time).
Proof.
  intros T T0 N F Ff n.
  pose proof (pluck_trigger_accepted pow c y t f r1 r2 r3 time tension T T0 N F
                Ff) as A.
  rewrite pluck_trigger_closed in A. rewrite <- grown_nil in A.
  cbv zeta in A. rewrite T in A.
  rewrite Nat.add_0_r in A. fold n in A.
  eexists. split; [exact A |].
  repeat split; rewrite <- T; unfold JS.or_else; intros E; now rewrite E.
Qed.

Lemma pluck_trigger_adds_one_voice_witness :
  exists c',
    Checked.pluck_trigger pow_chord (Pluck.mk 0 0) 0.3 0.5 0.9 2 70
                          (new_context 44100)
    = Ok tt c'
    /\ List.length (nodes c') = 4%nat
    /\ Fin 2 = 2.
Proof.
  epose proof (pluck_trigger_adds_one_voice pow_chord (new_context 44100)
                 (Pluck.mk 0 0) 0.3 0.5 0.9 2 70 2 _) as H.
  destruct H as (c' & E & N & _ & _ & _ & _ & F).
  - reflexivity.
  - discriminate.
  - discriminate.
  - vm_compute. reflexivity.
  - split; reflexivity.
  - exists c'. split; [exact E |]. split; [now rewrite N |].
    apply F. reflexivity.
Defined.

(** X21.  On a host that checks its arguments, with the clock at a finite
    time that is not negative and a tension other than NaN, [setTension]
    on a drone whose filter and gain nodes exist returns and appends one
    set-target event to the filter frequency (target
    [scale(tension, 0, 100, 260, 1800)], in [[260, 1800]]) and one to the
    gain (target [scale(tension, 0, 100, 0.1, 0.2)], in [[0.1, 0.2]]),
    both starting at the current time with time constant 0.5.  It leaves
    the values of both parameters, every other node, the connections and
    the clock as they are.  With a NaN tension it raises TypeError and
    schedules nothing. *)
Theorem setTension_schedules_targets (tension : jsnum) (d : Drone.t)
    (c : AudioContext) (f g : node) (t : Q) :
  nth_error (nodes c) (Drone.lpf d) = Some f ->
  nth_error (nodes c) (Drone.gain d) = Some g ->
  Drone.lpf d <> Drone.gain d ->
  currentTime c = Fin t ->
  0 <= t ->
  (tension <> NaN ->
   exists c' (cutoff level : Q),
     Checked.setTension tension (d, c) = Ok tt (d, c')
     /\ Mapper.scale tension 0 100 260 1800 = Fin cutoff
     /\ Mapper.scale tension 0 100 0.1 0.2 = Fin level
     /\ 260 <= cutoff <= 1800 /\ 0.1 <= level <= 0.2
     /\ param_of (Drone.lpf d) Frequency c'
        = Some (with_event (SetTargetAtTime (Fin cutoff) (Fin t) 0.5)
                           (p_frequency f))
     /\ param_of (Drone.gain d) Gain_ c'
        = Some (with_event (SetTargetAtTime (Fin level) (Fin t) 0.5)
                           (p_gain g))
     /\ (forall i, i <> Drone.lpf d -> i <> Drone.gain d ->
                   nth_error (nodes c') i = nth_error (nodes c) i)
     /\ wires c' = wires c /\ currentTime c' = currentTime c
     /\ closed c' = closed c)
  /\ Checked.setTension NaN (d, c) = Throw TypeError (d, c).
Proof.
  intros Ef Eg Ne T T0.
  assert (Hl : (Drone.lpf d < List.length (nodes c))%nat)
    by (apply nth_error_Some; congruence).
  assert (Hg : (Drone.gain d < List.length (nodes c))%nat)
    by (apply nth_error_Some; congruence).
  split.
  - intros N.
    destruct (scale_any_between tension 260 1800 N) as (a & Ea & Ra);
      [discriminate |].
    destruct (scale_any_between tension 0.1 0.2 N) as (b & Eb & Rb);
      [discriminate |].
    eexists. exists a, b. split.
    { rewrite (setTension_accepted tension d c t T T0 N Hl Hg).
      now apply setTension_run. }
    split; [exact Ea |]. split; [exact Eb |].
    split; [exact Ra |]. split; [exact Rb |].
    rewrite Ea, Eb, T.
    unfold param_of. cbn [nodes with_nodes wires currentTime closed].
    rewrite !nth_error_target, !Nat.eqb_refl.
    destruct (Nat.eqb_spec (Drone.gain d) (Drone.lpf d)) as [X | _]; [congruence |].
    destruct (Nat.eqb_spec (Drone.lpf d) (Drone.gain d)) as [X | _]; [congruence |].
    rewrite Ef, Eg. cbn [option_map get_param map_param p_frequency p_gain].
    repeat (split; [reflexivity |]). split.
    + intros i N1 N2. rewrite !nth_error_target.
      destruct (Nat.eqb_spec (Drone.gain d) i); [congruence |].
      destruct (Nat.eqb_spec (Drone.lpf d) i); [congruence |]. reflexivity.
    + repeat split; try reflexivity. exact T.
  - cbv beta iota zeta delta [Checked.setTension Api.setTension bind get
                              Drone.on_ctx zoom now fst snd].
    rewrite scale_NaN. reflexivity.
Qed.

Lemma setTension_schedules_targets_witness :
  exists c' g (level : Q),
    Checked.setTension 70 demo_drone_made = Ok tt (fst demo_drone_made, c')
    /\ nth_error (nodes (snd demo_drone_made))
                 (Drone.gain (fst demo_drone_made)) = Some g
    /\ 0.1 <= level <= 0.2
    /\ param_of (Drone.gain (fst demo_drone_made)) Gain_ c'
       = Some (with_event (SetTargetAtTime (Fin level) (Fin 0) 0.5) (p_gain g)).
Proof.
  destruct (nth_error (nodes (snd demo_drone_made))
                      (Drone.lpf (fst demo_drone_made))) as [f | ] eqn:Ef;
    [| vm_compute in Ef; discriminate].
  destruct (nth_error (nodes (snd demo_drone_made))
                      (Drone.gain (fst demo_drone_made))) as [g | ] eqn:Eg;
    [| vm_compute in Eg; discriminate].
  destruct (setTension_schedules_targets 70 (fst demo_drone_made)
              (snd demo_drone_made) f g 0 Ef Eg) as [H _].
  - vm_compute. discriminate.
  - reflexivity.
  - discriminate.
  - destruct H as (c' & cutoff & level & E & _ & _ & _ & R & _ & P & _).
    + discriminate.
    + exists c', g, level. rewrite <- surjective_pairing in E.
      split; [exact E |]. split; [reflexivity |]. split; [exact R | exact P].
Defined.
